(** * TuneYourMuse: packet decoding, EEG frame synchronisation, LSL
      publication, recording alignment and teardown

    A shallow embedding of the Python package [muse_spotify_recorder]:

    - [muse_parser.py]            -> Module [Parser]
    - [muse_constants.py]         -> Module [Constants]
    - [muse_lsl_streamer.py]      -> Module [LSL]
    - [muse_bluetooth.py]         -> Module [BLE]
    - [custom_muse_streamer.py]   -> Module [Streamer]
    - [lsl_utils.py], [models.py] -> Module [Recording]

    followed by the definitions the properties are stated with, and the
    properties.

    Conventions.  Python [bytes] are [list Byte.byte]; Python [int] is
    [Z]; a [dict] is a [gmap]; a numpy array is a list.  The [float]
    values of the decoders and of the LSL outlets are modelled by
    rationals [Q]: every finite float is a rational, constants are the
    decimals the source spells, and the rounding of a product or a sum
    is not modelled.  The recording loop decides by a comparison of
    floats whether a row is written; there, and for the clock readings
    the play detection hands to it, a [float] is a binary64 value of
    [PrimFloat], with its rounding, infinities and NaN.  A raised
    exception is the [Raise] outcome of [result]; a method that mutates
    [self] is a function in a state-and-exception monad, and a mutation
    made before a [raise] stays.  A reading of [pylsl.local_clock()] is
    an argument
    of the method that may read it.  The [BleakClient] of the radio
    stack is an object that records the calls made on it and decides,
    from outside the program, which of them raise.  Calls to
    [console.print] and [asyncio.sleep] change nothing that is modelled
    and are left out; fields that no modelled method reads are left
    out of the records. *)

From Stdlib Require Import ZArith QArith List Lia Bool Floats.
From stdpp Require Import gmap strings list fin_maps sorting.
Import ListNotations.

Open Scope Z_scope.

(** ** Exceptions and outcomes *)

Inductive exn : Type :=
| ValueError
| RuntimeError
| KeyError
| IndexError
| AttributeError
| BleakError
| ReadError.

Inductive result (A : Type) : Type :=
| Ok (a : A)
| Raise (e : exn).
Arguments Ok {A} a.
Arguments Raise {A} e.

Definition rbind {A B} (r : result A) (k : A -> result B) : result B :=
  match r with
  | Ok a => k a
  | Raise e => Raise e
  end.

Declare Scope result_scope.
Delimit Scope result_scope with res.
Notation "'let*' x ':=' c 'in' k" := (rbind c (fun x => k))
  (at level 10, x name, c at level 100, k at level 200) : result_scope.

(** ** muse_parser.py *)

Module Parser.

(** *** The part of [bitstring] the parser uses *)

Definition byte_Z (b : Byte.byte) : Z := Z.of_N (Byte.to_N b).

(** The eight bits of a byte, most significant first. *)
Definition bits_of_byte (b : Byte.byte) : list bool :=
  List.map (fun i => Z.testbit (byte_Z b) (Z.of_nat (7 - i))) (seq 0 8).

(** [bitstring.Bits(bytes=data)] *)
Definition Bits (data : list Byte.byte) : list bool :=
  flat_map bits_of_byte data.

(** Interpretation [uint:n]: big-endian unsigned. *)
Definition uint (bs : list bool) : Z :=
  fold_left (fun acc b => 2 * acc + Z.b2z b) bs 0.

(** Interpretation [int:n]: big-endian two's complement. *)
Definition int (bs : list bool) : Z :=
  match bs with
  | true :: _ => uint bs - 2 ^ Z.of_nat (length bs)
  | _ => uint bs
  end.

Inductive token : Type :=
| t_uint (n : nat)
| t_int (n : nat).

Definition width (t : token) : nat :=
  match t with t_uint n => n | t_int n => n end.

Definition interp (t : token) (bs : list bool) : Z :=
  match t with t_uint _ => uint bs | t_int _ => int bs end.

(** [Bits.unpack(pattern)]: the tokens are read one after the other
    from the front of the bit string; reading past the end raises. *)
Fixpoint unpack (pattern : list token) (bits : list bool) : result (list Z) :=
  match pattern with
  | [] => Ok []
  | t :: rest =>
      if (length bits <? width t)%nat then Raise ReadError
      else
        (let* vs := unpack rest (skipn (width t) bits) in
         Ok (interp t (firstn (width t) bits) :: vs))%res
  end.

(** *** Constants *)

Definition EEG_SCALE_FACTOR : Q := 48828125 # 100000000.
Definition ACC_SCALE_FACTOR : Q := 610352 # 10000000000.
Definition GYRO_SCALE_FACTOR : Q := 74768 # 10000000.

(** ["uint:16," + "uint:12," * 12] *)
Definition eeg_pattern : list token := t_uint 16 :: repeat (t_uint 12) 12.
(** ["uint:16," + "int:16," * 9] *)
Definition imu_pattern : list token := t_uint 16 :: repeat (t_int 16) 9.

(** [np.array(unpacked[1:], dtype=np.float64)] *)
Definition float_array (l : list Z) : list Q := List.map inject_Z l.

(** [raw_data.reshape((rows, cols), order='F')]: entry [(i, j)] of the
    result is entry [i + rows * j] of the flat array. *)
Definition reshape_F (rows cols : nat) (l : list Q) : result (list (list Q)) :=
  if (length l =? rows * cols)%nat then
    Ok (List.map (fun i => List.map (fun j => nth (i + rows * j) l 0%Q) (seq 0 cols))
          (seq 0 rows))
  else Raise ValueError.

(** *** The three decoders *)

Definition parse_eeg_packet (data : list Byte.byte) : result (Z * list Q) :=
  if negb (length data =? 20)%nat then Raise ValueError
  else
    (let* unpacked := unpack eeg_pattern (Bits data) in
     match unpacked with
     | [] => Raise IndexError
     | packet_index :: rest =>
         let raw_samples := float_array rest in
         let samples_uv :=
           List.map (fun r => EEG_SCALE_FACTOR * (r - 2048))%Q raw_samples in
         Ok (packet_index, samples_uv)
     end)%res.

Definition parse_acc_packet (data : list Byte.byte) : result (Z * list (list Q)) :=
  if negb (length data =? 20)%nat then Raise ValueError
  else
    (let* unpacked := unpack imu_pattern (Bits data) in
     match unpacked with
     | [] => Raise IndexError
     | packet_index :: rest =>
         let raw_data := float_array rest in
         let* samples := reshape_F 3 3 raw_data in
         let samples_g :=
           List.map (List.map (fun v => v * ACC_SCALE_FACTOR)%Q) samples in
         Ok (packet_index, samples_g)
     end)%res.

Definition parse_gyro_packet (data : list Byte.byte) : result (Z * list (list Q)) :=
  if negb (length data =? 20)%nat then Raise ValueError
  else
    (let* unpacked := unpack imu_pattern (Bits data) in
     match unpacked with
     | [] => Raise IndexError
     | packet_index :: rest =>
         let raw_data := float_array rest in
         let* samples := reshape_F 3 3 raw_data in
         let samples_dps :=
           List.map (List.map (fun v => v * GYRO_SCALE_FACTOR)%Q) samples in
         Ok (packet_index, samples_dps)
     end)%res.

End Parser.

(** ** Methods as state transformers that may raise

    A method of an object with state [S] is a function from the state
    before the call to the outcome and the state after it.  A raised
    exception keeps the mutations made before the [raise], as in
    Python. *)

Definition M (S A : Type) : Type := S -> result A * S.

Definition ret {S A} (a : A) : M S A := fun s => (Ok a, s).
Definition raise {S A} (e : exn) : M S A := fun s => (Raise e, s).
Definition bind {S A B} (m : M S A) (k : A -> M S B) : M S B :=
  fun s =>
    match m s with
    | (Ok a, s') => k a s'
    | (Raise e, s') => (Raise e, s')
    end.
Definition get {S} : M S S := fun s => (Ok s, s).
Definition modify {S} (f : S -> S) : M S unit := fun s => (Ok tt, f s).
Definition lift_result {S A} (r : result A) : M S A := fun s => (r, s).

(** [try: body except Exception: handler] *)
Definition try_except {S A} (body : M S A) (handler : exn -> M S A) : M S A :=
  fun s =>
    match body s with
    | (Ok a, s') => (Ok a, s')
    | (Raise e, s') => handler e s'
    end.

(** A method of a component object stored in a field of [S]. *)
Definition zoom {S T A} (proj : S -> T) (upd : T -> S -> S) (m : M T A) : M S A :=
  fun s => let (r, t') := m (proj s) in (r, upd t' s).

(** [for x in xs: body x] *)
Fixpoint for_each {S X} (xs : list X) (body : X -> M S unit) : M S unit :=
  match xs with
  | [] => ret tt
  | x :: rest => bind (body x) (fun _ => for_each rest body)
  end.

Declare Scope monad_scope.
Delimit Scope monad_scope with M.
Notation "'do' x '<-' c ';' k" := (bind c (fun x => k))
  (at level 10, x name, c at level 100, k at level 200) : monad_scope.
Notation "c ';;' k" := (bind c (fun _ => k))
  (at level 100, k at level 200, right associativity) : monad_scope.

(** ** muse_constants.py *)

Module Constants.
Local Open Scope string_scope.
Definition EEG_TP9_UUID := "273e0003-4c4d-454d-96be-f03bac821358".
Definition EEG_AF7_UUID := "273e0004-4c4d-454d-96be-f03bac821358".
Definition EEG_AF8_UUID := "273e0005-4c4d-454d-96be-f03bac821358".
Definition EEG_TP10_UUID := "273e0006-4c4d-454d-96be-f03bac821358".
Definition ACCELEROMETER_UUID := "273e000a-4c4d-454d-96be-f03bac821358".
Definition GYROSCOPE_UUID := "273e0009-4c4d-454d-96be-f03bac821358".
Definition CONTROL_UUID := "273e0001-4c4d-454d-96be-f03bac821358".
Definition EEG_CHANNEL_NAMES : list string := ["TP9"; "AF7"; "AF8"; "TP10"].
Definition EEG_SAMPLE_RATE : Z := 256.
Definition EEG_CHANNEL_COUNT : nat := 4.
Definition ACC_SAMPLE_RATE : Z := 52.
Definition ACC_CHANNEL_COUNT : nat := 3.
Definition GYRO_SAMPLE_RATE : Z := 52.
Definition GYRO_CHANNEL_COUNT : nat := 3.
End Constants.

(** ** muse_lsl_streamer.py *)

Module LSL.
Import Constants.

(** A [pylsl.StreamOutlet], seen from the publishing side: the samples
    pushed so far, each with the [timestamp] argument of its
    [push_sample] call, oldest first. *)
Definition StreamOutlet : Type := list (list Q * Q).

(** [outlet.push_sample(x, timestamp)] on an outlet whose [StreamInfo]
    declares [channel_count] channels: pylsl raises [ValueError] unless
    [len(x)] is the channel count. *)
Definition push_sample (channel_count : nat) (x : list Q) (timestamp : Q)
    : M StreamOutlet unit :=
  fun o =>
    if (length x =? channel_count)%nat then (Ok tt, o ++ [(x, timestamp)])
    else (Raise ValueError, o).

Record MuseLSLStreamer : Type := mkLSL {
  eeg_outlet : option StreamOutlet;
  acc_outlet : option StreamOutlet;
  gyro_outlet : option StreamOutlet;
  _streams_created : bool
}.

(** [__init__] *)
Definition init : MuseLSLStreamer :=
  {| eeg_outlet := None; acc_outlet := None; gyro_outlet := None;
     _streams_created := false |}.

(** [create_streams] is the only place that makes outlets: the one it
    stores in [eeg_outlet] has [EEG_CHANNEL_COUNT] channels, the one in
    [acc_outlet] has [ACC_CHANNEL_COUNT] and the one in [gyro_outlet]
    has [GYRO_CHANNEL_COUNT].  The channel count of an outlet is
    therefore that of the field that holds it, and the push methods
    below pass it to [push_sample]. *)
Definition create_streams : M MuseLSLStreamer unit :=
  fun l =>
    if _streams_created l then (Ok tt, l)
    else (Ok tt, {| eeg_outlet := Some []; acc_outlet := Some [];
                    gyro_outlet := Some []; _streams_created := true |}).

(** [for i, sample in enumerate(samples): outlet.push_sample(sample.tolist(),
    timestamp + (i * time_per_sample))]: a push that raises ends the
    loop, and the samples pushed before it stay pushed. *)
Definition push_interpolated (channel_count : nat) (time_per_sample timestamp : Q)
    (samples : list (list Q)) : M StreamOutlet unit :=
  for_each (combine (seq 0 (length samples)) samples)
    (fun p : nat * list Q =>
       let (i, sample) := p in
       let sample_timestamp := (timestamp + (inject_Z (Z.of_nat i) * time_per_sample))%Q in
       push_sample channel_count sample sample_timestamp).

(** The body the three [push_*_chunk] methods share, for an outlet that
    exists: [channel_count] is the channel count of the method's outlet
    and [rate] the module constant the method reads. *)
Definition push_chunk_to (channel_count : nat) (rate : Z) (samples : list (list Q))
    (timestamp : Q) : M StreamOutlet unit :=
  if (1 <? length samples)%nat then
    let time_per_sample := (1 / inject_Z rate)%Q in
    push_interpolated channel_count time_per_sample timestamp samples
  else
    match samples with
    | [] => raise IndexError
    | sample0 :: _ => push_sample channel_count sample0 timestamp
    end.

(** [timestamp] is the optional argument; [local_clock] is what
    [pylsl.local_clock()] returns if it is read during the call. *)
Definition push_eeg_chunk (samples : list (list Q)) (timestamp : option Q)
    (local_clock : Q) : M MuseLSLStreamer unit :=
  fun l =>
    match _streams_created l, eeg_outlet l with
    | true, Some o =>
        let timestamp := match timestamp with Some t => t | None => local_clock end in
        let (r, o') := push_chunk_to EEG_CHANNEL_COUNT EEG_SAMPLE_RATE samples timestamp o in
        (r, {| eeg_outlet := Some o'; acc_outlet := acc_outlet l;
               gyro_outlet := gyro_outlet l;
               _streams_created := _streams_created l |})
    | _, _ => (Raise RuntimeError, l)
    end.

Definition push_acc_chunk (samples : list (list Q)) (timestamp : option Q)
    (local_clock : Q) : M MuseLSLStreamer unit :=
  fun l =>
    match _streams_created l, acc_outlet l with
    | true, Some o =>
        let timestamp := match timestamp with Some t => t | None => local_clock end in
        let (r, o') := push_chunk_to ACC_CHANNEL_COUNT ACC_SAMPLE_RATE samples timestamp o in
        (r, {| eeg_outlet := eeg_outlet l; acc_outlet := Some o';
               gyro_outlet := gyro_outlet l;
               _streams_created := _streams_created l |})
    | _, _ => (Raise RuntimeError, l)
    end.

Definition push_gyro_chunk (samples : list (list Q)) (timestamp : option Q)
    (local_clock : Q) : M MuseLSLStreamer unit :=
  fun l =>
    match _streams_created l, gyro_outlet l with
    | true, Some o =>
        let timestamp := match timestamp with Some t => t | None => local_clock end in
        let (r, o') := push_chunk_to GYRO_CHANNEL_COUNT GYRO_SAMPLE_RATE samples timestamp o in
        (r, {| eeg_outlet := eeg_outlet l; acc_outlet := acc_outlet l;
               gyro_outlet := Some o';
               _streams_created := _streams_created l |})
    | _, _ => (Raise RuntimeError, l)
    end.

Definition close_streams : M MuseLSLStreamer unit :=
  fun l =>
    if negb (_streams_created l) then (Ok tt, l)
    else (Ok tt, {| eeg_outlet := None; acc_outlet := None; gyro_outlet := None;
                    _streams_created := false |}).

End LSL.

(** ** muse_bluetooth.py *)

Module BLE.
Import Constants.

(** The calls the client makes on its [bleak.BleakClient]. *)
Inductive ble_call : Type :=
| StartNotify (uuid : string)
| StopNotify (uuid : string)
| WriteGattChar (uuid : string) (data : list Byte.byte)
| ClientDisconnect.

(** A [BleakClient], seen from the caller: [history] lists the calls
    made on it so far, oldest first, and [faults h c] tells whether call
    [c], made after the calls [h], raises.  The radio stack decides
    [faults]; the code under study only reacts to it. *)
Record BleakClient : Type := mkBleak {
  faults : list ble_call -> ble_call -> bool;
  history : list ble_call
}.

Record MuseBLEClient : Type := mkBLE {
  client : option BleakClient;
  _connected : bool;
  _streaming : bool
}.

Definition CMD_STOP_STREAM : list Byte.byte := [Byte.x02; Byte.x68; Byte.x0a].

Definition set_flags (connected streaming : bool) (c : MuseBLEClient) : MuseBLEClient :=
  {| client := client c; _connected := connected; _streaming := streaming |}.

(** [await self.client.<call>]: the call is recorded on the client
    object, then returns or raises as the radio stack decides.  With
    [self.client] being [None] Python raises [AttributeError]. *)
Definition client_call (c : ble_call) : M MuseBLEClient unit :=
  fun s =>
    match client s with
    | None => (Raise AttributeError, s)
    | Some cl =>
        let s' := {| client := Some {| faults := faults cl;
                                       history := history cl ++ [c] |};
                     _connected := _connected s; _streaming := _streaming s |} in
        if faults cl (history cl) c then (Raise BleakError, s') else (Ok tt, s')
    end.

Definition stop_streaming : M MuseBLEClient bool :=
  fun s =>
    match _connected s, client s with
    | true, Some _ =>
        if negb (_streaming s) then (Ok true, s)
        else
          try_except
            (client_call (WriteGattChar CONTROL_UUID CMD_STOP_STREAM) ;;
             modify (fun s => set_flags (_connected s) false s) ;;
             ret true)%M
            (fun _ => ret false) s
    | _, _ => (Raise RuntimeError, s)
    end.

Definition eeg_uuids : list (string * string) :=
  [("TP9", EEG_TP9_UUID); ("AF7", EEG_AF7_UUID);
   ("AF8", EEG_AF8_UUID); ("TP10", EEG_TP10_UUID)]%string.

Definition disconnect : M MuseBLEClient unit :=
  fun s =>
    match _connected s, client s with
    | true, Some _ =>
        try_except
          ((if _streaming s then (do _r <- stop_streaming; ret tt) else ret tt) ;;
           for_each (List.map snd eeg_uuids)
             (fun uuid => try_except (client_call (StopNotify uuid)) (fun _ => ret tt)) ;;
           try_except
             (client_call (StopNotify ACCELEROMETER_UUID) ;;
              client_call (StopNotify GYROSCOPE_UUID))
             (fun _ => ret tt) ;;
           client_call ClientDisconnect ;;
           modify (set_flags false false))%M
          (fun _ => ret tt) s
    | _, _ => (Ok tt, s)
    end.

End BLE.

(** ** custom_muse_streamer.py *)

Module Streamer.
Import Constants.

(** The keep-alive [asyncio.Task], as far as [stop] is concerned. *)
Inductive task : Type := TaskPending | TaskCancelled.

Record CustomMuseStreamer : Type := mkStreamer {
  ble_client : BLE.MuseBLEClient;
  lsl_streamer : LSL.MuseLSLStreamer;
  _running : bool;
  _keep_alive_task : option task;
  _packet_counts : gmap string Z;
  _eeg_buffer : gmap Z (gmap string (list Q));
  _eeg_timestamps : gmap Z Q
}.

Definition set_ble_client (b : BLE.MuseBLEClient) (s : CustomMuseStreamer) :=
  {| ble_client := b; lsl_streamer := lsl_streamer s; _running := _running s;
     _keep_alive_task := _keep_alive_task s; _packet_counts := _packet_counts s;
     _eeg_buffer := _eeg_buffer s; _eeg_timestamps := _eeg_timestamps s |}.
Definition set_lsl_streamer (l : LSL.MuseLSLStreamer) (s : CustomMuseStreamer) :=
  {| ble_client := ble_client s; lsl_streamer := l; _running := _running s;
     _keep_alive_task := _keep_alive_task s; _packet_counts := _packet_counts s;
     _eeg_buffer := _eeg_buffer s; _eeg_timestamps := _eeg_timestamps s |}.
Definition set_running (r : bool) (s : CustomMuseStreamer) :=
  {| ble_client := ble_client s; lsl_streamer := lsl_streamer s; _running := r;
     _keep_alive_task := _keep_alive_task s; _packet_counts := _packet_counts s;
     _eeg_buffer := _eeg_buffer s; _eeg_timestamps := _eeg_timestamps s |}.
Definition set_keep_alive_task (t : option task) (s : CustomMuseStreamer) :=
  {| ble_client := ble_client s; lsl_streamer := lsl_streamer s; _running := _running s;
     _keep_alive_task := t; _packet_counts := _packet_counts s;
     _eeg_buffer := _eeg_buffer s; _eeg_timestamps := _eeg_timestamps s |}.
Definition set_packet_counts (c : gmap string Z) (s : CustomMuseStreamer) :=
  {| ble_client := ble_client s; lsl_streamer := lsl_streamer s; _running := _running s;
     _keep_alive_task := _keep_alive_task s; _packet_counts := c;
     _eeg_buffer := _eeg_buffer s; _eeg_timestamps := _eeg_timestamps s |}.
Definition set_eeg_buffer (b : gmap Z (gmap string (list Q))) (s : CustomMuseStreamer) :=
  {| ble_client := ble_client s; lsl_streamer := lsl_streamer s; _running := _running s;
     _keep_alive_task := _keep_alive_task s; _packet_counts := _packet_counts s;
     _eeg_buffer := b; _eeg_timestamps := _eeg_timestamps s |}.
Definition set_eeg_timestamps (t : gmap Z Q) (s : CustomMuseStreamer) :=
  {| ble_client := ble_client s; lsl_streamer := lsl_streamer s; _running := _running s;
     _keep_alive_task := _keep_alive_task s; _packet_counts := _packet_counts s;
     _eeg_buffer := _eeg_buffer s; _eeg_timestamps := t |}.

(** [__init__] *)
Definition init : CustomMuseStreamer :=
  {| ble_client := {| BLE.client := None; BLE._connected := false;
                      BLE._streaming := false |};
     lsl_streamer := LSL.init;
     _running := false;
     _keep_alive_task := None;
     _packet_counts :=
       list_to_map [("TP9", 0); ("AF7", 0); ("AF8", 0); ("TP10", 0);
                    ("ACC", 0); ("GYRO", 0)]%string;
     _eeg_buffer := ∅;
     _eeg_timestamps := ∅ |}.

(** [d[k]] for reading: a missing key raises. *)
Definition getitem {S K V} `{Countable K} (d : gmap K V) (k : K) : M S V :=
  match d !! k with
  | Some v => ret v
  | None => raise KeyError
  end.

(** [np.column_stack] of one-dimensional arrays: they must have one
    length; row [k] of the result holds entry [k] of every array. *)
Definition column_stack (cols : list (list Q)) : result (list (list Q)) :=
  match cols with
  | [] => Raise ValueError
  | c0 :: _ =>
      if forallb (fun c => (length c =? length c0)%nat) cols then
        Ok (List.map (fun k => List.map (fun c => nth k c 0%Q) cols) (seq 0 (length c0)))
      else Raise ValueError
  end.

(** [sorted(d.keys())] *)
Definition sorted_keys {V} (d : gmap Z V) : list Z :=
  merge_sort Z.le (map_to_list d).*1.

(** [l[:-10]] *)
Definition all_but_last_10 {X} (l : list X) : list X := take (length l - 10) l.

(** The body of the clean-up loop.  [del self._eeg_buffer[old_idx]]
    cannot raise here: the keys iterated are the buffer's own, each
    once. *)
Definition evict (old_idx : Z) : M CustomMuseStreamer unit :=
  (modify (fun s => set_eeg_buffer (delete old_idx (_eeg_buffer s)) s) ;;
   do s <- get;
   match _eeg_timestamps s !! old_idx with
   | Some _ => modify (fun s => set_eeg_timestamps (delete old_idx (_eeg_timestamps s)) s)
   | None => ret tt
   end)%M.

(** [_process_eeg_packet] (lines 75-110): create the entry and stamp it
    if the index is new, store the channel's samples, and, when the
    entry then holds 4 channels, stack the four columns, push the block
    and only then run the clean-up. *)
Definition _process_eeg_packet (channel : string) (packet_index : Z)
    (samples : list Q) (local_clock : Q) : M CustomMuseStreamer unit :=
  (do s <- get;
   match _eeg_buffer s !! packet_index with
   | None =>
       modify (fun s => set_eeg_buffer (<[packet_index := ∅]> (_eeg_buffer s)) s) ;;
       modify (fun s =>
                 set_eeg_timestamps (<[packet_index := local_clock]> (_eeg_timestamps s)) s)
   | Some _ => ret tt
   end ;;
   do s <- get;
   do frame <- getitem (_eeg_buffer s) packet_index;
   modify (set_eeg_buffer (<[packet_index := <[channel := samples]> frame]> (_eeg_buffer s))) ;;
   do s <- get;
   do frame <- getitem (_eeg_buffer s) packet_index;
   if (size frame =? 4)%nat then
     do tp9 <- getitem frame "TP9"%string;
     do af7 <- getitem frame "AF7"%string;
     do af8 <- getitem frame "AF8"%string;
     do tp10 <- getitem frame "TP10"%string;
     do combined <- lift_result (column_stack [tp9; af7; af8; tp10]);
     do timestamp <- getitem (_eeg_timestamps s) packet_index;
     zoom lsl_streamer set_lsl_streamer
       (LSL.push_eeg_chunk combined (Some timestamp) local_clock) ;;
     do s <- get;
     if (10 <? size (_eeg_buffer s))%nat then
       let oldest_indices := all_but_last_10 (sorted_keys (_eeg_buffer s)) in
       for_each oldest_indices evict
     else ret tt
   else ret tt)%M.

(** [self._packet_counts[k] += 1] *)
Definition count_packet (k : string) : M CustomMuseStreamer unit :=
  (do s <- get;
   do n <- getitem (_packet_counts s) k;
   modify (set_packet_counts (<[k := n + 1]> (_packet_counts s))))%M.

(** The six notification callbacks.  [local_clock] is the reading
    [pylsl.local_clock()] gives during the callback. *)
Definition _on_eeg_tp9_data (data : list Byte.byte) (local_clock : Q)
    : M CustomMuseStreamer unit :=
  try_except
    (do r <- lift_result (Parser.parse_eeg_packet data);
     _process_eeg_packet "TP9" (fst r) (snd r) local_clock ;;
     count_packet "TP9")%M
    (fun _ => ret tt).

Definition _on_eeg_af7_data (data : list Byte.byte) (local_clock : Q)
    : M CustomMuseStreamer unit :=
  try_except
    (do r <- lift_result (Parser.parse_eeg_packet data);
     _process_eeg_packet "AF7" (fst r) (snd r) local_clock ;;
     count_packet "AF7")%M
    (fun _ => ret tt).

Definition _on_eeg_af8_data (data : list Byte.byte) (local_clock : Q)
    : M CustomMuseStreamer unit :=
  try_except
    (do r <- lift_result (Parser.parse_eeg_packet data);
     _process_eeg_packet "AF8" (fst r) (snd r) local_clock ;;
     count_packet "AF8")%M
    (fun _ => ret tt).

Definition _on_eeg_tp10_data (data : list Byte.byte) (local_clock : Q)
    : M CustomMuseStreamer unit :=
  try_except
    (do r <- lift_result (Parser.parse_eeg_packet data);
     _process_eeg_packet "TP10" (fst r) (snd r) local_clock ;;
     count_packet "TP10")%M
    (fun _ => ret tt).

Definition _on_acc_data (data : list Byte.byte) (local_clock : Q)
    : M CustomMuseStreamer unit :=
  try_except
    (do r <- lift_result (Parser.parse_acc_packet data);
     let timestamp := local_clock in
     zoom lsl_streamer set_lsl_streamer
       (LSL.push_acc_chunk (snd r) (Some timestamp) local_clock) ;;
     count_packet "ACC")%M
    (fun _ => ret tt).

Definition _on_gyro_data (data : list Byte.byte) (local_clock : Q)
    : M CustomMuseStreamer unit :=
  try_except
    (do r <- lift_result (Parser.parse_gyro_packet data);
     let timestamp := local_clock in
     zoom lsl_streamer set_lsl_streamer
       (LSL.push_gyro_chunk (snd r) (Some timestamp) local_clock) ;;
     count_packet "GYRO")%M
    (fun _ => ret tt).

(** [stop].  Cancelling and awaiting the keep-alive task leaves it
    cancelled; the [CancelledError] of the await is caught. *)
Definition stop : M CustomMuseStreamer unit :=
  fun s =>
    if negb (_running s) then (Ok tt, s)
    else
      (modify (set_running false) ;;
       do s <- get;
       match _keep_alive_task s with
       | Some _ => modify (set_keep_alive_task (Some TaskCancelled))
       | None => ret tt
       end ;;
       zoom ble_client set_ble_client BLE.disconnect ;;
       zoom lsl_streamer set_lsl_streamer LSL.close_streams)%M s.

(** What a test harness observes of a run: the state reached by a
    sequence of EEG samples handed to [_process_eeg_packet], each with
    the clock reading of its arrival.  An exception raised by one call
    is caught by the calling callback, so the run goes on. *)
Record eeg_arrival : Type := mkArrival {
  arr_channel : string;
  arr_index : Z;
  arr_samples : list Q;
  arr_clock : Q
}.

Definition feed (a : eeg_arrival) (s : CustomMuseStreamer) : CustomMuseStreamer :=
  snd (_process_eeg_packet (arr_channel a) (arr_index a) (arr_samples a) (arr_clock a) s).

Definition feed_all (l : list eeg_arrival) (s : CustomMuseStreamer) : CustomMuseStreamer :=
  fold_left (fun s a => feed a s) l s.

End Streamer.

(** ** lsl_utils.py and the part of models.py it reads *)

Module Recording.

(** [SpotifyTrackInfo]: the reference event.  Only the two clock
    readings are kept; the loop reads [started_at_lsl]. *)
Record SpotifyTrackInfo : Type := mkTrack {
  started_at_unix : float;
  started_at_lsl : float
}.

(** One data row of a CSV file:
    [[idx, tstamp, rel_t] + list(sample)]. *)
Record row : Type := mkRow {
  sample_index : Z;
  lsl_timestamp : float;
  time_since_play_sec : float;
  channels : list float
}.

(** The loop's local variables: per stream type, the data rows written
    so far (after the header) and the next sample index. *)
Record loop_state : Type := mkLoop {
  writers : gmap string (list row);
  sample_indices : gmap string Z
}.

(** [writers[stype].writerow(row)] *)
Definition writerow (stype : string) (r : row) : M loop_state unit :=
  (do st <- get;
   do w <- Streamer.getitem (writers st) stype;
   modify (fun st => {| writers := <[stype := w ++ [r]]> (writers st);
                        sample_indices := sample_indices st |}))%M.

(** The body of [for sample, tstamp in zip(chunk, ts)]. *)
Definition record_sample (play_lsl pre_roll : float) (stype : string)
    (p : list float * float) : M loop_state unit :=
  let (sample, tstamp) := p in
  let rel_t := (tstamp - play_lsl)%float in
  if (rel_t <? - pre_roll)%float then ret tt
  else
    (do st <- get;
     do idx <- Streamer.getitem (sample_indices st) stype;
     writerow stype (mkRow idx tstamp rel_t sample) ;;
     do st <- get;
     do n <- Streamer.getitem (sample_indices st) stype;
     modify (fun st => {| writers := writers st;
                          sample_indices := <[stype := n + 1]> (sample_indices st) |}))%M.

(** What one non-empty [inlet.pull_chunk] of stream [stype] leads to. *)
Definition record_chunk (play_lsl pre_roll : float) (stype : string)
    (chunk : list (list float)) (ts : list float) : M loop_state unit :=
  for_each (combine chunk ts) (record_sample play_lsl pre_roll stype).

(** [recording_loop].  [pulls] lists, in the order the loop makes them
    until [state.should_stop] is set, the results of
    [inlet.pull_chunk] with the type of the stream pulled.  The result
    is the content of the files when the loop ends. *)
Definition recording_loop (track_info : option SpotifyTrackInfo) (pre_roll_sec : float)
    (stream_types : list string)
    (pulls : list (string * (list (list float) * list float))) : result loop_state :=
  match track_info with
  | None => Raise RuntimeError
  | Some info =>
      let play_lsl := started_at_lsl info in
      let pre_roll := pre_roll_sec in
      let st0 := {| writers := list_to_map (List.map (fun k => (k, [])) stream_types);
                    sample_indices := list_to_map (List.map (fun k => (k, 0)) stream_types) |} in
      let (r, st) :=
        for_each pulls
          (fun (p : string * (list (list float) * list float)) =>
             let (stype, ct) := p in
             let (chunk, ts) := ct in
             match chunk with
             | [] => ret tt
             | _ => record_chunk play_lsl pre_roll stype chunk ts
             end) st0 in
      match r with
      | Ok _ => Ok st
      | Raise e => Raise e
      end
  end.

End Recording.

(** * Definitions used to state the properties *)

Import Parser Streamer.

(** ** Decoding *)

(** The values [unpack] reads when it starts [off] bits into [bits]. *)
Fixpoint fields_at (bits : list bool) (off : nat) (pattern : list token) : list Z :=
  match pattern with
  | [] => []
  | t :: rest =>
      interp t (firstn (width t) (skipn off bits)) :: fields_at bits (off + width t) rest
  end.

Definition total_width (pattern : list token) : nat :=
  fold_right (fun t n => (width t + n)%nat) 0%nat pattern.

(** *** The wire layout, stated on the packet as one big-endian number

    These definitions are not taken from the decoders: they read the
    bytes with the library's [Byte.to_N] and spell the layout and the
    calibration out, and the decoders are compared with them. *)

(** The packet read as one unsigned big-endian number. *)
Definition packet_value (data : list Byte.byte) : Z :=
  fold_left (fun acc b => 256 * acc + Z.of_N (Byte.to_N b)) data 0.

(** The [w]-bit field that starts [off] bits into a 160-bit packet. *)
Definition field (data : list Byte.byte) (off w : nat) : Z :=
  (packet_value data / 2 ^ Z.of_nat (160 - off - w)) mod 2 ^ Z.of_nat w.

Definition to_signed (w : nat) (v : Z) : Z :=
  if v <? 2 ^ (Z.of_nat w - 1) then v else v - 2 ^ Z.of_nat w.

(** First 16 bits: the sequence index. *)
Definition layout_sequence_index (data : list Byte.byte) : Z := field data 0 16.
(** The [k]-th 12-bit raw EEG value. *)
Definition layout_eeg_raw (data : list Byte.byte) (k : nat) : Z :=
  field data (16 + 12 * k) 12.
(** The [k]-th signed 16-bit raw ACC/GYRO value. *)
Definition layout_imu_raw (data : list Byte.byte) (k : nat) : Z :=
  to_signed 16 (field data (16 + 16 * k) 16).

(** The calibration of a raw EEG value. *)
Definition eeg_microvolts (raw : Z) : Q := (0.48828125 * (inject_Z raw - 2048))%Q.

(** ** Frame synchronisation *)

(** The EEG outlet exists and holds the samples [o]. *)
Definition streams_ready (s : CustomMuseStreamer) (o : LSL.StreamOutlet) : Prop :=
  LSL._streams_created (lsl_streamer s) = true ∧ LSL.eeg_outlet (lsl_streamer s) = Some o.

(** Lines 84-88 of [_process_eeg_packet] as one state change: the entry
    for [i] is created with the clock reading if it is new, and the
    channel's samples are put into it. *)
Definition store (channel : string) (i : Z) (samples : list Q) (clock : Q)
    (s : CustomMuseStreamer) : CustomMuseStreamer :=
  let frame0 := default ∅ (_eeg_buffer s !! i) in
  let t1 := match _eeg_buffer s !! i with
            | None => <[i := clock]> (_eeg_timestamps s)
            | Some _ => _eeg_timestamps s
            end in
  set_eeg_buffer (<[i := <[channel := samples]> frame0]> (_eeg_buffer s))
    (set_eeg_timestamps t1 s).

(** [del d[k]] for every [k] of [l]. *)
Definition remove_all {V} (l : list Z) (m : gmap Z V) : gmap Z V :=
  fold_left (fun m k => delete k m) l m.

(** Lines 105-110 as one state change. *)
Definition retain (s : CustomMuseStreamer) : CustomMuseStreamer :=
  if (10 <? size (_eeg_buffer s))%nat then
    let old := all_but_last_10 (sorted_keys (_eeg_buffer s)) in
    set_eeg_buffer (remove_all old (_eeg_buffer s))
      (set_eeg_timestamps (remove_all old (_eeg_timestamps s)) s)
  else s.

(** The 12 x 4 block of a completed frame: row [k] holds sample [k] of
    TP9, AF7, AF8 and TP10, in this order. *)
Definition frame_rows (tp9 af7 af8 tp10 : list Q) : list (list Q) :=
  List.map (fun k => [nth k tp9 0%Q; nth k af7 0%Q; nth k af8 0%Q; nth k tp10 0%Q]) (seq 0 12).

(** A completed frame as it appears on the EEG outlet: its 12 rows, row
    [k] stamped [reference + k * (1 / 256)]. *)
Definition published_frame (tp9 af7 af8 tp10 : list Q) (reference : Q) : list (list Q * Q) :=
  List.map
    (fun k => ([nth k tp9 0%Q; nth k af7 0%Q; nth k af8 0%Q; nth k tp10 0%Q],
               (reference + inject_Z (Z.of_nat k) * (1 / inject_Z Constants.EEG_SAMPLE_RATE))%Q))
    (seq 0 12).

(** The state after [rows] were pushed to the EEG outlet. *)
Definition publish (rows : list (list Q * Q)) (s : CustomMuseStreamer) : CustomMuseStreamer :=
  set_lsl_streamer
    {| LSL.eeg_outlet := option_map (fun o => o ++ rows) (LSL.eeg_outlet (lsl_streamer s));
       LSL.acc_outlet := LSL.acc_outlet (lsl_streamer s);
       LSL.gyro_outlet := LSL.gyro_outlet (lsl_streamer s);
       LSL._streams_created := LSL._streams_created (lsl_streamer s) |} s.

(** The state in which [frame] is pending for index [i], stamped [t],
    on top of [s0]. *)
Definition pending (s0 : CustomMuseStreamer) (i : Z) (frame : gmap string (list Q)) (t : Q)
    : CustomMuseStreamer :=
  set_eeg_buffer (<[i := frame]> (_eeg_buffer s0))
    (set_eeg_timestamps (<[i := t]> (_eeg_timestamps s0)) s0).

(** The four samples of sequence index [i], one per channel, each with
    the clock reading of its arrival. *)
Definition four_arrivals (i : Z) (tp9 af7 af8 tp10 : list Q) (c9 c7 c8 c10 : Q)
    : list eeg_arrival :=
  [mkArrival "TP9" i tp9 c9; mkArrival "AF7" i af7 c7;
   mkArrival "AF8" i af8 c8; mkArrival "TP10" i tp10 c10]%string.

Definition arrival_entry (a : eeg_arrival) : string * list Q :=
  (arr_channel a, arr_samples a).

(** ** Publication *)

(** The samples of a block with the timestamps the loop of
    [push_*_chunk] gives them: sample [k] gets
    [timestamp + k * time_per_sample]. *)
Definition interpolated (time_per_sample timestamp : Q) (samples : list (list Q))
    : list (list Q * Q) :=
  List.map
    (fun p : nat * list Q =>
       (snd p, (timestamp + inject_Z (Z.of_nat (fst p)) * time_per_sample)%Q))
    (combine (seq 0 (length samples)) samples).

(** ** Recording *)

(** The test of the loop (lines 206-208): the sample is written unless
    [rel_t < -pre_roll]. *)
Definition written (play_lsl pre_roll : float) (p : list float * float) : bool :=
  negb (snd p - play_lsl <? - pre_roll)%float.

(** The admission predicate of the specification:
    [relative_t >= -pre_roll_seconds]. *)
Definition admitted (play_lsl pre_roll : float) (p : list float * float) : bool :=
  (- pre_roll <=? snd p - play_lsl)%float.

(** The rows written for the samples [l], numbered from [idx]. *)
Fixpoint rows_from (play_lsl : float) (idx : Z) (l : list (list float * float))
    : list Recording.row :=
  match l with
  | [] => []
  | (sample, tstamp) :: rest =>
      Recording.mkRow idx tstamp (tstamp - play_lsl)%float sample
      :: rows_from play_lsl (idx + 1) rest
  end.

(** ** Retention *)

(** How many keys of the table are numerically greater than [i]. *)
Definition keys_above {V} (i : Z) (m : gmap Z V) : nat :=
  length (List.filter (fun k => i <? k) (map_to_list m).*1).

(** The pending frame that holds all four channels. *)
Definition full_frame (tp9 af7 af8 tp10 : list Q) : gmap string (list Q) :=
  list_to_map [("TP9", tp9); ("AF7", af7); ("AF8", af8); ("TP10", tp10)]%string.

(** The reference timestamp of the entry for [i] once a sample for [i]
    arrives at clock reading [clock]: the reading itself if the entry is
    created now, the stamp stored at its creation otherwise. *)
Definition reference_stamp (s : CustomMuseStreamer) (i : Z) (clock : Q) : option Q :=
  match _eeg_buffer s !! i with
  | None => Some clock
  | Some _ => _eeg_timestamps s !! i
  end.

(** ** Concrete runs *)

(** A streamer whose LSL outlets were created. *)
Definition example_ready : CustomMuseStreamer :=
  set_lsl_streamer (snd (LSL.create_streams LSL.init)) init.

(** Twelve samples [100 c, 100 c + 1, ...]. *)
Definition example_samples (c : Z) : list Q :=
  List.map (fun k => inject_Z (c * 100 + Z.of_nat k)) (seq 0 12).

(** Sequence index [i] with the channel TP10 lost: three arrivals. *)
Definition three_of_four (i : Z) : list eeg_arrival :=
  [mkArrival "TP9" i (example_samples 1) (inject_Z i);
   mkArrival "AF7" i (example_samples 2) (inject_Z i);
   mkArrival "AF8" i (example_samples 3) (inject_Z i)]%string.

(** Fifteen sequence indices, 1 to 15, none of which ever completes. *)
Definition fifteen_incomplete : list eeg_arrival :=
  flat_map three_of_four (List.map Z.of_nat (seq 1 15)).

(** The four samples of index 7, arriving AF8, TP9, TP10, AF7. *)
Definition example_order : list eeg_arrival :=
  [mkArrival "AF8" 7 (example_samples 3) 10;
   mkArrival "TP9" 7 (example_samples 1) 11;
   mkArrival "TP10" 7 (example_samples 4) 12;
   mkArrival "AF7" 7 (example_samples 2) 13]%string.

(** [example_order] after its first three arrivals, and the entry the
    fourth one completes. *)
Definition example_pending : CustomMuseStreamer :=
  feed_all (take 3 example_order) example_ready.

Definition example_frame : gmap string (list Q) :=
  <["AF7"%string := example_samples 2]> (default ∅ (_eeg_buffer example_pending !! 7)).

(** ** Teardown *)

(** The calls made so far on the client's [BleakClient]. *)
Definition calls_made (c : BLE.MuseBLEClient) : list BLE.ble_call :=
  match BLE.client c with
  | Some cl => BLE.history cl
  | None => []
  end.

(** The link close of this client never raises. *)
Definition close_never_faults (c : BLE.MuseBLEClient) : Prop :=
  ∀ cl, BLE.client c = Some cl → ∀ h, BLE.faults cl h BLE.ClientDisconnect = false.

(** A connected, streaming client whose radio stack raises on every
    attempt to close the link and on nothing else. *)
Definition example_link : BLE.MuseBLEClient :=
  {| BLE.client :=
       Some {| BLE.faults := fun _ c => match c with
                                        | BLE.ClientDisconnect => true
                                        | _ => false
                                        end;
               BLE.history := [] |};
     BLE._connected := true;
     BLE._streaming := true |}.

(** A connected, streaming client whose radio stack never raises. *)
Definition example_sound_link : BLE.MuseBLEClient :=
  {| BLE.client := Some {| BLE.faults := fun _ _ => false; BLE.history := [] |};
     BLE._connected := true;
     BLE._streaming := true |}.

(** The calls one full teardown makes after streaming was stopped. *)
Definition teardown_calls : list BLE.ble_call :=
  [BLE.StopNotify Constants.EEG_TP9_UUID; BLE.StopNotify Constants.EEG_AF7_UUID;
   BLE.StopNotify Constants.EEG_AF8_UUID; BLE.StopNotify Constants.EEG_TP10_UUID;
   BLE.StopNotify Constants.ACCELEROMETER_UUID; BLE.StopNotify Constants.GYROSCOPE_UUID;
   BLE.ClientDisconnect].

(** A step of the teardown that, on a connected client, returns normally
    and leaves the client connected with the same [BleakClient] (its
    history may have grown, the streaming flag may have changed). *)
Definition keeps_link (m : M BLE.MuseBLEClient unit) : Prop :=
  ∀ f h str, ∃ h' str',
    m (BLE.mkBLE (Some (BLE.mkBleak f h)) true str)
    = (Ok tt, BLE.mkBLE (Some (BLE.mkBleak f h')) true str').

(** The guard of [disconnect]: the link counts as already disconnected. *)
Definition disconnected (c : BLE.MuseBLEClient) : Prop :=
  BLE._connected c = false ∨ BLE.client c = None.

(** ** Concrete packets *)

(** Sequence index [0x1234]; raw EEG values 2048, 2048, 4095, 1, 0, ... *)
Definition example_eeg_packet : list Byte.byte :=
  [Byte.x12; Byte.x34; Byte.x80; Byte.x08; Byte.x00; Byte.xff; Byte.xf0; Byte.x01;
   Byte.x00; Byte.x00; Byte.x00; Byte.x00; Byte.x00; Byte.x00; Byte.x00; Byte.x00;
   Byte.x00; Byte.x00; Byte.x00; Byte.x00].

(** Sequence index [0x1234]; raw values 1, 2, 3, 16384, -1, -32768, 7, 8, 9. *)
Definition example_imu_packet : list Byte.byte :=
  [Byte.x12; Byte.x34; Byte.x00; Byte.x01; Byte.x00; Byte.x02; Byte.x00; Byte.x03;
   Byte.x40; Byte.x00; Byte.xff; Byte.xff; Byte.x80; Byte.x00; Byte.x00; Byte.x07;
   Byte.x00; Byte.x08; Byte.x00; Byte.x09].

(** A recording in progress: one EEG row written, next index 1. *)
Definition example_loop_state : Recording.loop_state :=
  {| Recording.writers :=
       {[ "EEG"%string := [Recording.mkRow 0 99%float (-1)%float [1; 2; 3; 4]%float] ]};
     Recording.sample_indices := {[ "EEG"%string := 1 ]} |}.

(** Three samples pulled in one chunk, stamped 97.5, 98 and 98.5. *)
Definition example_chunk : list (list float) :=
  [[1; 1; 1; 1]; [2; 2; 2; 2]; [3; 3; 3; 3]]%float.
Definition example_stamps : list float := [97.5; 98; 98.5]%float.

(** ** The three streams of the sink *)

Inductive modality : Type := EEG | ACC | GYRO.

(** The module constant the stream's push method reads. *)
Definition nominal_rate (m : modality) : Z :=
  match m with
  | EEG => Constants.EEG_SAMPLE_RATE
  | ACC => Constants.ACC_SAMPLE_RATE
  | GYRO => Constants.GYRO_SAMPLE_RATE
  end.

(** The channel count the stream of [m] is declared with in
    [create_streams]. *)
Definition channel_count (m : modality) : nat :=
  match m with
  | EEG => Constants.EEG_CHANNEL_COUNT
  | ACC => Constants.ACC_CHANNEL_COUNT
  | GYRO => Constants.GYRO_CHANNEL_COUNT
  end.

Definition push_chunk (m : modality)
    : list (list Q) → option Q → Q → M LSL.MuseLSLStreamer unit :=
  match m with
  | EEG => LSL.push_eeg_chunk
  | ACC => LSL.push_acc_chunk
  | GYRO => LSL.push_gyro_chunk
  end.

Definition outlet_of (m : modality) (l : LSL.MuseLSLStreamer) : option LSL.StreamOutlet :=
  match m with
  | EEG => LSL.eeg_outlet l
  | ACC => LSL.acc_outlet l
  | GYRO => LSL.gyro_outlet l
  end.

(** The streamer [l] with the outlet of [m] holding the samples [o]. *)
Definition with_outlet (m : modality) (o : LSL.StreamOutlet) (l : LSL.MuseLSLStreamer)
    : LSL.MuseLSLStreamer :=
  match m with
  | EEG => {| LSL.eeg_outlet := Some o; LSL.acc_outlet := LSL.acc_outlet l;
              LSL.gyro_outlet := LSL.gyro_outlet l;
              LSL._streams_created := LSL._streams_created l |}
  | ACC => {| LSL.eeg_outlet := LSL.eeg_outlet l; LSL.acc_outlet := Some o;
              LSL.gyro_outlet := LSL.gyro_outlet l;
              LSL._streams_created := LSL._streams_created l |}
  | GYRO => {| LSL.eeg_outlet := LSL.eeg_outlet l; LSL.acc_outlet := LSL.acc_outlet l;
               LSL.gyro_outlet := Some o;
               LSL._streams_created := LSL._streams_created l |}
  end.

(** * More of the package

    The functions below complete the five modules above: the rest of
    [muse_parser.py], [muse_lsl_streamer.py] and [muse_bluetooth.py], the
    start of the streamer, the stream discovery of [lsl_utils.py] and the
    play detection of [spotify_client.py]. *)

(** ** muse_parser.py: the convenience functions *)

Module ParserMore.
Import Parser.

Definition parse_eeg_samples_only (data : list Byte.byte) : result (list Q) :=
  (let* r := parse_eeg_packet data in Ok (snd r))%res.

Definition parse_acc_samples_only (data : list Byte.byte) : result (list (list Q)) :=
  (let* r := parse_acc_packet data in Ok (snd r))%res.

Definition parse_gyro_samples_only (data : list Byte.byte) : result (list (list Q)) :=
  (let* r := parse_gyro_packet data in Ok (snd r))%res.

End ParserMore.

(** ** muse_lsl_streamer.py: [is_ready] *)

Module LSLMore.

(** [x is not None] *)
Definition is_not_None {A} (o : option A) : bool :=
  match o with Some _ => true | None => false end.

Definition is_ready (l : LSL.MuseLSLStreamer) : bool :=
  LSL._streams_created l
  && is_not_None (LSL.eeg_outlet l)
  && is_not_None (LSL.acc_outlet l)
  && is_not_None (LSL.gyro_outlet l).

End LSLMore.

(** ** muse_bluetooth.py: connecting, subscribing, starting, keep-alive *)

Module BLEMore.
Import Constants BLE.

Definition CMD_PRESET_P21 : list Byte.byte :=
  [Byte.x04; Byte.x70; Byte.x32; Byte.x31; Byte.x0a].
Definition CMD_START_STREAM : list Byte.byte := [Byte.x02; Byte.x64; Byte.x0a].
Definition CMD_KEEP_ALIVE : list Byte.byte := [Byte.x02; Byte.x6b; Byte.x0a].

(** [connect].  The world decides two things: [scan] is what
    [BleakScanner.find_device_by_filter] gives (it may raise; [None] is
    no device; a device is given as the [BleakClient] that is built for
    it), and [handshake] is what [client.connect()] does: it raises, or
    it returns and [client.is_connected] then reads as the boolean. *)
Definition connect (scan : result (option BleakClient)) (handshake : result bool)
    : M MuseBLEClient bool :=
  fun s =>
    if _connected s then (Ok true, s)
    else
      match scan with
      | Raise e => (Raise e, s)
      | Ok None => (Ok false, s)
      | Ok (Some device_client) =>
          let s1 := {| client := Some device_client; _connected := _connected s;
                       _streaming := _streaming s |} in
          match handshake with
          | Raise _ => (Ok false, s1)
          | Ok false => (Ok false, s1)
          | Ok true => (Ok true, set_flags true (_streaming s1) s1)
          end
      end.

(** [subscribe_to_sensors].  [eeg_callbacks] lists the keys of the
    dictionary of that name; which function is registered for a
    characteristic is not modelled. *)
Definition subscribe_to_sensors (eeg_callbacks : list string) : M MuseBLEClient bool :=
  fun s =>
    match _connected s, client s with
    | true, Some _ =>
        try_except
          (for_each eeg_uuids
             (fun p : string * string =>
                let (channel_name, uuid) := p in
                if bool_decide (channel_name ∈ eeg_callbacks)
                then client_call (StartNotify uuid)
                else ret tt) ;;
           client_call (StartNotify ACCELEROMETER_UUID) ;;
           client_call (StartNotify GYROSCOPE_UUID) ;;
           ret true)%M
          (fun _ => ret false) s
    | _, _ => (Raise RuntimeError, s)
    end.

Definition start_streaming : M MuseBLEClient bool :=
  fun s =>
    match _connected s, client s with
    | true, Some _ =>
        if _streaming s then (Ok true, s)
        else
          try_except
            (client_call (WriteGattChar CONTROL_UUID CMD_PRESET_P21) ;;
             client_call (WriteGattChar CONTROL_UUID CMD_START_STREAM) ;;
             modify (fun s => set_flags (_connected s) true s) ;;
             ret true)%M
            (fun _ => ret false) s
    | _, _ => (Raise RuntimeError, s)
    end.

Definition keep_alive : M MuseBLEClient unit :=
  fun s =>
    match _connected s, client s with
    | true, Some _ =>
        try_except (client_call (WriteGattChar CONTROL_UUID CMD_KEEP_ALIVE))
          (fun _ => ret tt) s
    | _, _ => (Ok tt, s)
    end.

Definition is_streaming (s : MuseBLEClient) : bool := _streaming s.

End BLEMore.

(** ** custom_muse_streamer.py: [start] *)

Module StreamerMore.
Import Constants Streamer.

(** [start].  [scan] and [handshake] are those of [BLEMore.connect];
    [asyncio.create_task] leaves a pending keep-alive task. *)
Definition start (scan : result (option BLE.BleakClient)) (handshake : result bool)
    : M CustomMuseStreamer bool :=
  fun s =>
    if _running s then (Ok true, s)
    else
      (do connected <- zoom ble_client set_ble_client (BLEMore.connect scan handshake);
       if negb connected then ret false
       else
         zoom lsl_streamer set_lsl_streamer LSL.create_streams ;;
         do subscribed <- zoom ble_client set_ble_client
                            (BLEMore.subscribe_to_sensors ["TP9"; "AF7"; "AF8"; "TP10"]%string);
         if negb subscribed then
           zoom ble_client set_ble_client BLE.disconnect ;; ret false
         else
           do streaming <- zoom ble_client set_ble_client BLEMore.start_streaming;
           if negb streaming then
             zoom ble_client set_ble_client BLE.disconnect ;; ret false
           else
             modify (set_running true) ;;
             modify (set_keep_alive_task (Some TaskPending)) ;;
             ret true)%M s.

Definition is_running (s : CustomMuseStreamer) : bool := _running s.

End StreamerMore.

(** ** lsl_utils.py: [wait_for_lsl_streams] *)

Module Discovery.

(** What the loop reads of a [pylsl.StreamInfo]: its type, and a name
    that tells two streams of one type apart.  The [StreamInlet] opened
    for a stream is identified with the stream. *)
Record StreamInfo : Type := mkInfo {
  info_type : string;
  info_name : string
}.

(** The [for info in all_streams] loop of one iteration. *)
Definition scan_streams (lsl_types : list string) (all_streams : list StreamInfo)
    (found : gmap string StreamInfo) : gmap string StreamInfo :=
  fold_left
    (fun found info =>
       let stype := info_type info in
       if bool_decide (stype ∈ lsl_types) && negb (bool_decide (is_Some (found !! stype)))
       then <[stype := info]> found
       else found)
    all_streams found.

(** The [while] loop.  [rounds] lists what [resolve_streams()] returns in
    each iteration the timeout leaves room for; the loop ends before
    them once [len(found) < len(lsl_types)] fails. *)
Fixpoint wait_loop (lsl_types : list string) (rounds : list (list StreamInfo))
    (found : gmap string StreamInfo) : gmap string StreamInfo :=
  match rounds with
  | [] => found
  | all_streams :: rest =>
      if (size found <? length lsl_types)%nat then
        wait_loop lsl_types rest (scan_streams lsl_types all_streams found)
      else found
  end.

Definition wait_for_lsl_streams (lsl_types : list string)
    (rounds : list (list StreamInfo)) : result (gmap string StreamInfo) :=
  let found := wait_loop lsl_types rounds ∅ in
  match found !! "EEG"%string with
  | None => Raise RuntimeError
  | Some _ => Ok found
  end.

End Discovery.

(** ** spotify_client.py: [wait_for_spotify_play] *)

Module Spotify.

(** The fields the loop reads of [playback["item"]] and of [playback]. *)
Record item : Type := mkItem {
  item_id : string;
  item_name : string;
  item_artists : list string;
  item_album : string;
  item_duration_ms : Z
}.

Record playback : Type := mkPlayback {
  pb_item : option item;
  pb_is_playing : bool;
  pb_progress_ms : option Z
}.

(** [SpotifyTrackInfo] with all its fields. *)
Record TrackInfo : Type := mkTrackInfo {
  track_id : string;
  track_name : string;
  artist_name : string;
  album_name : string;
  duration_ms : Z;
  started_at_unix : float;
  started_at_lsl : float;
  playback_position_ms : Z
}.

(** One iteration observes [get_playback(sp)] ([None] also when the API
    raised), then [local_clock()] and [time.time()]. *)
Record poll : Type := mkPoll {
  poll_playback : option playback;
  now_lsl : float;
  now_unix : float
}.

(** [last_track_id and track_id != last_track_id]: [None] and the empty
    string are both false. *)
Definition track_changed (last_track_id : option string) (track_id : string) : bool :=
  match last_track_id with
  | None => false
  | Some last =>
      negb (bool_decide (last = ""%string)) && negb (bool_decide (track_id = last))
  end.

(** The [while True] loop over the polls made so far: [Some] track info
    when the function has returned, [None] while it is still waiting. *)
Fixpoint wait_loop (polls : list poll) (last_track_id : option string)
    (last_is_playing : bool) : option TrackInfo :=
  match polls with
  | [] => None
  | p :: rest =>
      match poll_playback p with
      | Some pb =>
          match pb_item pb with
          | Some it =>
              let is_playing := pb_is_playing pb in
              let track_id := item_id it in
              let artists := String.concat ", " (item_artists it) in
              let progress_ms := default 0 (pb_progress_ms pb) in
              let play_started :=
                if negb last_is_playing && is_playing then true
                else if is_playing && track_changed last_track_id track_id then true
                else false in
              if play_started then
                Some {| track_id := track_id; track_name := item_name it;
                        artist_name := artists; album_name := item_album it;
                        duration_ms := item_duration_ms it;
                        started_at_unix := now_unix p; started_at_lsl := now_lsl p;
                        playback_position_ms := progress_ms |}
              else wait_loop rest (Some track_id) is_playing
          | None => wait_loop rest last_track_id last_is_playing
          end
      | None => wait_loop rest last_track_id last_is_playing
      end
  end.

Definition wait_for_spotify_play (polls : list poll) : option TrackInfo :=
  wait_loop polls None false.

End Spotify.

(** * Definitions used to state further properties *)

(** ** Notifications *)

(** A notification of one of the six subscribed characteristics, with
    its payload and the clock reading during its callback. *)
Inductive notification : Type :=
| notify_tp9 (data : list Byte.byte) (clock : Q)
| notify_af7 (data : list Byte.byte) (clock : Q)
| notify_af8 (data : list Byte.byte) (clock : Q)
| notify_tp10 (data : list Byte.byte) (clock : Q)
| notify_acc (data : list Byte.byte) (clock : Q)
| notify_gyro (data : list Byte.byte) (clock : Q).

(** The callback that [start] registers for it. *)
Definition deliver (n : notification) : M CustomMuseStreamer unit :=
  match n with
  | notify_tp9 data clock => _on_eeg_tp9_data data clock
  | notify_af7 data clock => _on_eeg_af7_data data clock
  | notify_af8 data clock => _on_eeg_af8_data data clock
  | notify_tp10 data clock => _on_eeg_tp10_data data clock
  | notify_acc data clock => _on_acc_data data clock
  | notify_gyro data clock => _on_gyro_data data clock
  end.

Definition deliver_all (l : list notification) (s : CustomMuseStreamer) : CustomMuseStreamer :=
  fold_left (fun s n => snd (deliver n s)) l s.

(** ** The shape of the pending-frame table *)

(** A pending frame holds only the four channel names, 12 samples each. *)
Definition frame_ok (frame : gmap string (list Q)) : Prop :=
  ∀ ch x, frame !! ch = Some x → ch ∈ Constants.EEG_CHANNEL_NAMES ∧ length x = 12%nat.

(** Every pending frame has a first-arrival stamp and the other way
    round, and every pending frame is well shaped. *)
Definition table_ok (s : CustomMuseStreamer) : Prop :=
  (∀ i, is_Some (_eeg_timestamps s !! i) ↔ is_Some (_eeg_buffer s !! i))
  ∧ (∀ i frame, _eeg_buffer s !! i = Some frame → frame_ok frame).

(** The EEG outlet can take a push. *)
Definition eeg_ready (s : CustomMuseStreamer) : bool :=
  LSL._streams_created (lsl_streamer s) && LSLMore.is_not_None (LSL.eeg_outlet (lsl_streamer s)).

(** The pending frames of [s] all lack the channel [ch0]. *)
Definition lacks (ch0 : string) (s : CustomMuseStreamer) : Prop :=
  ∀ i frame, _eeg_buffer s !! i = Some frame → frame !! ch0 = None.

(** ** What a method leaves alone *)

(** The method [m] never changes the part [f] of the state, whether it
    returns or raises. *)
Definition keeps {S X A} (f : S → X) (m : M S A) : Prop :=
  ∀ s, f (snd (m s)) = f s.

(** ** Packet counters *)

(** The key of [_packet_counts] that the callback of a notification
    increments. *)
Definition counter_of (n : notification) : string :=
  match n with
  | notify_tp9 _ _ => "TP9"
  | notify_af7 _ _ => "AF7"
  | notify_af8 _ _ => "AF8"
  | notify_tp10 _ _ => "TP10"
  | notify_acc _ _ => "ACC"
  | notify_gyro _ _ => "GYRO"
  end.

(** How many notifications of [l] belong to the counter [key]. *)
Definition notified (key : string) (l : list notification) : Z :=
  Z.of_nat (length (List.filter (fun n => bool_decide (counter_of n = key)) l)).

Definition payload (n : notification) : list Byte.byte :=
  match n with
  | notify_tp9 data _ | notify_af7 data _ | notify_af8 data _
  | notify_tp10 data _ | notify_acc data _ | notify_gyro data _ => data
  end.

Definition clock_of (n : notification) : Q :=
  match n with
  | notify_tp9 _ clock | notify_af7 _ clock | notify_af8 _ clock
  | notify_tp10 _ clock | notify_acc _ clock | notify_gyro _ clock => clock
  end.

(** ** Sequences of calls on the sink *)

(** A call a client can make on a [MuseLSLStreamer]. *)
Inductive lsl_call : Type :=
| CreateStreams
| CloseStreams
| PushChunk (m : modality) (samples : list (list Q)) (timestamp : option Q) (clock : Q).

Definition run_call (c : lsl_call) : M LSL.MuseLSLStreamer unit :=
  match c with
  | CreateStreams => LSL.create_streams
  | CloseStreams => LSL.close_streams
  | PushChunk m samples timestamp clock => push_chunk m samples timestamp clock
  end.

(** The sink after the calls [l], an exception of one call being left
    to its caller. *)
Definition run_calls (l : list lsl_call) (s : LSL.MuseLSLStreamer) : LSL.MuseLSLStreamer :=
  fold_left (fun s c => snd (run_call c s)) l s.

(** ** Sequences of calls on the radio stack *)

(** The calls [calls] made one after the other on a [BleakClient] with
    fault oracle [f] and history [h], up to and including the first one
    that raises: the history afterwards, and whether all returned. *)
Fixpoint attempt (f : list BLE.ble_call → BLE.ble_call → bool) (h : list BLE.ble_call)
    (calls : list BLE.ble_call) : list BLE.ble_call * bool :=
  match calls with
  | [] => (h, true)
  | c :: rest => if f h c then (h ++ [c], false) else attempt f (h ++ [c]) rest
  end.

(** The subscriptions [subscribe_to_sensors] asks for, in its order. *)
Definition subscriptions (eeg_callbacks : list string) : list BLE.ble_call :=
  List.map (fun p : string * string => BLE.StartNotify (snd p))
    (List.filter (fun p : string * string => bool_decide (fst p ∈ eeg_callbacks))
       BLE.eeg_uuids)
  ++ [BLE.StartNotify Constants.ACCELEROMETER_UUID; BLE.StartNotify Constants.GYROSCOPE_UUID].

(** The first step of [disconnect] on a connected client: the history
    after [stop_streaming] (called only when streaming), and whether the
    client is still marked as streaming then. *)
Definition after_stop (f : list BLE.ble_call → BLE.ble_call → bool) (h : list BLE.ble_call)
    (streaming : bool) : list BLE.ble_call * bool :=
  if streaming then
    (h ++ [BLE.WriteGattChar Constants.CONTROL_UUID BLE.CMD_STOP_STREAM],
     f h (BLE.WriteGattChar Constants.CONTROL_UUID BLE.CMD_STOP_STREAM))
  else (h, false).

(** The history when [disconnect] reaches [client.disconnect()]: the
    four EEG unsubscriptions are all made, the gyroscope one only if the
    accelerometer one returned. *)
Definition before_close (f : list BLE.ble_call → BLE.ble_call → bool) (h : list BLE.ble_call)
    (streaming : bool) : list BLE.ble_call :=
  fst (attempt f
         (fst (after_stop f h streaming)
          ++ List.map BLE.StopNotify (List.map snd BLE.eeg_uuids))
         [BLE.StopNotify Constants.ACCELEROMETER_UUID;
          BLE.StopNotify Constants.GYROSCOPE_UUID]).

(** The calls [start] makes on the radio stack once the link is up:
    the six subscriptions, then the two control writes. *)
Definition start_calls : list BLE.ble_call :=
  subscriptions Constants.EEG_CHANNEL_NAMES
  ++ [BLE.WriteGattChar Constants.CONTROL_UUID BLEMore.CMD_PRESET_P21;
      BLE.WriteGattChar Constants.CONTROL_UUID BLEMore.CMD_START_STREAM].

(** The streamer with its outlets created. *)
Definition with_streams (s : CustomMuseStreamer) : CustomMuseStreamer :=
  set_lsl_streamer (snd (LSL.create_streams (lsl_streamer s))) s.

(** A radio stack on which the subscription to the gyroscope raises and
    nothing else does. *)
Definition gyro_subscription_faults (h : list BLE.ble_call) (c : BLE.ble_call) : bool :=
  match c with
  | BLE.StartNotify uuid => String.eqb uuid Constants.GYROSCOPE_UUID
  | _ => false
  end.

(** ** Decoding *)

(** [example_eeg_packet] with its last bit set. *)
Definition example_eeg_packet_last_bit : list Byte.byte :=
  [Byte.x12; Byte.x34; Byte.x80; Byte.x08; Byte.x00; Byte.xff; Byte.xf0; Byte.x01;
   Byte.x00; Byte.x00; Byte.x00; Byte.x00; Byte.x00; Byte.x00; Byte.x00; Byte.x00;
   Byte.x00; Byte.x00; Byte.x00; Byte.x01].

(** ** Recording *)

(** The samples of stream [k] among the pulls, in the order pulled, each
    with its timestamp. *)
Definition samples_of (k : string)
    (pulls : list (string * (list (list float) * list float)))
    : list (list float * float) :=
  flat_map
    (fun p : string * (list (list float) * list float) =>
       if bool_decide (fst p = k) then combine (fst (snd p)) (snd (snd p)) else [])
    pulls.

(** Pulls of two streams with the reference event at local clock 3:
    the first EEG sample is stamped [1 - 2^-53], so that its
    [rel_t] rounds to [-2]; the ACC sample is stamped 0.5. *)
Definition example_pulls : list (string * (list (list float) * list float)) :=
  [("EEG"%string, ([[1; 1; 1; 1]; [2; 2; 2; 2]]%float, [0x1.fffffffffffffp-1; 1.5]%float));
   ("ACC"%string, ([[5; 6; 7]]%float, [0.5]%float));
   ("EEG"%string, ([], []));
   ("EEG"%string, ([[3; 3; 3; 3]]%float, [4]%float))].

(** ** Play detection *)

(** The poll shows a track that is playing. *)
Definition playing (p : Spotify.poll) : bool :=
  match Spotify.poll_playback p with
  | Some pb => LSLMore.is_not_None (Spotify.pb_item pb) && Spotify.pb_is_playing pb
  | None => false
  end.

(** The track info built from a poll that shows a track. *)
Definition track_info_of (p : Spotify.poll) : option Spotify.TrackInfo :=
  match Spotify.poll_playback p with
  | Some pb =>
      match Spotify.pb_item pb with
      | Some it =>
          Some (Spotify.mkTrackInfo (Spotify.item_id it) (Spotify.item_name it)
                  (String.concat ", " (Spotify.item_artists it)) (Spotify.item_album it)
                  (Spotify.item_duration_ms it) (Spotify.now_unix p) (Spotify.now_lsl p)
                  (default 0 (Spotify.pb_progress_ms pb)))
      | None => None
      end
  | None => None
  end.

(** ** The outlets over a run *)

(** From [l] to [l'] every outlet that existed has only been appended
    to, with samples of the stream's channel count. *)
Definition outlets_grow (l l' : LSL.MuseLSLStreamer) : Prop :=
  ∀ m o, outlet_of m l = Some o →
    ∃ new, outlet_of m l' = Some (o ++ new)
           ∧ Forall (fun r : list Q * Q => length (fst r) = channel_count m) new.

(** ** From notifications to frames *)

(** The sample an EEG notification hands to [_process_eeg_packet]: the
    channel of its characteristic, the decoded sequence index and
    samples, the clock reading of its callback. *)
Definition arrival_of (n : notification) : option eeg_arrival :=
  if bool_decide (counter_of n ∈ Constants.EEG_CHANNEL_NAMES) then
    match parse_eeg_packet (payload n) with
    | Ok r => Some (mkArrival (counter_of n) (fst r) (snd r) (clock_of n))
    | Raise _ => None
    end
  else None.

(** The streamer without its packet counters. *)
Definition core (s : CustomMuseStreamer) : CustomMuseStreamer := set_packet_counts ∅ s.

(** * Properties *)

#[local] Arguments size : simpl never.
#[local] Arguments column_stack : simpl never.
#[local] Arguments LSL.push_chunk_to : simpl never.
#[local] Arguments published_frame : simpl never.
#[local] Arguments frame_rows : simpl never.
#[local] Arguments Constants.EEG_SAMPLE_RATE : simpl never.
#[local] Arguments full_frame : simpl never.

(** ** Decoding: the bit reader against the wire layout *)

Lemma uint_fold (bs : list bool) : ∀ acc,
  fold_left (fun acc b => 2 * acc + Z.b2z b) bs acc = acc * 2 ^ Z.of_nat (length bs) + uint bs.
Proof.
  unfold uint. induction bs as [|b bs IH]; intros acc.
  - simpl. lia.
  - cbn [fold_left length]. rewrite IH, (IH (2 * 0 + Z.b2z b)).
    rewrite Nat2Z.inj_succ, Z.pow_succ_r by lia. ring.
Qed.

Lemma uint_cons b bs : uint (b :: bs) = Z.b2z b * 2 ^ Z.of_nat (length bs) + uint bs.
Proof. unfold uint at 1. cbn [fold_left]. rewrite uint_fold. ring. Qed.

Lemma uint_bound bs : 0 ≤ uint bs < 2 ^ Z.of_nat (length bs).
Proof.
  induction bs as [|b bs IH].
  - compute. split; [discriminate | reflexivity].
  - rewrite uint_cons. cbn [length]. rewrite Nat2Z.inj_succ, Z.pow_succ_r by lia.
    destruct b; cbn [Z.b2z]; lia.
Qed.

Lemma uint_app a b : uint (a ++ b) = uint a * 2 ^ Z.of_nat (length b) + uint b.
Proof.
  induction a as [|x a IH].
  - simpl. change (uint []) with 0. lia.
  - cbn [app]. rewrite !uint_cons, IH, length_app, Nat2Z.inj_add, Z.pow_add_r by lia. ring.
Qed.

Lemma length_bits_of_byte b : length (bits_of_byte b) = 8%nat.
Proof. reflexivity. Qed.

Lemma uint_bits_of_byte b : uint (bits_of_byte b) = byte_Z b.
Proof. destruct b; reflexivity. Qed.

Lemma length_Bits data : length (Bits data) = (8 * length data)%nat.
Proof.
  unfold Bits. induction data as [|b data IH]; [reflexivity|].
  cbn [flat_map]. rewrite length_app, IH, length_bits_of_byte. cbn [length]. lia.
Qed.

Lemma packet_value_fold data : ∀ acc,
  fold_left (fun acc b => 256 * acc + Z.of_N (Byte.to_N b)) data acc
  = acc * 2 ^ Z.of_nat (8 * length data) + packet_value data.
Proof.
  unfold packet_value. induction data as [|b data IH]; intros acc.
  - simpl. lia.
  - cbn [fold_left length]. rewrite IH, (IH (256 * 0 + Z.of_N (Byte.to_N b))).
    replace (Z.of_nat (8 * S (length data))) with (8 + Z.of_nat (8 * length data)) by lia.
    rewrite Z.pow_add_r by lia. change (2 ^ 8) with 256. ring.
Qed.

Lemma uint_Bits data : uint (Bits data) = packet_value data.
Proof.
  induction data as [|b data IH]; [reflexivity|].
  unfold Bits in *. cbn [flat_map]. rewrite uint_app, IH, uint_bits_of_byte.
  fold (Bits data). rewrite length_Bits.
  unfold packet_value at 2. cbn [fold_left]. rewrite packet_value_fold.
  unfold byte_Z. ring.
Qed.

Lemma uint_slice bits off w :
  (off + w ≤ length bits)%nat →
  uint (firstn w (skipn off bits))
  = (uint bits / 2 ^ Z.of_nat (length bits - off - w)) mod 2 ^ Z.of_nat w.
Proof.
  intros Hle.
  rewrite <- (take_drop off bits) at 2.
  rewrite <- (take_drop w (drop off bits)) at 2.
  rewrite !uint_app.
  assert (Hc : length (drop w (drop off bits)) = (length bits - off - w)%nat)
    by (rewrite !length_drop; lia).
  assert (Hb : length (take w (drop off bits)) = w)
    by (rewrite length_take, length_drop; lia).
  rewrite length_app, Hc, Hb.
  pose proof (uint_bound (drop w (drop off bits))) as B1. rewrite Hc in B1.
  pose proof (uint_bound (take w (drop off bits))) as B2. rewrite Hb in B2.
  set (C := uint (drop w (drop off bits))) in *.
  set (B := uint (take w (drop off bits))) in *.
  set (A := uint (take off bits)).
  set (c := Z.of_nat (length bits - off - w)) in *.
  rewrite Nat2Z.inj_add, Z.pow_add_r by lia. fold c.
  replace (A * (2 ^ Z.of_nat w * 2 ^ c) + (B * 2 ^ c + C))
    with ((A * 2 ^ Z.of_nat w + B) * 2 ^ c + C) by ring.
  rewrite Z.div_add_l by lia. rewrite (Z.div_small C) by lia.
  rewrite Z.add_0_r, Z.add_comm, Z.mod_add by lia.
  symmetry. apply Z.mod_small. lia.
Qed.

Lemma int_to_signed bs w :
  length bs = S w → int bs = to_signed (S w) (uint bs).
Proof.
  intros Hl. destruct bs as [|b bs]; [discriminate|].
  cbn [length] in Hl. injection Hl as Hl.
  unfold int, to_signed. rewrite uint_cons. cbn [length]. rewrite Hl.
  pose proof (uint_bound bs) as B. rewrite Hl in B.
  replace (Z.of_nat (S w) - 1) with (Z.of_nat w) by lia.
  destruct b; cbn [Z.b2z].
  - destruct (Z.ltb_spec (1 * 2 ^ Z.of_nat w + uint bs) (2 ^ Z.of_nat w)); [lia|reflexivity].
  - destruct (Z.ltb_spec (0 * 2 ^ Z.of_nat w + uint bs) (2 ^ Z.of_nat w)); [reflexivity|lia].
Qed.

Lemma unpack_fields pattern : ∀ bits off,
  (off + total_width pattern ≤ length bits)%nat →
  unpack pattern (skipn off bits) = Ok (fields_at bits off pattern).
Proof.
  induction pattern as [|t rest IH]; intros bits off Hle; [reflexivity|].
  cbn [unpack fields_at total_width fold_right] in *.
  fold (total_width rest) in Hle.
  rewrite length_drop.
  destruct (Nat.ltb_spec (length bits - off) (width t)) as [Hlt|_]; [lia|].
  rewrite drop_drop, IH by lia. reflexivity.
Qed.

Lemma field_uint data off w :
  length data = 20%nat → (off + w ≤ 160)%nat →
  uint (firstn w (skipn off (Bits data))) = field data off w.
Proof.
  intros Hl Hle. rewrite uint_slice by (rewrite length_Bits; lia).
  rewrite uint_Bits, length_Bits, Hl. reflexivity.
Qed.

Lemma field_int data off w :
  length data = 20%nat → (off + S w ≤ 160)%nat →
  int (firstn (S w) (skipn off (Bits data))) = to_signed (S w) (field data off (S w)).
Proof.
  intros Hl Hle. rewrite (int_to_signed _ w).
  - rewrite field_uint by assumption. reflexivity.
  - rewrite length_take, length_drop, length_Bits. lia.
Qed.

Lemma field_range data off w : 0 ≤ field data off w < 2 ^ Z.of_nat w.
Proof. unfold field. apply Z.mod_pos_bound. lia. Qed.

(** C3. On every 20-byte input the EEG decoder returns the first 16 bits
    as the unsigned sequence index and, for each of the 12 following
    bit-packed 12-bit unsigned fields [raw] (each between 0 and 4095),
    the value [0.48828125 * (raw - 2048)]; a field that holds 2048
    decodes to 0. *)
Theorem parse_eeg_packet_layout (data : list Byte.byte) :
  length data = 20%nat →
  parse_eeg_packet data
  = Ok (layout_sequence_index data,
        List.map (fun k => (0.48828125 * (inject_Z (layout_eeg_raw data k) - 2048))%Q)
          (seq 0 12))
  ∧ 0 ≤ layout_sequence_index data < 65536
  ∧ (∀ k, 0 ≤ layout_eeg_raw data k ≤ 4095)
  ∧ (∀ k idx samples, (k < 12)%nat → layout_eeg_raw data k = 2048 →
       parse_eeg_packet data = Ok (idx, samples) →
       ∃ v, samples !! k = Some v ∧ (v == 0)%Q).
Proof.
  intros Hl.
  assert (Hparse : parse_eeg_packet data
    = Ok (layout_sequence_index data,
          List.map (fun k => (0.48828125 * (inject_Z (layout_eeg_raw data k) - 2048))%Q)
            (seq 0 12))).
  { unfold parse_eeg_packet. rewrite Hl. cbn [Nat.eqb negb].
    change (Bits data) with (skipn 0 (Bits data)).
    rewrite unpack_fields by (rewrite length_Bits, Hl; cbn; lia).
    cbn [rbind eeg_pattern repeat fields_at interp width Nat.add].
    rewrite !field_uint by (assumption || lia).
    reflexivity. }
  split; [exact Hparse|]. split; [|split].
  - apply (field_range data 0 16).
  - intros k. pose proof (field_range data (16 + 12 * k) 12) as H.
    change (2 ^ Z.of_nat 12) with 4096 in H. unfold layout_eeg_raw. lia.
  - intros k idx samples Hk Hraw Hp. rewrite Hparse in Hp. injection Hp as _ <-.
    exists (0.48828125 * (inject_Z 2048 - 2048))%Q. split; [|reflexivity].
    revert Hraw. do 12 (destruct k as [|k]; [intros ->; reflexivity|]). lia.
Qed.

(** C4. On every 20-byte input whose nine signed 16-bit fields after the
    sequence index read [x1, x2, x3, y1, y2, y3, z1, z2, z3], the ACC and
    GYRO decoders return the sequence index and the three rows
    [[x1, y1, z1], [x2, y2, z2], [x3, y3, z3]], each value multiplied by
    0.0000610352 = 6.10352e-5 (ACC) or by 0.0074768 = 7.4768e-3 (GYRO). *)
Theorem parse_imu_packet_column_major (data : list Byte.byte) (x1 x2 x3 y1 y2 y3 z1 z2 z3 : Z) :
  length data = 20%nat →
  List.map (layout_imu_raw data) (seq 0 9) = [x1; x2; x3; y1; y2; y3; z1; z2; z3] →
  parse_acc_packet data
  = Ok (layout_sequence_index data,
        [[inject_Z x1 * 0.0000610352; inject_Z y1 * 0.0000610352; inject_Z z1 * 0.0000610352];
         [inject_Z x2 * 0.0000610352; inject_Z y2 * 0.0000610352; inject_Z z2 * 0.0000610352];
         [inject_Z x3 * 0.0000610352; inject_Z y3 * 0.0000610352; inject_Z z3 * 0.0000610352]]%Q)
  ∧ parse_gyro_packet data
  = Ok (layout_sequence_index data,
        [[inject_Z x1 * 0.0074768; inject_Z y1 * 0.0074768; inject_Z z1 * 0.0074768];
         [inject_Z x2 * 0.0074768; inject_Z y2 * 0.0074768; inject_Z z2 * 0.0074768];
         [inject_Z x3 * 0.0074768; inject_Z y3 * 0.0074768; inject_Z z3 * 0.0074768]]%Q).
Proof.
  intros Hl Hraw.
  cbn [List.map seq] in Hraw. unfold layout_imu_raw in Hraw.
  injection Hraw as <- <- <- <- <- <- <- <- <-.
  unfold parse_acc_packet, parse_gyro_packet. rewrite Hl. cbn [Nat.eqb negb].
  change (Bits data) with (skipn 0 (Bits data)).
  rewrite unpack_fields by (rewrite length_Bits, Hl; cbn; lia).
  cbn [rbind imu_pattern repeat fields_at interp width Nat.add].
  rewrite field_uint by (assumption || lia).
  rewrite !field_int by (assumption || lia).
  split; reflexivity.
Qed.

(** ** One call of [_process_eeg_packet] *)

Lemma set_eta s :
  set_eeg_buffer (_eeg_buffer s) (set_eeg_timestamps (_eeg_timestamps s) s) = s.
Proof. destruct s; reflexivity. Qed.

Lemma evict_spec k s :
  evict k s = (Ok tt, set_eeg_buffer (delete k (_eeg_buffer s))
                        (set_eeg_timestamps (delete k (_eeg_timestamps s)) s)).
Proof.
  unfold evict, bind, modify, get, ret. cbn.
  destruct (_eeg_timestamps s !! k) eqn:E; cbn.
  - reflexivity.
  - rewrite (delete_id _ _ E). destruct s; reflexivity.
Qed.

Lemma for_each_evict l : ∀ s,
  for_each l evict s
  = (Ok tt, set_eeg_buffer (remove_all l (_eeg_buffer s))
              (set_eeg_timestamps (remove_all l (_eeg_timestamps s)) s)).
Proof.
  induction l as [|k l IH]; intros s.
  - cbn. rewrite set_eta. reflexivity.
  - cbn [for_each]. unfold bind at 1. rewrite evict_spec, IH. reflexivity.
Qed.

Lemma lookup_remove_all {V} (l : list Z) : ∀ (m : gmap Z V) k,
  remove_all l m !! k = if decide (k ∈ l) then None else m !! k.
Proof.
  induction l as [|x l IH]; intros m k.
  - cbn. rewrite decide_False by apply not_elem_of_nil. reflexivity.
  - change (remove_all (x :: l) m) with (remove_all l (delete x m)).
    rewrite IH. destruct (decide (k ∈ l)) as [Hin|Hnin].
    + rewrite decide_True by (apply elem_of_cons; right; exact Hin). reflexivity.
    + destruct (decide (k = x)) as [->|Hne].
      * rewrite decide_True by (apply elem_of_cons; left; reflexivity).
        apply lookup_delete_eq.
      * rewrite decide_False by (rewrite elem_of_cons; tauto).
        apply lookup_delete_ne. congruence.
Qed.

Lemma column_stack_4 (tp9 af7 af8 tp10 : list Q) :
  length tp9 = 12%nat → length af7 = 12%nat → length af8 = 12%nat → length tp10 = 12%nat →
  column_stack [tp9; af7; af8; tp10] = Ok (frame_rows tp9 af7 af8 tp10).
Proof.
  intros H1 H2 H3 H4. unfold column_stack. cbn [forallb].
  rewrite H1, H2, H3, H4. reflexivity.
Qed.

Lemma push_frame (tp9 af7 af8 tp10 : list Q) (t : Q) (o : LSL.StreamOutlet) :
  LSL.push_chunk_to Constants.EEG_CHANNEL_COUNT Constants.EEG_SAMPLE_RATE
    (frame_rows tp9 af7 af8 tp10) t o
  = (Ok tt, o ++ published_frame tp9 af7 af8 tp10 t).
Proof.
  unfold LSL.push_chunk_to, LSL.push_interpolated, published_frame, frame_rows.
  cbn [seq List.map length Nat.ltb Nat.leb combine for_each].
  unfold bind, LSL.push_sample, ret.
  cbn [length Nat.eqb Constants.EEG_CHANNEL_COUNT].
  rewrite <- !app_assoc. reflexivity.
Qed.

Lemma process_incomplete channel i samples clock s :
  size (<[channel := samples]> (default ∅ (_eeg_buffer s !! i))) ≠ 4%nat →
  _process_eeg_packet channel i samples clock s = (Ok tt, store channel i samples clock s).
Proof.
  intros Hsz. unfold _process_eeg_packet, store, bind, get, modify, getitem, ret, raise.
  destruct (_eeg_buffer s !! i) as [frame0|] eqn:E; cbn.
  - rewrite E. cbn. rewrite lookup_insert_eq. cbn.
    cbn in Hsz. apply Nat.eqb_neq in Hsz. rewrite Hsz. reflexivity.
  - rewrite lookup_insert_eq. cbn. rewrite insert_insert_eq, lookup_insert_eq. cbn.
    cbn in Hsz. apply Nat.eqb_neq in Hsz. rewrite Hsz. reflexivity.
Qed.

Lemma retain_spec s :
  (if (10 <? size (_eeg_buffer s))%nat
   then for_each (all_but_last_10 (sorted_keys (_eeg_buffer s))) evict
   else ret tt) s = (Ok tt, retain s).
Proof.
  unfold retain. destruct (10 <? size (_eeg_buffer s))%nat.
  - apply for_each_evict.
  - reflexivity.
Qed.

Lemma process_complete channel i samples clock s o tp9 af7 af8 tp10 t :
  let frame := <[channel := samples]> (default ∅ (_eeg_buffer s !! i)) in
  streams_ready s o →
  size frame = 4%nat →
  frame !! "TP9"%string = Some tp9 → frame !! "AF7"%string = Some af7 →
  frame !! "AF8"%string = Some af8 → frame !! "TP10"%string = Some tp10 →
  length tp9 = 12%nat → length af7 = 12%nat → length af8 = 12%nat → length tp10 = 12%nat →
  _eeg_timestamps (store channel i samples clock s) !! i = Some t →
  _process_eeg_packet channel i samples clock s
  = (Ok tt, retain (publish (published_frame tp9 af7 af8 tp10 t)
                      (store channel i samples clock s))).
Proof.
  intros frame [Hc Ho] Hsz H9 H7 H8 H10 L9 L7 L8 L10 Ht.
  assert (Hstore : _eeg_buffer (store channel i samples clock s) !! i = Some frame).
  { unfold store. cbn. apply lookup_insert_eq. }
  unfold _process_eeg_packet.
  unfold bind at 1. unfold get at 1. cbn beta iota.
  unfold bind at 1.
  assert (Hfirst :
    match _eeg_buffer s !! i with
    | Some _ => ret tt
    | None =>
        (modify (λ s0, set_eeg_buffer (<[i:=∅]> (_eeg_buffer s0)) s0);;
         modify (λ s0, set_eeg_timestamps (<[i:=clock]> (_eeg_timestamps s0)) s0))%M
    end s
    = (Ok tt, set_eeg_buffer (<[i := default ∅ (_eeg_buffer s !! i)]> (_eeg_buffer s))
                (set_eeg_timestamps
                   (match _eeg_buffer s !! i with
                    | None => <[i := clock]> (_eeg_timestamps s)
                    | Some _ => _eeg_timestamps s
                    end) s))).
  { destruct (_eeg_buffer s !! i) eqn:E; cbn.
    - rewrite insert_id by exact E. unfold ret. rewrite set_eta. reflexivity.
    - reflexivity. }
  rewrite Hfirst. clear Hfirst.
  unfold bind, get, modify, getitem, ret, raise. cbn.
  rewrite lookup_insert_eq. cbn. rewrite insert_insert_eq, lookup_insert_eq. cbn.
  fold frame. rewrite Hsz. cbn. rewrite H9, H7, H8, H10. cbn.
  unfold lift_result. rewrite column_stack_4 by assumption.
  unfold store in Ht. cbn in Ht. rewrite Ht.
  unfold zoom, LSL.push_eeg_chunk. cbn. rewrite Hc, Ho, push_frame.
  match goal with |- (if ?c then _ else _) ?st = _ => 
    change ((if (10 <? size (_eeg_buffer st))%nat
             then for_each (all_but_last_10 (sorted_keys (_eeg_buffer st))) evict
             else ret tt) st = 
           (Ok tt, retain (publish (published_frame tp9 af7 af8 tp10 t) (store channel i samples clock s))))
  end.
  rewrite retain_spec. f_equal. f_equal.
  unfold publish, store, set_lsl_streamer, set_eeg_buffer, set_eeg_timestamps. cbn.
  rewrite Ho, Hc. reflexivity.
Qed.

Lemma store_first c i x clock s0 :
  _eeg_buffer s0 !! i = None →
  store c i x clock s0 = pending s0 i {[c := x]} clock.
Proof. intros E. unfold store, pending. rewrite E. reflexivity. Qed.

Lemma store_next c i x clock s0 frame t :
  store c i x clock (pending s0 i frame t) = pending s0 i (<[c := x]> frame) t.
Proof.
  unfold store, pending. cbn. rewrite lookup_insert_eq. cbn.
  rewrite insert_insert_eq. reflexivity.
Qed.

Lemma feed_first a s0 :
  _eeg_buffer s0 !! arr_index a = None →
  feed a s0 = pending s0 (arr_index a) {[arr_channel a := arr_samples a]} (arr_clock a).
Proof.
  intros E. unfold feed. rewrite process_incomplete.
  - cbn. apply store_first, E.
  - rewrite E. cbn. rewrite insert_empty, map_size_singleton. discriminate.
Qed.

Lemma feed_next a s0 frame t :
  size (<[arr_channel a := arr_samples a]> frame) ≠ 4%nat →
  feed a (pending s0 (arr_index a) frame t)
  = pending s0 (arr_index a) (<[arr_channel a := arr_samples a]> frame) t.
Proof.
  intros Hsz. unfold feed. rewrite process_incomplete.
  - cbn. apply store_next.
  - unfold pending. cbn. rewrite lookup_insert_eq. exact Hsz.
Qed.

Lemma feed_last a s0 frame t o tp9 af7 af8 tp10 :
  let frame' := <[arr_channel a := arr_samples a]> frame in
  streams_ready s0 o →
  size frame' = 4%nat →
  frame' !! "TP9"%string = Some tp9 → frame' !! "AF7"%string = Some af7 →
  frame' !! "AF8"%string = Some af8 → frame' !! "TP10"%string = Some tp10 →
  length tp9 = 12%nat → length af7 = 12%nat → length af8 = 12%nat → length tp10 = 12%nat →
  _process_eeg_packet (arr_channel a) (arr_index a) (arr_samples a) (arr_clock a)
    (pending s0 (arr_index a) frame t)
  = (Ok tt, retain (publish (published_frame tp9 af7 af8 tp10 t)
                      (pending s0 (arr_index a) frame' t))).
Proof.
  intros frame' Hr Hsz H9 H7 H8 H10 L9 L7 L8 L10.
  rewrite (process_complete _ _ _ _ _ o tp9 af7 af8 tp10 t).
  - rewrite store_next. reflexivity.
  - exact Hr.
  - unfold pending. cbn. rewrite lookup_insert_eq. exact Hsz.
  - unfold pending. cbn. rewrite lookup_insert_eq. exact H9.
  - unfold pending. cbn. rewrite lookup_insert_eq. exact H7.
  - unfold pending. cbn. rewrite lookup_insert_eq. exact H8.
  - unfold pending. cbn. rewrite lookup_insert_eq. exact H10.
  - exact L9. 
  - exact L7. 
  - exact L8. 
  - exact L10.
  - rewrite store_next. unfold pending. cbn. apply lookup_insert_eq.
Qed.

Lemma outlet_retain_publish rows s o :
  LSL.eeg_outlet (lsl_streamer s) = Some o →
  LSL.eeg_outlet (lsl_streamer (retain (publish rows s))) = Some (o ++ rows).
Proof.
  intros Ho. unfold retain. 
  destruct (10 <? size (_eeg_buffer (publish rows s)))%nat; cbn; rewrite Ho; reflexivity.
Qed.

(** ** What the clean-up keeps *)

Lemma filter_none {X} (f : X → bool) (l : list X) :
  (∀ x, x ∈ l → f x = false) → List.filter f l = [].
Proof.
  induction l as [|x l IH]; intros H; [reflexivity|]. cbn.
  rewrite (H x) by (apply elem_of_cons; left; reflexivity).
  apply IH. intros y Hy. apply H, elem_of_cons. right. exact Hy.
Qed.

Lemma filter_all {X} (f : X → bool) (l : list X) :
  (∀ x, x ∈ l → f x = true) → List.filter f l = l.
Proof.
  induction l as [|x l IH]; intros H; [reflexivity|]. cbn.
  rewrite (H x) by (apply elem_of_cons; left; reflexivity).
  f_equal. apply IH. intros y Hy. apply H, elem_of_cons. right. exact Hy.
Qed.

Lemma filter_length_Permutation {X} (f : X → bool) (l l' : list X) :
  l ≡ₚ l' → length (List.filter f l) = length (List.filter f l').
Proof.
  induction 1 as [|x l l' _ IH|x y l|l l' l'' _ IH1 _ IH2]; cbn.
  - reflexivity.
  - destruct (f x); cbn; congruence.
  - destruct (f x), (f y); reflexivity.
  - congruence.
Qed.

(** In an ascending list without repetition, an element is among all
    but the last [n] exactly when at least [n] elements are greater. *)
Lemma all_but_last_sorted (l : list Z) (i : Z) (n : nat) :
  StronglySorted Z.le l → NoDup l → i ∈ l →
  (i ∈ take (length l - n) l ↔ (n ≤ length (List.filter (fun k => (i <? k)%Z) l))%nat).
Proof.
  intros Hs Hnd Hin.
  destruct (list_elem_of_split l i Hin) as (l1 & l2 & ->).
  apply StronglySorted_app in Hs as (Hle & _ & Hs2).
  pose proof Hnd as Hnd0.
  apply NoDup_app in Hnd as (_ & Hdis & Hnd2).
  apply NoDup_cons in Hnd2 as [Hi2 _].
  assert (Hcount : List.filter (fun k => i <? k) (l1 ++ i :: l2) = l2).
  { rewrite List.filter_app. cbn. rewrite Z.ltb_irrefl.
    rewrite filter_none, filter_all; [reflexivity| |].
    - intros y Hy. apply Z.ltb_lt.
      assert (i ≤ y) by (apply StronglySorted_inv in Hs2 as [_ Hall];
                         rewrite Forall_forall in Hall; apply Hall, Hy).
      assert (y ≠ i) by (intros ->; contradiction). lia.
    - intros x Hx. apply Z.ltb_ge. apply (Hle x i Hx). apply elem_of_cons. left. reflexivity. }
  rewrite Hcount.
  assert (Hpos : (l1 ++ i :: l2) !! length l1 = Some i) by apply list_lookup_middle, eq_refl.
  rewrite length_app. cbn [length].
  split.
  - intros Ht. apply list_elem_of_lookup in Ht as [j Hj].
    apply lookup_take_Some in Hj as [Hj Hlt].
    assert (j = length l1) by (eapply NoDup_lookup; [exact Hnd0|exact Hj|exact Hpos]).
    lia.
  - intros Hn. apply list_elem_of_lookup. exists (length l1).
    rewrite lookup_take_lt by lia. exact Hpos.
Qed.

Lemma filter_length_lt {X} (f : X → bool) (l : list X) (x : X) :
  x ∈ l → f x = false → (length (List.filter f l) < length l)%nat.
Proof.
  intros Hin Hf. destruct (list_elem_of_split l x Hin) as (l1 & l2 & ->).
  rewrite List.filter_app, !length_app. cbn. rewrite Hf.
  pose proof (List.filter_length_le f l1). pose proof (List.filter_length_le f l2).
  cbn. lia.
Qed.

Lemma sorted_keys_Permutation {V} (m : gmap Z V) : sorted_keys m ≡ₚ (map_to_list m).*1.
Proof. apply merge_sort_Permutation. Qed.

Lemma sorted_keys_sorted {V} (m : gmap Z V) : StronglySorted Z.le (sorted_keys m).
Proof. apply (StronglySorted_merge_sort Z.le). Qed.

Lemma sorted_keys_NoDup {V} (m : gmap Z V) : NoDup (sorted_keys m).
Proof. rewrite sorted_keys_Permutation. apply NoDup_fst_map_to_list. Qed.

Lemma elem_of_sorted_keys {V} (m : gmap Z V) (k : Z) :
  k ∈ sorted_keys m ↔ is_Some (m !! k).
Proof.
  rewrite sorted_keys_Permutation, list_elem_of_fmap. split.
  - intros ([k' v] & -> & Hin). apply elem_of_map_to_list in Hin. exists v. exact Hin.
  - intros [v Hv]. exists (k, v). split; [reflexivity|]. apply elem_of_map_to_list, Hv.
Qed.

Lemma length_sorted_keys {V} (m : gmap Z V) : length (sorted_keys m) = size m.
Proof. rewrite sorted_keys_Permutation, length_fmap. apply length_map_to_list. Qed.

Lemma keys_above_sorted {V} (m : gmap Z V) (k : Z) :
  keys_above k m = length (List.filter (fun j => k <? j) (sorted_keys m)).
Proof.
  unfold keys_above. symmetry. apply filter_length_Permutation, sorted_keys_Permutation.
Qed.

Lemma keys_above_lt_size {V} (m : gmap Z V) (k : Z) :
  is_Some (m !! k) → (keys_above k m < size m)%nat.
Proof.
  intros Hk. rewrite keys_above_sorted, <- length_sorted_keys.
  apply (filter_length_lt _ _ k).
  - apply elem_of_sorted_keys, Hk.
  - apply Z.ltb_irrefl.
Qed.

(** A key is evicted exactly when at least 10 keys are greater. *)
Lemma evicted_iff {V} (m : gmap Z V) (k : Z) :
  is_Some (m !! k) →
  (k ∈ all_but_last_10 (sorted_keys m) ↔ (10 ≤ keys_above k m)%nat).
Proof.
  intros Hk. unfold all_but_last_10. rewrite keys_above_sorted.
  apply all_but_last_sorted.
  - apply sorted_keys_sorted.
  - apply sorted_keys_NoDup.
  - apply elem_of_sorted_keys, Hk.
Qed.

Lemma evicted_is_key {V} (m : gmap Z V) (k : Z) :
  k ∈ all_but_last_10 (sorted_keys m) → is_Some (m !! k).
Proof.
  intros Hk. apply elem_of_sorted_keys. unfold all_but_last_10 in Hk.
  apply list_elem_of_lookup in Hk as [j Hj]. apply lookup_take_Some in Hj as [Hj _].
  apply list_elem_of_lookup. exists j. exact Hj.
Qed.

(** After the clean-up the table holds exactly the entries whose key has
    fewer than 10 keys above it: the (at most) 10 greatest. *)
Lemma retain_buffer_lookup (s : CustomMuseStreamer) (k : Z) :
  _eeg_buffer (retain s) !! k
  = if decide (keys_above k (_eeg_buffer s) < 10)%nat then _eeg_buffer s !! k else None.
Proof.
  unfold retain. destruct (Nat.ltb_spec 10 (size (_eeg_buffer s))) as [Hbig|Hsmall].
  - cbn. rewrite lookup_remove_all.
    destruct (_eeg_buffer s !! k) as [v|] eqn:E.
    + pose proof (evicted_iff (_eeg_buffer s) k (mk_is_Some _ _ E)) as Hiff.
      destruct (decide (k ∈ all_but_last_10 (sorted_keys (_eeg_buffer s)))) as [Hin|Hnin].
      * rewrite decide_False by (apply Hiff in Hin; lia). reflexivity.
      * rewrite decide_True by (rewrite Hiff in Hnin; lia). reflexivity.
    + repeat case_decide; reflexivity.
  - destruct (_eeg_buffer s !! k) as [v|] eqn:E.
    + pose proof (keys_above_lt_size (_eeg_buffer s) k (mk_is_Some _ _ E)).
      rewrite decide_True by lia. reflexivity.
    + case_decide; reflexivity.
Qed.

Lemma retain_timestamps_lookup (s : CustomMuseStreamer) (k : Z) :
  is_Some (_eeg_buffer (retain s) !! k) →
  _eeg_timestamps (retain s) !! k = _eeg_timestamps s !! k.
Proof.
  unfold retain. destruct (10 <? size (_eeg_buffer s))%nat; [|reflexivity].
  cbn. rewrite !lookup_remove_all.
  destruct (decide (k ∈ all_but_last_10 (sorted_keys (_eeg_buffer s)))).
  - intros [? ?]. discriminate.
  - reflexivity.
Qed.

(** After the clean-up at most 10 keys are left. *)
Lemma retain_size (s : CustomMuseStreamer) : (size (_eeg_buffer (retain s)) ≤ 10)%nat.
Proof.
  unfold retain. destruct (Nat.ltb_spec 10 (size (_eeg_buffer s))) as [Hbig|Hsmall];
    [|exact Hsmall].
  cbn. set (m := _eeg_buffer s) in *.
  assert (Hdom : dom (remove_all (all_but_last_10 (sorted_keys m)) m)
                 ⊆ list_to_set (drop (length (sorted_keys m) - 10) (sorted_keys m))).
  { intros k Hk. apply elem_of_dom in Hk. rewrite lookup_remove_all in Hk.
    destruct (decide (k ∈ all_but_last_10 (sorted_keys m))) as [|Hnin];
      [destruct Hk; discriminate|].
    apply elem_of_list_to_set. apply elem_of_sorted_keys in Hk.
    rewrite <- (take_drop (length (sorted_keys m) - 10) (sorted_keys m)) in Hk at 1.
    apply elem_of_app in Hk as [Hk|Hk]; [contradiction|exact Hk]. }
  rewrite <- size_dom. etrans; [apply (subseteq_size _ _ Hdom)|].
  rewrite size_list_to_set.
  - rewrite length_drop, length_sorted_keys. lia.
  - apply (NoDup_app (take (length (sorted_keys m) - 10) (sorted_keys m))).
    rewrite take_drop. apply sorted_keys_NoDup.
Qed.

(** ** The four samples of one sequence index *)

Lemma four_channels_frame (tp9 af7 af8 tp10 : list Q) (l : list (string * list Q)) :
  l ≡ₚ [("TP9", tp9); ("AF7", af7); ("AF8", af8); ("TP10", tp10)]%string →
  (list_to_map l : gmap string (list Q)) = full_frame tp9 af7 af8 tp10
  ∧ size (list_to_map l : gmap string (list Q)) = 4%nat
  ∧ (list_to_map l : gmap string (list Q)) !! "TP9"%string = Some tp9
  ∧ (list_to_map l : gmap string (list Q)) !! "AF7"%string = Some af7
  ∧ (list_to_map l : gmap string (list Q)) !! "AF8"%string = Some af8
  ∧ (list_to_map l : gmap string (list Q)) !! "TP10"%string = Some tp10.
Proof.
  intros Hp.
  assert (Hnd : NoDup l.*1).
  { rewrite Hp. cbn. apply (bool_decide_unpack _). vm_compute. reflexivity. }
  rewrite (list_to_map_proper _ _ Hnd Hp).
  split; [reflexivity|]. split.
  - rewrite map_size_list_to_map; [reflexivity|].
    cbn. apply (bool_decide_unpack _). vm_compute. reflexivity.
  - cbn. repeat split.
Qed.

Lemma feed_four_arrivals
    (s : CustomMuseStreamer) (o : LSL.StreamOutlet) (i : Z)
    (tp9 af7 af8 tp10 : list Q) (c9 c7 c8 c10 : Q) (order : list eeg_arrival) :
  streams_ready s o →
  _eeg_buffer s !! i = None →
  length tp9 = 12%nat → length af7 = 12%nat → length af8 = 12%nat → length tp10 = 12%nat →
  order ≡ₚ four_arrivals i tp9 af7 af8 tp10 c9 c7 c8 c10 →
  ∃ first rest,
    order = first :: rest
    ∧ (∀ n, (n < 4)%nat →
         LSL.eeg_outlet (lsl_streamer (feed_all (take n order) s)) = Some o)
    ∧ feed_all order s
      = retain (publish (published_frame tp9 af7 af8 tp10 (arr_clock first))
                  (pending s i (full_frame tp9 af7 af8 tp10) (arr_clock first))).
Proof.
  intros Hr Hnone L9 L7 L8 L10 Hp.
  assert (Hlen : length order = 4%nat) by (rewrite Hp; reflexivity).
  destruct order as [|b1 [|b2 [|b3 [|b4 [|? ?]]]]]; try discriminate Hlen. clear Hlen.
  assert (Hidx : Forall (λ a, arr_index a = i) [b1; b2; b3; b4]).
  { rewrite Hp. repeat constructor. }
  assert (Hent : arrival_entry <$> [b4; b3; b2; b1]
                 ≡ₚ [("TP9", tp9); ("AF7", af7); ("AF8", af8); ("TP10", tp10)]%string).
  { change [b4; b3; b2; b1] with (reverse [b1; b2; b3; b4]).
    rewrite reverse_Permutation, Hp. reflexivity. }
  assert (Hnd : NoDup (arr_channel <$> [b4; b3; b2; b1])).
  { change [b4; b3; b2; b1] with (reverse [b1; b2; b3; b4]).
    rewrite reverse_Permutation, Hp. cbn. apply (bool_decide_unpack _). vm_compute. reflexivity. }
  destruct (four_channels_frame _ _ _ _ _ Hent) as (Hfull & Hsz & H9 & H7 & H8 & H10).
  destruct b1 as [ch1 i1 x1 t1], b2 as [ch2 i2 x2 t2], b3 as [ch3 i3 x3 t3],
           b4 as [ch4 i4 x4 t4].
  apply Forall_cons in Hidx as [e1 Hidx]. apply Forall_cons in Hidx as [e2 Hidx].
  apply Forall_cons in Hidx as [e3 Hidx]. apply Forall_cons in Hidx as [e4 _].
  cbn in e1, e2, e3, e4. subst i1 i2 i3 i4.
  cbn in Hfull, Hsz, H9, H7, H8, H10, Hnd.
  apply NoDup_cons in Hnd as [N4 Hnd]. apply NoDup_cons in Hnd as [N3 Hnd].
  apply NoDup_cons in Hnd as [N2 _].
  assert (E1 : feed (mkArrival ch1 i x1 t1) s = pending s i {[ch1 := x1]} t1)
    by (apply (feed_first (mkArrival ch1 i x1 t1)), Hnone).
  assert (E2 : feed (mkArrival ch2 i x2 t2) (pending s i {[ch1 := x1]} t1)
               = pending s i (<[ch2 := x2]> {[ch1 := x1]}) t1).
  { apply (feed_next (mkArrival ch2 i x2 t2)). cbn.
    rewrite map_size_insert_None, map_size_singleton; [discriminate|].
    apply lookup_singleton_ne. set_solver. }
  assert (E3 : feed (mkArrival ch3 i x3 t3) (pending s i (<[ch2 := x2]> {[ch1 := x1]}) t1)
               = pending s i (<[ch3 := x3]> (<[ch2 := x2]> {[ch1 := x1]})) t1).
  { apply (feed_next (mkArrival ch3 i x3 t3)). cbn.
    rewrite !map_size_insert_None, map_size_singleton; [discriminate| |].
    - apply lookup_singleton_ne. set_solver.
    - rewrite lookup_insert_ne by set_solver. apply lookup_singleton_ne. set_solver. }
  exists (mkArrival ch1 i x1 t1), [mkArrival ch2 i x2 t2; mkArrival ch3 i x3 t3; mkArrival ch4 i x4 t4].
  split; [reflexivity|]. split.
  - intros n Hn. destruct Hr as [_ Ho].
    destruct n as [|[|[|[|n]]]]; try lia; cbn [take firstn feed_all fold_left].
    + exact Ho.
    + rewrite E1. exact Ho.
    + rewrite E1, E2. exact Ho.
    + rewrite E1, E2, E3. exact Ho.
  - cbn [feed_all fold_left]. rewrite E1, E2, E3.
    unfold feed at 1. cbn [arr_channel arr_index arr_samples arr_clock].
    pose proof (feed_last (mkArrival ch4 i x4 t4) s
                  (<[ch3 := x3]> (<[ch2 := x2]> {[ch1 := x1]})) t1 o tp9 af7 af8 tp10) as HL.
    cbn [arr_channel arr_index arr_samples arr_clock] in HL.
    rewrite HL; try assumption.
    cbn [snd arr_clock]. rewrite <- Hfull, insert_empty. reflexivity.
Qed.

(** C5. From a state where index [i] is not pending and the EEG outlet
    exists, the four channel samples of [i] (12 values each) fed in any
    of their 24 orders publish exactly one frame: nothing is pushed
    during the first three arrivals, and after the fourth the outlet has
    grown by the 12 rows of one frame, whose columns are TP9, AF7, AF8,
    TP10 whatever the order, stamped from the clock reading of the first
    arrival. *)
Theorem frame_completion_any_order
    (s : CustomMuseStreamer) (o : LSL.StreamOutlet) (i : Z)
    (tp9 af7 af8 tp10 : list Q) (c9 c7 c8 c10 : Q) (order : list eeg_arrival) :
  streams_ready s o →
  _eeg_buffer s !! i = None →
  length tp9 = 12%nat → length af7 = 12%nat → length af8 = 12%nat → length tp10 = 12%nat →
  order ≡ₚ four_arrivals i tp9 af7 af8 tp10 c9 c7 c8 c10 →
  ∃ first rest,
    order = first :: rest
    ∧ (∀ n, (n < 4)%nat →
         LSL.eeg_outlet (lsl_streamer (feed_all (take n order) s)) = Some o)
    ∧ LSL.eeg_outlet (lsl_streamer (feed_all order s))
      = Some (o ++ published_frame tp9 af7 af8 tp10 (arr_clock first)).
Proof.
  intros Hr Hnone L9 L7 L8 L10 Hp.
  destruct (feed_four_arrivals s o i tp9 af7 af8 tp10 c9 c7 c8 c10 order
              Hr Hnone L9 L7 L8 L10 Hp) as (first & rest & Ho & Hpre & Hfin).
  exists first, rest. split; [exact Ho|]. split; [exact Hpre|].
  rewrite Hfin. apply outlet_retain_publish. apply Hr.
Qed.

(** ** Completed frames stay in the table *)

Lemma reference_stamp_store ch i x clock s :
  _eeg_timestamps (store ch i x clock s) !! i = reference_stamp s i clock.
Proof.
  unfold store, reference_stamp. cbn.
  destruct (_eeg_buffer s !! i); [reflexivity|apply lookup_insert_eq].
Qed.

(** C2 (amended). When the insertion of a sample leaves the entry for
    [i] with all four channels, the call returns normally and one frame
    for [i] is pushed to the EEG outlet, stamped with the entry's
    reference stamp.  Completion does not remove the entry: after the
    call it is still in the table, holding the four channels, exactly
    when fewer than 10 keys of the table are greater than [i] (so always
    when the table held fewer than 10 keys before); otherwise the
    clean-up that follows the push has evicted it. *)
Theorem completion_publishes_and_keeps
    (s : CustomMuseStreamer) (o : LSL.StreamOutlet) (ch : string) (i : Z)
    (x : list Q) (clock : Q) (tp9 af7 af8 tp10 : list Q) (t : Q) :
  let frame := <[ch := x]> (default ∅ (_eeg_buffer s !! i)) in
  streams_ready s o →
  size frame = 4%nat →
  frame !! "TP9"%string = Some tp9 → frame !! "AF7"%string = Some af7 →
  frame !! "AF8"%string = Some af8 → frame !! "TP10"%string = Some tp10 →
  length tp9 = 12%nat → length af7 = 12%nat → length af8 = 12%nat → length tp10 = 12%nat →
  reference_stamp s i clock = Some t →
  ∃ s',
    _process_eeg_packet ch i x clock s = (Ok tt, s')
    ∧ LSL.eeg_outlet (lsl_streamer s') = Some (o ++ published_frame tp9 af7 af8 tp10 t)
    ∧ _eeg_buffer s' !! i
      = (if decide (keys_above i (<[i := frame]> (_eeg_buffer s)) < 10)%nat
         then Some frame else None)
    ∧ ((size (_eeg_buffer s) < 10)%nat → _eeg_buffer s' !! i = Some frame).
Proof.
  intros frame Hr Hsz H9 H7 H8 H10 L9 L7 L8 L10 Ht.
  rewrite <- reference_stamp_store with (ch := ch) (x := x) in Ht.
  eexists. split.
  { apply (process_complete ch i x clock s o tp9 af7 af8 tp10 t); assumption. }
  assert (Hlook : _eeg_buffer (retain (publish (published_frame tp9 af7 af8 tp10 t)
                                          (store ch i x clock s))) !! i
                  = if decide (keys_above i (<[i := frame]> (_eeg_buffer s)) < 10)%nat
                    then Some frame else None).
  { rewrite retain_buffer_lookup. cbn. rewrite lookup_insert_eq. reflexivity. }
  split; [|split].
  - apply outlet_retain_publish. cbn. apply Hr.
  - exact Hlook.
  - intros Hsmall. rewrite Hlook. rewrite decide_True; [reflexivity|].
    pose proof (keys_above_lt_size (<[i := frame]> (_eeg_buffer s)) i) as Hk.
    rewrite lookup_insert_eq in Hk. specialize (Hk (mk_is_Some _ _ eq_refl)).
    destruct (_eeg_buffer s !! i) eqn:E.
    + rewrite (map_size_insert_Some i frame (_eeg_buffer s)) in Hk
        by (rewrite E; eexists; reflexivity). lia.
    + rewrite (map_size_insert_None i frame (_eeg_buffer s) E) in Hk. lia.
Qed.

(** C2, as stated, fails: the four samples of index 7 arrive, the frame
    is published, and the entry for 7 is still in the table with its
    four channels. *)
Lemma completed_frame_not_removed :
  LSL.eeg_outlet (lsl_streamer (feed_all example_order example_ready))
  = Some (published_frame (example_samples 1) (example_samples 2)
            (example_samples 3) (example_samples 4) 10)
  ∧ _eeg_buffer (feed_all example_order example_ready) !! 7
    = Some (full_frame (example_samples 1) (example_samples 2)
              (example_samples 3) (example_samples 4)).
Proof. split; vm_compute; reflexivity. Qed.

Lemma completion_publishes_and_keeps_witness :
  ∃ s',
    _process_eeg_packet "AF7" 7 (example_samples 2) 13 example_pending = (Ok tt, s')
    ∧ LSL.eeg_outlet (lsl_streamer s')
      = Some ([] ++ published_frame (example_samples 1) (example_samples 2)
                      (example_samples 3) (example_samples 4) 10)
    ∧ _eeg_buffer s' !! 7
      = (if decide (keys_above 7%Z (<[7%Z := example_frame]> (_eeg_buffer example_pending)) < 10)%nat
         then Some example_frame else None)
    ∧ ((size (_eeg_buffer example_pending) < 10)%nat →
       _eeg_buffer s' !! 7 = Some example_frame).
Proof.
  apply (completion_publishes_and_keeps example_pending [] "AF7" 7
           (example_samples 2) 13
           (example_samples 1) (example_samples 2) (example_samples 3) (example_samples 4) 10).
  - split; reflexivity.
  - vm_compute. reflexivity.
  - vm_compute. reflexivity.
  - vm_compute. reflexivity.
  - vm_compute. reflexivity.
  - vm_compute. reflexivity.
  - reflexivity.
  - reflexivity.
  - reflexivity.
  - reflexivity.
  - vm_compute. reflexivity.
Defined.

(** ** Retention under channel loss *)

(** C1 fails on the code: the clean-up is reached only when a frame
    completes.  Fifteen sequence indices that each miss TP10 are all
    still pending after the last arrival, and nothing was published. *)
Theorem fifteen_incomplete_all_pending :
  size (_eeg_buffer (feed_all fifteen_incomplete example_ready)) = 15%nat
  ∧ sorted_keys (_eeg_buffer (feed_all fifteen_incomplete example_ready))
    = [1; 2; 3; 4; 5; 6; 7; 8; 9; 10; 11; 12; 13; 14; 15]
  ∧ LSL.eeg_outlet (lsl_streamer (feed_all fifteen_incomplete example_ready)) = Some [].
Proof. repeat split; vm_compute; reflexivity. Qed.

(** ** Duplicate publication *)

Lemma streams_ready_retain_publish rows s o :
  streams_ready s o → streams_ready (retain (publish rows s)) (o ++ rows).
Proof.
  intros [Hc Ho]. split.
  - unfold retain. destruct (10 <? size (_eeg_buffer (publish rows s)))%nat; exact Hc.
  - apply outlet_retain_publish, Ho.
Qed.

Lemma full_frame_overwrite (tp9 af7 af8 tp10 x : list Q) (ch : string) :
  ch ∈ Constants.EEG_CHANNEL_NAMES →
  length tp9 = 12%nat → length af7 = 12%nat → length af8 = 12%nat → length tp10 = 12%nat →
  length x = 12%nat →
  let dup := <[ch := x]> (full_frame tp9 af7 af8 tp10) in
  size dup = 4%nat
  ∧ dup !! "TP9"%string = Some (dup !!! "TP9"%string)
  ∧ dup !! "AF7"%string = Some (dup !!! "AF7"%string)
  ∧ dup !! "AF8"%string = Some (dup !!! "AF8"%string)
  ∧ dup !! "TP10"%string = Some (dup !!! "TP10"%string)
  ∧ length (dup !!! "TP9"%string) = 12%nat
  ∧ length (dup !!! "AF7"%string) = 12%nat
  ∧ length (dup !!! "AF8"%string) = 12%nat
  ∧ length (dup !!! "TP10"%string) = 12%nat.
Proof.
  intros Hch L9 L7 L8 L10 Lx dup. subst dup.
  unfold Constants.EEG_CHANNEL_NAMES in Hch.
  repeat (apply elem_of_cons in Hch as [->|Hch]); [| | | |inversion Hch];
    (split; [reflexivity|]); repeat split; assumption.
Qed.

(** C10. After the four samples of index [i] arrived and its frame was
    published, if the entry for [i] is still in the table, one more
    sample for [i] on any of the four channels publishes a second frame
    for [i]: the same reference stamp, the new samples in that channel's
    column and the earlier samples in the other three. *)
Theorem duplicate_publication
    (s : CustomMuseStreamer) (o : LSL.StreamOutlet) (i : Z)
    (tp9 af7 af8 tp10 : list Q) (c9 c7 c8 c10 : Q) (order : list eeg_arrival)
    (ch : string) (x : list Q) (clock : Q) :
  streams_ready s o →
  _eeg_buffer s !! i = None →
  length tp9 = 12%nat → length af7 = 12%nat → length af8 = 12%nat → length tp10 = 12%nat →
  order ≡ₚ four_arrivals i tp9 af7 af8 tp10 c9 c7 c8 c10 →
  ch ∈ Constants.EEG_CHANNEL_NAMES →
  length x = 12%nat →
  is_Some (_eeg_buffer (feed_all order s) !! i) →
  let dup := <[ch := x]> (full_frame tp9 af7 af8 tp10) in
  ∃ first rest s2,
    order = first :: rest
    ∧ LSL.eeg_outlet (lsl_streamer (feed_all order s))
      = Some (o ++ published_frame tp9 af7 af8 tp10 (arr_clock first))
    ∧ _process_eeg_packet ch i x clock (feed_all order s) = (Ok tt, s2)
    ∧ LSL.eeg_outlet (lsl_streamer s2)
      = Some ((o ++ published_frame tp9 af7 af8 tp10 (arr_clock first))
              ++ published_frame (dup !!! "TP9"%string) (dup !!! "AF7"%string)
                   (dup !!! "AF8"%string) (dup !!! "TP10"%string) (arr_clock first)).
Proof.
  intros Hr Hnone L9 L7 L8 L10 Hp Hch Lx Hstill dup.
  destruct (feed_four_arrivals s o i tp9 af7 af8 tp10 c9 c7 c8 c10 order
              Hr Hnone L9 L7 L8 L10 Hp) as (first & rest & Ho & _ & Hfin).
  set (t1 := arr_clock first) in *.
  set (rows := published_frame tp9 af7 af8 tp10 t1) in *.
  set (s1 := feed_all order s) in *.
  assert (Hr1 : streams_ready s1 (o ++ rows)).
  { rewrite Hfin. apply streams_ready_retain_publish. exact Hr. }
  assert (Hb1 : _eeg_buffer s1 !! i = Some (full_frame tp9 af7 af8 tp10)).
  { destruct Hstill as [v Hv]. rewrite Hv. rewrite Hfin, retain_buffer_lookup in Hv.
    case_decide; [|discriminate]. cbn in Hv. rewrite lookup_insert_eq in Hv.
    congruence. }
  assert (Ht1 : _eeg_timestamps s1 !! i = Some t1).
  { pose proof Hstill as Hs. rewrite Hfin in Hs |- *.
    rewrite (retain_timestamps_lookup _ i Hs). cbn. apply lookup_insert_eq. }
  destruct (full_frame_overwrite tp9 af7 af8 tp10 x ch Hch L9 L7 L8 L10 Lx)
    as (Hsz & H9 & H7 & H8 & H10 & M9 & M7 & M8 & M10).
  fold dup in Hsz, H9, H7, H8, H10, M9, M7, M8, M10.
  exists first, rest. eexists. split; [exact Ho|]. split; [apply Hr1|]. split.
  - apply (process_complete ch i x clock s1 (o ++ rows)
             (dup !!! "TP9"%string) (dup !!! "AF7"%string)
             (dup !!! "AF8"%string) (dup !!! "TP10"%string) t1);
      rewrite ?Hb1; try assumption.
    rewrite reference_stamp_store. unfold reference_stamp. rewrite Hb1. exact Ht1.
  - apply outlet_retain_publish. cbn. apply Hr1.
Qed.

(** ** Malformed packets *)

Lemma parse_wrong_length (data : list Byte.byte) :
  length data ≠ 20%nat →
  parse_eeg_packet data = Raise ValueError
  ∧ parse_acc_packet data = Raise ValueError
  ∧ parse_gyro_packet data = Raise ValueError.
Proof.
  intros Hl. apply Nat.eqb_neq in Hl.
  unfold parse_eeg_packet, parse_acc_packet, parse_gyro_packet.
  rewrite Hl. cbn. repeat split.
Qed.

(** C8. A payload whose length is not 20 makes each of the three decoders
    raise [ValueError] (nothing is padded or cut), and the notification
    callback that received it leaves the whole streamer state as it was:
    no pending frame is created or changed, nothing is pushed to an
    outlet, no counter moves. *)
Theorem malformed_length_rejected
    (data : list Byte.byte) (clock : Q) (s : CustomMuseStreamer) :
  length data ≠ 20%nat →
  parse_eeg_packet data = Raise ValueError
  ∧ parse_acc_packet data = Raise ValueError
  ∧ parse_gyro_packet data = Raise ValueError
  ∧ _on_eeg_tp9_data data clock s = (Ok tt, s)
  ∧ _on_eeg_af7_data data clock s = (Ok tt, s)
  ∧ _on_eeg_af8_data data clock s = (Ok tt, s)
  ∧ _on_eeg_tp10_data data clock s = (Ok tt, s)
  ∧ _on_acc_data data clock s = (Ok tt, s)
  ∧ _on_gyro_data data clock s = (Ok tt, s).
Proof.
  intros Hl. destruct (parse_wrong_length data Hl) as (He & Ha & Hg).
  unfold _on_eeg_tp9_data, _on_eeg_af7_data, _on_eeg_af8_data, _on_eeg_tp10_data,
    _on_acc_data, _on_gyro_data, try_except, bind, lift_result.
  rewrite He, Ha, Hg. repeat split.
Qed.

Lemma malformed_length_rejected_witness :
  parse_eeg_packet [] = Raise ValueError
  ∧ parse_acc_packet [] = Raise ValueError
  ∧ parse_gyro_packet [] = Raise ValueError
  ∧ _on_eeg_tp9_data [] 0%Q init = (Ok tt, init)
  ∧ _on_eeg_af7_data [] 0%Q init = (Ok tt, init)
  ∧ _on_eeg_af8_data [] 0%Q init = (Ok tt, init)
  ∧ _on_eeg_tp10_data [] 0%Q init = (Ok tt, init)
  ∧ _on_acc_data [] 0%Q init = (Ok tt, init)
  ∧ _on_gyro_data [] 0%Q init = (Ok tt, init).
Proof. apply (malformed_length_rejected [] 0%Q init). discriminate. Defined.

(** ** Timestamps of a pushed block *)

Lemma push_enumerated (cc : nat) (tps t : Q) (samples : list (list Q)) :
  Forall (fun sample => length sample = cc) samples →
  ∀ (start : nat) (o : LSL.StreamOutlet),
  for_each (combine (seq start (length samples)) samples)
    (fun p : nat * list Q =>
       let (i, sample) := p in
       LSL.push_sample cc sample (t + inject_Z (Z.of_nat i) * tps)%Q) o
  = (Ok tt,
     o ++ List.map (fun p : nat * list Q =>
                      (snd p, (t + inject_Z (Z.of_nat (fst p)) * tps)%Q))
            (combine (seq start (length samples)) samples)).
Proof.
  induction 1 as [|sample samples Hs _ IH]; intros start o.
  - cbn. unfold ret. rewrite app_nil_r. reflexivity.
  - cbn [length seq combine for_each List.map]. unfold bind at 1.
    unfold LSL.push_sample at 1. rewrite Hs, Nat.eqb_refl.
    rewrite IH, <- app_assoc. reflexivity.
Qed.

Lemma push_interpolated_app (cc : nat) (tps t : Q) (samples : list (list Q))
    (o : LSL.StreamOutlet) :
  Forall (fun sample => length sample = cc) samples →
  LSL.push_interpolated cc tps t samples o = (Ok tt, o ++ interpolated tps t samples).
Proof.
  intros Hw. unfold LSL.push_interpolated, interpolated.
  apply (push_enumerated cc tps t samples Hw 0%nat o).
Qed.

Lemma lookup_enumerate {X} (l : list X) : ∀ start k x,
  l !! k = Some x → combine (seq start (length l)) l !! k = Some ((start + k)%nat, x).
Proof.
  induction l as [|y l IH]; intros start k x Hk; [discriminate|].
  destruct k as [|k]; cbn [length seq combine].
  - cbn in Hk. injection Hk as ->. rewrite Nat.add_0_r. reflexivity.
  - change ((y :: l) !! S k) with (l !! k) in Hk.
    change (combine (seq (S start) (length l)) l !! k = Some ((start + S k)%nat, x)).
    rewrite (IH (S start) k x Hk). f_equal. f_equal. lia.
Qed.

Lemma interpolation_step (T : Q) (k : nat) (rate : Z) :
  (T + inject_Z (Z.of_nat k) * (1 / inject_Z rate)
   == T + inject_Z (Z.of_nat k) / inject_Z rate)%Q.
Proof.
  apply Qplus_comp; [reflexivity|]. unfold Qdiv. rewrite Qmult_1_l. reflexivity.
Qed.

Lemma push_chunk_to_spec (cc : nat) (rate : Z) (samples : list (list Q)) (T : Q)
    (o : LSL.StreamOutlet) :
  (0 < length samples)%nat →
  Forall (fun sample => length sample = cc) samples →
  ∃ new,
    LSL.push_chunk_to cc rate samples T o = (Ok tt, o ++ new)
    ∧ length new = length samples
    ∧ (∀ k sample, samples !! k = Some sample →
         ∃ t, new !! k = Some (sample, t)
              ∧ (t == T + inject_Z (Z.of_nat k) / inject_Z rate)%Q)
    ∧ (∀ sample, samples = [sample] → new = [(sample, T)]).
Proof.
  intros Hn Hw. unfold LSL.push_chunk_to.
  destruct samples as [|s0 [|s1 rest]]; [cbn in Hn; lia| |].
  - exists [(s0, T)]. cbn. unfold LSL.push_sample.
    rewrite (Forall_inv Hw), Nat.eqb_refl. repeat split.
    + intros k sample Hk. destruct k; [|discriminate].
      injection Hk as ->. exists T. split; [reflexivity|].
      change (inject_Z (Z.of_nat 0)) with 0%Q. unfold Qdiv.
      rewrite Qmult_0_l, Qplus_0_r. reflexivity.
    + intros sample [= ->]. reflexivity.
  - set (samples := s0 :: s1 :: rest) in *.
    exists (interpolated (1 / inject_Z rate) T samples).
    assert (Hlt : (1 <? length samples)%nat = true) by reflexivity.
    rewrite Hlt, push_interpolated_app by exact Hw.
    split; [reflexivity|]. split; [|split].
    + unfold interpolated. rewrite length_map, length_combine, length_seq. lia.
    + intros k sample Hk.
      exists (T + inject_Z (Z.of_nat k) * (1 / inject_Z rate))%Q.
      split; [|apply interpolation_step].
      unfold interpolated. rewrite list_lookup_fmap.
      rewrite (lookup_enumerate samples 0 k sample Hk). reflexivity.
    + intros sample. discriminate.
Qed.

Lemma push_chunk_run (m : modality) (l : LSL.MuseLSLStreamer) (o : LSL.StreamOutlet)
    (samples : list (list Q)) (T clock : Q) :
  LSL._streams_created l = true →
  outlet_of m l = Some o →
  push_chunk m samples (Some T) clock l
  = (fst (LSL.push_chunk_to (channel_count m) (nominal_rate m) samples T o),
     with_outlet m (snd (LSL.push_chunk_to (channel_count m) (nominal_rate m) samples T o)) l).
Proof.
  intros Hc Ho.
  destruct m; cbn in Ho |- *;
    unfold LSL.push_eeg_chunk, LSL.push_acc_chunk, LSL.push_gyro_chunk;
    rewrite Hc, Ho;
    match goal with |- context [LSL.push_chunk_to ?a ?b ?c ?d ?e] =>
      destruct (LSL.push_chunk_to a b c d e) as [r o']
    end; reflexivity.
Qed.

(** A block whose first row has not the stream's channel count is
    refused by pylsl: [ValueError], and nothing is pushed. *)
Lemma push_chunk_first_row_refused (m : modality) (l : LSL.MuseLSLStreamer)
    (o : LSL.StreamOutlet) (sample : list Q) (rest : list (list Q)) (T clock : Q) :
  LSL._streams_created l = true →
  outlet_of m l = Some o →
  length sample ≠ channel_count m →
  push_chunk m (sample :: rest) (Some T) clock l = (Raise ValueError, with_outlet m o l).
Proof.
  intros Hc Ho Hw. rewrite (push_chunk_run m l o _ T clock Hc Ho).
  apply Nat.eqb_neq in Hw.
  unfold LSL.push_chunk_to, LSL.push_interpolated.
  destruct rest as [|s1 rest]; cbn [length Nat.ltb Nat.leb seq combine for_each];
    unfold bind, LSL.push_sample; rewrite Hw; reflexivity.
Qed.

(** C6. A block of N >= 1 samples of the stream's channel count, pushed
    with reference timestamp [T] to a stream of nominal rate R, is
    appended to that stream's outlet and the call returns normally;
    sample [k] of the block is pushed with timestamp [T + k/R] (R = 256
    for EEG, so [T, T + 1/256, ...]); a block of one sample is pushed
    with [T] itself. *)
Theorem push_chunk_timestamps
    (m : modality) (l : LSL.MuseLSLStreamer) (o : LSL.StreamOutlet)
    (samples : list (list Q)) (T clock : Q) :
  LSL._streams_created l = true →
  outlet_of m l = Some o →
  (0 < length samples)%nat →
  Forall (fun sample => length sample = channel_count m) samples →
  ∃ new,
    push_chunk m samples (Some T) clock l = (Ok tt, with_outlet m (o ++ new) l)
    ∧ length new = length samples
    ∧ (∀ k sample, samples !! k = Some sample →
         ∃ t, new !! k = Some (sample, t)
              ∧ (t == T + inject_Z (Z.of_nat k) / inject_Z (nominal_rate m))%Q)
    ∧ (∀ sample, samples = [sample] → new = [(sample, T)])
    ∧ (m = EEG → ∀ k sample, samples !! k = Some sample →
         ∃ t, new !! k = Some (sample, t) ∧ (t == T + (Z.of_nat k # 256))%Q).
Proof.
  intros Hc Ho Hn Hw.
  destruct (push_chunk_to_spec (channel_count m) (nominal_rate m) samples T o Hn Hw)
    as (new & Hpush & Hlen & Hk & H1).
  exists new.
  assert (Hrun : push_chunk m samples (Some T) clock l = (Ok tt, with_outlet m (o ++ new) l)).
  { rewrite (push_chunk_run m l o samples T clock Hc Ho), Hpush. reflexivity. }
  split; [exact Hrun|]. split; [exact Hlen|]. split; [exact Hk|]. split; [exact H1|].
  intros -> k sample Hs. destruct (Hk k sample Hs) as (t & Ht & Eq).
  exists t. split; [exact Ht|]. rewrite Eq. apply Qplus_comp; [reflexivity|].
  symmetry. apply (Qmake_Qdiv (Z.of_nat k) 256).
Qed.

(** ** Pre-roll admission *)

(** *** Comparison of binary64 values *)

Lemma SFcompare_refl (a : spec_float) : a ≠ S754_nan → SFcompare a a = Some Eq.
Proof.
  destruct a as [s|s| |s m e]; intros H; try congruence; cbn.
  - reflexivity.
  - destruct s; reflexivity.
  - rewrite Z.compare_refl, Pos.compare_cont_refl. destruct s; reflexivity.
Qed.

Lemma SFcompare_antisym (a b : spec_float) :
  SFcompare b a = option_map CompOpp (SFcompare a b).
Proof.
  destruct a as [s1|s1| |s1 m1 e1], b as [s2|s2| |s2 m2 e2]; cbn;
    try reflexivity; try (destruct s1; reflexivity); try (destruct s2; reflexivity);
    try (destruct s1, s2; reflexivity).
  f_equal. rewrite (Z.compare_antisym e1 e2).
  destruct s1, s2; try reflexivity; destruct (e1 ?= e2)%Z; cbn; try reflexivity.
  - rewrite CompOpp_involutive. apply (Pos.compare_cont_antisym m2 m1 Eq).
  - symmetry. apply (Pos.compare_cont_antisym m1 m2 Eq).
Qed.

Lemma is_nan_spec (x : float) : is_nan x = true ↔ Prim2SF x = S754_nan.
Proof.
  unfold is_nan. rewrite FloatAxioms.eqb_spec. unfold SFeqb. split.
  - intros H. destruct (Prim2SF x) eqn:E; try reflexivity; exfalso;
      rewrite SFcompare_refl in H by discriminate; discriminate.
  - intros ->. reflexivity.
Qed.

Lemma is_nan_opp (x : float) : is_nan (- x)%float = is_nan x.
Proof.
  destruct (is_nan x) eqn:E.
  - apply is_nan_spec. apply is_nan_spec in E. rewrite FloatAxioms.opp_spec, E. reflexivity.
  - destruct (is_nan (- x)) eqn:E2; [|reflexivity].
    apply is_nan_spec in E2. rewrite FloatAxioms.opp_spec in E2.
    assert (H : Prim2SF x = S754_nan) by (destruct (Prim2SF x); try discriminate; reflexivity).
    apply is_nan_spec in H. congruence.
Qed.

(** Without NaN, [x < y] is the negation of [y <= x]. *)
Lemma ltb_negb_leb (x y : float) :
  is_nan x = false → is_nan y = false → (x <? y)%float = negb (y <=? x)%float.
Proof.
  intros Hx Hy. rewrite FloatAxioms.ltb_spec, FloatAxioms.leb_spec. unfold SFltb, SFleb.
  rewrite (SFcompare_antisym (Prim2SF x) (Prim2SF y)).
  assert (Nx : Prim2SF x ≠ S754_nan) by (intros E; apply is_nan_spec in E; congruence).
  assert (Ny : Prim2SF y ≠ S754_nan) by (intros E; apply is_nan_spec in E; congruence).
  destruct (Prim2SF x) as [s1|s1| |s1 m1 e1], (Prim2SF y) as [s2|s2| |s2 m2 e2];
    try congruence; cbn.
  all: try reflexivity.
  all: try (destruct s1; reflexivity); try (destruct s2; reflexivity);
    try (destruct s1, s2; reflexivity).
  destruct s1, s2; try reflexivity; destruct (e1 ?= e2)%Z; cbn; try reflexivity;
    destruct (Pos.compare_cont Eq m1 m2); reflexivity.
Qed.

(** With a NaN on either side every comparison is false. *)
Lemma nan_unordered (x y : float) :
  is_nan x = true ∨ is_nan y = true → (x <? y)%float = false ∧ (y <=? x)%float = false.
Proof.
  rewrite FloatAxioms.ltb_spec, FloatAxioms.leb_spec, !is_nan_spec. unfold SFltb, SFleb.
  intros [E|E]; rewrite E; [split; [reflexivity|]|split].
  - destruct (Prim2SF y); reflexivity.
  - destruct (Prim2SF x); reflexivity.
  - reflexivity.
Qed.

Lemma written_admitted (play pre : float) (p : list float * float) :
  is_nan (snd p - play)%float = false → is_nan pre = false →
  written play pre p = admitted play pre p.
Proof.
  intros Hr Hp. unfold written, admitted.
  rewrite (ltb_negb_leb _ _ Hr) by (rewrite is_nan_opp; exact Hp).
  apply negb_involutive.
Qed.

Lemma written_nan (play pre : float) (p : list float * float) :
  is_nan (snd p - play)%float = true ∨ is_nan pre = true →
  written play pre p = true ∧ admitted play pre p = false.
Proof.
  intros H. unfold written, admitted.
  destruct (nan_unordered (snd p - play)%float (- pre)%float) as [H1 H2].
  { rewrite is_nan_opp. exact H. }
  rewrite H1, H2. split; reflexivity.
Qed.

(** *** The loop body *)

Lemma record_sample_spec (play pre : float) (stype : string) (p : list float * float)
    (st : Recording.loop_state) (rows : list Recording.row) (idx : Z) :
  Recording.writers st !! stype = Some rows →
  Recording.sample_indices st !! stype = Some idx →
  Recording.record_sample play pre stype p st
  = (Ok tt,
     if written play pre p then
       Recording.mkLoop
         (<[stype := rows ++ [Recording.mkRow idx (snd p) (snd p - play)%float (fst p)]]>
            (Recording.writers st))
         (<[stype := idx + 1]> (Recording.sample_indices st))
     else st).
Proof.
  intros Hw Hi. destruct p as [sample t]. unfold Recording.record_sample, written.
  cbn [snd fst].
  destruct (t - play <? - pre)%float; cbn [negb]; [reflexivity|].
  unfold bind, get, Recording.writerow, getitem, modify, ret. cbn.
  rewrite Hi. cbn. rewrite Hw. cbn. rewrite Hi. reflexivity.
Qed.

Lemma record_chunk_spec (play pre : float) (stype : string) (l : list (list float * float)) :
  ∀ (st : Recording.loop_state) (rows : list Recording.row) (idx : Z),
  Recording.writers st !! stype = Some rows →
  Recording.sample_indices st !! stype = Some idx →
  let kept := List.filter (written play pre) l in
  for_each l (Recording.record_sample play pre stype) st
  = (Ok tt,
     Recording.mkLoop
       (<[stype := rows ++ rows_from play idx kept]> (Recording.writers st))
       (<[stype := idx + Z.of_nat (length kept)]> (Recording.sample_indices st))).
Proof.
  induction l as [|p l IH]; intros st rows idx Hw Hi kept.
  - cbn. unfold ret. f_equal. destruct st as [w si]. cbn in *.
    rewrite app_nil_r, Z.add_0_r, !insert_id by assumption. reflexivity.
  - cbn [for_each]. unfold bind at 1.
    rewrite (record_sample_spec play pre stype p st rows idx Hw Hi).
    subst kept. cbn [List.filter]. destruct (written play pre p) eqn:E.
    + rewrite (IH _ (rows ++ [Recording.mkRow idx (snd p) (snd p - play)%float (fst p)])
                 (idx + 1));
        cbn; try apply lookup_insert_eq.
      destruct p as [sample t]. cbn. rewrite !insert_insert_eq, <- app_assoc. cbn.
      f_equal. f_equal. f_equal. lia.
    + apply (IH st rows idx Hw Hi).
Qed.

Lemma filter_In_written (play pre : float) (l : list (list float * float))
    (p : list float * float) :
  In p l → (In p (List.filter (written play pre) l)
            ↔ (snd p - play <? - pre)%float = false).
Proof.
  intros Hin. rewrite filter_In. unfold written. rewrite negb_true_iff. tauto.
Qed.

Lemma recording_loop_one_pull (info : Recording.SpotifyTrackInfo) (pre : float)
    (stype : string) (chunk : list (list float)) (ts : list float) :
  let play := Recording.started_at_lsl info in
  let kept := List.filter (written play pre) (combine chunk ts) in
  Recording.recording_loop (Some info) pre [stype] [(stype, (chunk, ts))]
  = Ok (Recording.mkLoop {[stype := rows_from play 0 kept]}
          {[stype := Z.of_nat (length kept)]}).
Proof.
  intros play kept. unfold Recording.recording_loop. cbn [List.map list_to_map foldr fst snd].
  fold play. cbn [for_each]. unfold bind at 1.
  destruct chunk as [|c0 chunk'].
  - cbn. rewrite !insert_empty. reflexivity.
  - set (chunk := c0 :: chunk') in *. unfold Recording.record_chunk.
    rewrite (record_chunk_spec play pre stype (combine chunk ts) _ [] 0);
      cbn; try apply lookup_insert_eq.
    fold kept. rewrite !insert_insert_eq, !insert_empty. reflexivity.
Qed.

(** C7, as the specification states it, does not hold: with the
    reference event at local clock 100 and a pre-roll that is NaN (the
    command line accepts [nan] for the option), the sample at 97.5 is
    written to the recording, with index 1 and [relative_t = -2.5],
    although [relative_t >= -pre_roll_seconds] is false. *)
Theorem nan_pre_roll_writes_sample :
  admitted 100 nan ([1; 1; 1; 1]%float, 97.5%float) = false
  ∧ Recording.record_chunk 100 nan "EEG" [[1; 1; 1; 1]%float] [97.5%float] example_loop_state
    = (Ok tt,
       Recording.mkLoop
         {[ "EEG"%string :=
              [Recording.mkRow 0 99 (-1) [1; 2; 3; 4]%float;
               Recording.mkRow 1 97.5 (-2.5) [1; 1; 1; 1]%float] ]}
         {[ "EEG"%string := 2 ]}).
Proof. split; vm_compute; reflexivity. Qed.

(** C7, amended. With the reference event at local clock [play] and
    pre-roll [pre], [relative_t] being the binary64 difference
    [t - play], pulling a chunk writes exactly the samples for which
    [relative_t < -pre] is false, in order, with consecutive indices,
    each row carrying [t] and [relative_t]; the other samples leave no
    trace and raise nothing.  When neither [relative_t] nor [pre] is NaN
    these are the samples with [relative_t >= -pre] (the boundary
    included); when one of them is NaN the sample is written although
    [relative_t >= -pre] is false.  With [play = 100] and [pre = 2], a
    sample at 97.5 is rejected and samples at 98.5 and at 98 are
    admitted; with [play = 3] and [pre = 2] the sample at [1 - 2^-53],
    whose [relative_t] rounds to [-2], is written.  [recording_loop]
    refuses to run without a reference event, and with one it applies
    this to what it pulls, [play] being the event's local clock
    reading. *)
Theorem pre_roll_admission
    (play pre : float) (stype : string) (chunk : list (list float)) (ts : list float)
    (st : Recording.loop_state) (rows : list Recording.row) (idx : Z) :
  Recording.writers st !! stype = Some rows →
  Recording.sample_indices st !! stype = Some idx →
  let kept := List.filter (written play pre) (combine chunk ts) in
  Recording.record_chunk play pre stype chunk ts st
  = (Ok tt,
     Recording.mkLoop
       (<[stype := rows ++ rows_from play idx kept]> (Recording.writers st))
       (<[stype := idx + Z.of_nat (length kept)]> (Recording.sample_indices st)))
  ∧ (∀ sample t, In (sample, t) (combine chunk ts) →
       (In (sample, t) kept ↔ (t - play <? - pre)%float = false))
  ∧ (∀ p, is_nan (snd p - play)%float = false → is_nan pre = false →
       written play pre p = admitted play pre p)
  ∧ (∀ p, is_nan (snd p - play)%float = true ∨ is_nan pre = true →
       written play pre p = true ∧ admitted play pre p = false)
  ∧ (kept = [] → Recording.record_chunk play pre stype chunk ts st = (Ok tt, st))
  ∧ (∀ sample, written 100 2 (sample, 97.5%float) = false
               ∧ written 100 2 (sample, 98.5%float) = true
               ∧ written 100 2 (sample, 98%float) = true
               ∧ written 3 2 (sample, 0x1.fffffffffffffp-1%float) = true
               ∧ (0x1.fffffffffffffp-1 - 3 = -2)%float)
  ∧ Recording.recording_loop None pre [stype] [(stype, (chunk, ts))] = Raise RuntimeError
  ∧ (∀ info, Recording.started_at_lsl info = play →
       Recording.recording_loop (Some info) pre [stype] [(stype, (chunk, ts))]
       = Ok (Recording.mkLoop {[stype := rows_from play 0 kept]}
               {[stype := Z.of_nat (length kept)]})).
Proof.
  intros Hw Hi kept.
  pose proof (record_chunk_spec play pre stype (combine chunk ts) st rows idx Hw Hi) as H.
  cbn zeta in H. fold kept in H. unfold Recording.record_chunk.
  split; [exact H|]. split; [|split; [|split; [|split]]].
  - intros sample t Hin. apply (filter_In_written play pre _ (sample, t) Hin).
  - apply written_admitted.
  - apply written_nan.
  - intros Hk. rewrite H, Hk. cbn. f_equal. destruct st as [w si]. cbn in *.
    rewrite app_nil_r, Z.add_0_r, !insert_id by assumption. reflexivity.
  - split; [intros sample; repeat split|]. split; [reflexivity|].
    intros info <-. apply recording_loop_one_pull.
Qed.

(** ** Teardown *)

Lemma try_except_unit_ok {S} (body : M S unit) (s : S) :
  fst (try_except body (fun _ => ret tt) s) = Ok tt.
Proof.
  unfold try_except. destruct (body s) as [[[]|e] s']; reflexivity.
Qed.

Lemma disconnect_never_raises (c : BLE.MuseBLEClient) : fst (BLE.disconnect c) = Ok tt.
Proof.
  unfold BLE.disconnect. destruct (BLE._connected c); [|reflexivity].
  destruct (BLE.client c); [|reflexivity]. apply try_except_unit_ok.
Qed.

Lemma disconnect_disconnected (c : BLE.MuseBLEClient) :
  BLE._connected c = false ∨ BLE.client c = None → BLE.disconnect c = (Ok tt, c).
Proof.
  intros [H|H]; unfold BLE.disconnect; rewrite H; [reflexivity|].
  destruct (BLE._connected c); reflexivity.
Qed.

Lemma keeps_link_ret : keeps_link (ret tt).
Proof. intros f h str. exists h, str. reflexivity. Qed.

Lemma keeps_link_bind (m1 m2 : M BLE.MuseBLEClient unit) :
  keeps_link m1 → keeps_link m2 → keeps_link (bind m1 (fun _ => m2)).
Proof.
  intros H1 H2 f h str. destruct (H1 f h str) as (h1 & str1 & E1).
  destruct (H2 f h1 str1) as (h2 & str2 & E2).
  exists h2, str2. unfold bind. rewrite E1. exact E2.
Qed.

Lemma keeps_link_try_call (k : BLE.ble_call) :
  keeps_link (try_except (BLE.client_call k) (fun _ => ret tt)).
Proof.
  intros f h str. exists (h ++ [k]), str.
  unfold try_except, BLE.client_call. cbn. destruct (f h k); reflexivity.
Qed.

Lemma keeps_link_for_each {X} (l : list X) (body : X → M BLE.MuseBLEClient unit) :
  (∀ x, keeps_link (body x)) → keeps_link (for_each l body).
Proof.
  intros Hb. induction l as [|x l IH]; cbn [for_each].
  - apply keeps_link_ret.
  - apply keeps_link_bind; [apply Hb|exact IH].
Qed.

Lemma keeps_link_try_two (k1 k2 : BLE.ble_call) :
  keeps_link (try_except (bind (BLE.client_call k1) (fun _ => BLE.client_call k2))
                (fun _ => ret tt)).
Proof.
  intros f h str. unfold try_except, bind, BLE.client_call. cbn.
  destruct (f h k1); cbn.
  - exists (h ++ [k1]), str. reflexivity.
  - exists ((h ++ [k1]) ++ [k2]), str. destruct (f (h ++ [k1]) k2); reflexivity.
Qed.

Lemma keeps_link_stop_streaming :
  keeps_link (bind BLE.stop_streaming (fun _ => ret tt)).
Proof.
  intros f h str. unfold bind, BLE.stop_streaming. cbn. destruct str; cbn.
  - unfold try_except, bind, BLE.client_call, modify, ret, BLE.set_flags. cbn.
    destruct (f h _); cbn; eexists; eexists; reflexivity.
  - exists h, false. reflexivity.
Qed.

(** On a connected client the teardown ends with the link marked
    connected exactly when the close raised. *)
Lemma disconnect_connected (f : list BLE.ble_call → BLE.ble_call → bool)
    (h : list BLE.ble_call) (str : bool) :
  ∃ h' str',
    BLE.disconnect (BLE.mkBLE (Some (BLE.mkBleak f h)) true str)
    = (Ok tt,
       BLE.mkBLE (Some (BLE.mkBleak f (h' ++ [BLE.ClientDisconnect])))
         (f h' BLE.ClientDisconnect)
         (if f h' BLE.ClientDisconnect then str' else false)).
Proof.
  unfold BLE.disconnect. cbn [BLE._connected BLE.client BLE._streaming].
  assert (K1 : keeps_link (if str then bind BLE.stop_streaming (fun _ => ret tt) else ret tt))
    by (destruct str; [apply keeps_link_stop_streaming|apply keeps_link_ret]).
  pose proof (keeps_link_for_each (List.map snd BLE.eeg_uuids)
                (fun uuid => try_except (BLE.client_call (BLE.StopNotify uuid))
                               (fun _ => ret tt))
                (fun uuid => keeps_link_try_call (BLE.StopNotify uuid))) as K2.
  pose proof (keeps_link_try_two (BLE.StopNotify Constants.ACCELEROMETER_UUID)
                (BLE.StopNotify Constants.GYROSCOPE_UUID)) as K3.
  destruct (K1 f h str) as (h1 & str1 & E1).
  destruct (K2 f h1 str1) as (h2 & str2 & E2).
  destruct (K3 f h2 str2) as (h3 & str3 & E3).
  exists h3, str3.
  unfold try_except at 1. unfold bind at 1. rewrite E1.
  unfold bind at 1. rewrite E2. unfold bind at 1. rewrite E3.
  unfold bind, BLE.client_call, modify, BLE.set_flags. cbn.
  destruct (f h3 BLE.ClientDisconnect); reflexivity.
Qed.

Lemma disconnect_marks_disconnected (c : BLE.MuseBLEClient) :
  close_never_faults c → disconnected (snd (BLE.disconnect c)).
Proof.
  intros Hclose. destruct c as [[[f h]|] conn str].
  - destruct conn; [|left; reflexivity].
    specialize (Hclose _ eq_refl). cbn in Hclose.
    destruct (disconnect_connected f h str) as (h' & str' & E). rewrite E. left. cbn.
    apply Hclose.
  - right. unfold BLE.disconnect. cbn. destruct conn; reflexivity.
Qed.

Lemma stop_never_raises (s : CustomMuseStreamer) : fst (stop s) = Ok tt.
Proof.
  unfold stop. destruct (_running s); [|reflexivity]. cbn [negb].
  unfold bind, modify, get, zoom. cbn.
  assert (Hk : ∀ s0 : CustomMuseStreamer,
            fst (let (r, t') := BLE.disconnect (ble_client s0) in
                 (r, set_ble_client t' s0)) = Ok tt
            ∧ fst (let (r, t') := LSL.close_streams (lsl_streamer s0) in
                   (r, set_lsl_streamer t' s0)) = Ok tt).
  { intros s0. split.
    - pose proof (disconnect_never_raises (ble_client s0)) as H.
      destruct (BLE.disconnect (ble_client s0)). exact H.
    - unfold LSL.close_streams. destruct (LSL._streams_created (lsl_streamer s0)); reflexivity. }
  destruct (_keep_alive_task s); cbn;
    match goal with
    | |- context [BLE.disconnect (ble_client ?s0)] =>
        pose proof (proj1 (Hk s0)) as H1;
        destruct (BLE.disconnect (ble_client s0)) as [r1 b1]; cbn in H1; subst r1
    end;
    match goal with
    | |- context [LSL.close_streams (lsl_streamer ?s0)] =>
        pose proof (proj2 (Hk s0)) as H2;
        destruct (LSL.close_streams (lsl_streamer s0)) as [r2 l2]; exact H2
    end.
Qed.

Lemma stop_not_running (s : CustomMuseStreamer) : _running (snd (stop s)) = false.
Proof.
  unfold stop. destruct (_running s) eqn:E; [|exact E]. cbn [negb].
  unfold bind, modify, get, zoom. cbn.
  destruct (_keep_alive_task s); cbn;
    repeat match goal with
           | |- context [BLE.disconnect ?c] =>
               pose proof (disconnect_never_raises c);
               destruct (BLE.disconnect c) as [[[]|?] ?]; cbn in *; try discriminate
           | |- context [LSL.close_streams ?l] =>
               destruct (LSL.close_streams l) as [[[]|?] ?]; cbn
           end; reflexivity.
Qed.

Lemma stop_stopped (s : CustomMuseStreamer) : _running s = false → stop s = (Ok tt, s).
Proof. intros H. unfold stop. rewrite H. reflexivity. Qed.

(** C9 (amended). [disconnect] never raises, neither the first time nor
    when called again; on a link that is already disconnected it changes
    nothing and makes no call on the radio stack; called twice in
    succession, the second call is such a no-op whenever the first one
    left the link marked disconnected, which it does whenever the link
    close does not raise.  [stop] never raises, and a second [stop] in
    succession changes nothing: the subscriptions, the link and the LSL
    outlets are not touched again. *)
Theorem teardown_idempotent (c : BLE.MuseBLEClient) (s : CustomMuseStreamer) :
  fst (BLE.disconnect c) = Ok tt
  ∧ fst (BLE.disconnect (snd (BLE.disconnect c))) = Ok tt
  ∧ (disconnected c → BLE.disconnect c = (Ok tt, c))
  ∧ (disconnected (snd (BLE.disconnect c)) →
     BLE.disconnect (snd (BLE.disconnect c)) = (Ok tt, snd (BLE.disconnect c)))
  ∧ (close_never_faults c → disconnected (snd (BLE.disconnect c)))
  ∧ fst (stop s) = Ok tt
  ∧ stop (snd (stop s)) = (Ok tt, snd (stop s)).
Proof.
  split; [apply disconnect_never_raises|].
  split; [apply disconnect_never_raises|].
  split; [apply disconnect_disconnected|].
  split; [apply disconnect_disconnected|].
  split; [apply disconnect_marks_disconnected|].
  split; [apply stop_never_raises|].
  apply stop_stopped, stop_not_running.
Qed.

(** C9, as stated, fails: when the radio stack raises on the link close,
    [disconnect] swallows the error and leaves the link marked
    connected, so a second [disconnect] in succession stops the six
    notifications again (each call returning normally) and closes the
    link again. *)
Lemma disconnect_twice_releases_twice :
  fst (BLE.disconnect example_link) = Ok tt
  ∧ BLE._connected (snd (BLE.disconnect example_link)) = true
  ∧ calls_made (snd (BLE.disconnect example_link))
    = BLE.WriteGattChar Constants.CONTROL_UUID BLE.CMD_STOP_STREAM :: teardown_calls
  ∧ fst (BLE.disconnect (snd (BLE.disconnect example_link))) = Ok tt
  ∧ calls_made (snd (BLE.disconnect (snd (BLE.disconnect example_link))))
    = calls_made (snd (BLE.disconnect example_link)) ++ teardown_calls.
Proof. repeat split. Qed.

(** * The theorems at concrete inputs *)

Lemma parse_eeg_packet_layout_witness :
  parse_eeg_packet example_eeg_packet
  = Ok (4660,
        List.map (fun raw => (0.48828125 * (inject_Z raw - 2048))%Q)
          [2048; 2048; 4095; 1; 0; 0; 0; 0; 0; 0; 0; 0])
  ∧ 0 ≤ layout_sequence_index example_eeg_packet < 65536
  ∧ (∀ k, 0 ≤ layout_eeg_raw example_eeg_packet k ≤ 4095)
  ∧ (∃ v, List.map (fun raw => (0.48828125 * (inject_Z raw - 2048))%Q)
            [2048; 2048; 4095; 1; 0; 0; 0; 0; 0; 0; 0; 0] !! 1%nat = Some v
          ∧ (v == 0)%Q).
Proof.
  destruct (parse_eeg_packet_layout example_eeg_packet eq_refl) as (Hp & Hi & Hr & Hz).
  assert (E : parse_eeg_packet example_eeg_packet
              = Ok (4660,
                    List.map (fun raw => (0.48828125 * (inject_Z raw - 2048))%Q)
                      [2048; 2048; 4095; 1; 0; 0; 0; 0; 0; 0; 0; 0])).
  { rewrite Hp. vm_compute. reflexivity. }
  split; [exact E|]. split; [exact Hi|]. split; [exact Hr|].
  apply (Hz 1%nat 4660 _ (proj1 (Nat.ltb_lt 1 12) eq_refl) eq_refl E).
Defined.

Lemma parse_imu_packet_column_major_witness :
  parse_acc_packet example_imu_packet
  = Ok (4660,
        [[1 * 0.0000610352; 16384 * 0.0000610352; 7 * 0.0000610352];
         [2 * 0.0000610352; -1 * 0.0000610352; 8 * 0.0000610352];
         [3 * 0.0000610352; -32768 * 0.0000610352; 9 * 0.0000610352]]%Q)
  ∧ parse_gyro_packet example_imu_packet
    = Ok (4660,
          [[1 * 0.0074768; 16384 * 0.0074768; 7 * 0.0074768];
           [2 * 0.0074768; -1 * 0.0074768; 8 * 0.0074768];
           [3 * 0.0074768; -32768 * 0.0074768; 9 * 0.0074768]]%Q).
Proof.
  apply (parse_imu_packet_column_major example_imu_packet 1 2 3 16384 (-1) (-32768) 7 8 9).
  - reflexivity.
  - vm_compute. reflexivity.
Defined.

Lemma example_order_Permutation :
  example_order
  ≡ₚ four_arrivals 7 (example_samples 1) (example_samples 2) (example_samples 3)
       (example_samples 4) 11 13 10 12.
Proof.
  unfold example_order, four_arrivals.
  etrans; [apply perm_swap|]. apply perm_skip.
  etrans; [apply perm_skip, perm_swap|]. apply perm_swap.
Defined.

Lemma frame_completion_any_order_witness :
  ∃ first rest,
    example_order = first :: rest
    ∧ (∀ n, (n < 4)%nat →
         LSL.eeg_outlet (lsl_streamer (feed_all (take n example_order) example_ready))
         = Some [])
    ∧ LSL.eeg_outlet (lsl_streamer (feed_all example_order example_ready))
      = Some ([] ++ published_frame (example_samples 1) (example_samples 2)
                      (example_samples 3) (example_samples 4) (arr_clock first)).
Proof.
  apply (frame_completion_any_order example_ready [] 7
           (example_samples 1) (example_samples 2) (example_samples 3) (example_samples 4)
           11 13 10 12 example_order).
  - split; reflexivity.
  - reflexivity.
  - reflexivity.
  - reflexivity.
  - reflexivity.
  - reflexivity.
  - exact example_order_Permutation.
Defined.

Lemma push_chunk_timestamps_witness :
  ∃ new,
    push_chunk EEG (frame_rows (example_samples 1) (example_samples 2)
                      (example_samples 3) (example_samples 4))
      (Some 10%Q) 0%Q (lsl_streamer example_ready)
    = (Ok tt, with_outlet EEG ([] ++ new) (lsl_streamer example_ready))
    ∧ length new
      = length (frame_rows (example_samples 1) (example_samples 2)
                  (example_samples 3) (example_samples 4))
    ∧ (∀ k sample,
         frame_rows (example_samples 1) (example_samples 2)
           (example_samples 3) (example_samples 4) !! k = Some sample →
         ∃ t, new !! k = Some (sample, t)
              ∧ (t == 10 + inject_Z (Z.of_nat k) / inject_Z (nominal_rate EEG))%Q)
    ∧ (∀ sample,
         frame_rows (example_samples 1) (example_samples 2)
           (example_samples 3) (example_samples 4) = [sample] →
         new = [(sample, 10%Q)])
    ∧ (EEG = EEG → ∀ k sample,
         frame_rows (example_samples 1) (example_samples 2)
           (example_samples 3) (example_samples 4) !! k = Some sample →
         ∃ t, new !! k = Some (sample, t) ∧ (t == 10 + (Z.of_nat k # 256))%Q).
Proof.
  apply (push_chunk_timestamps EEG (lsl_streamer example_ready) []
           (frame_rows (example_samples 1) (example_samples 2)
              (example_samples 3) (example_samples 4)) 10%Q 0%Q).
  - reflexivity.
  - reflexivity.
  - vm_compute. lia.
  - unfold frame_rows. cbn [List.map seq]. repeat constructor.
Defined.

Lemma pre_roll_admission_witness :
  Recording.record_chunk 100 2 "EEG" example_chunk example_stamps example_loop_state
  = (Ok tt,
     Recording.mkLoop
       {[ "EEG"%string :=
            [Recording.mkRow 0 99 (-1) [1; 2; 3; 4]%float;
             Recording.mkRow 1 98 (-2) [2; 2; 2; 2]%float;
             Recording.mkRow 2 98.5 (-1.5) [3; 3; 3; 3]%float] ]}
       {[ "EEG"%string := 3 ]})
  ∧ List.filter (written 100 2) (combine example_chunk example_stamps)
    = [([2; 2; 2; 2]%float, 98%float); ([3; 3; 3; 3]%float, 98.5%float)]
  ∧ (∀ p, In p (combine example_chunk example_stamps) →
       written 100 2 p = admitted 100 2 p)
  ∧ Recording.recording_loop None 2 ["EEG"%string]
      [("EEG"%string, (example_chunk, example_stamps))]
    = Raise RuntimeError
  ∧ Recording.recording_loop (Some (Recording.mkTrack 0 100)) 2 ["EEG"%string]
      [("EEG"%string, (example_chunk, example_stamps))]
    = Ok (Recording.mkLoop
            {[ "EEG"%string :=
                 [Recording.mkRow 0 98 (-2) [2; 2; 2; 2]%float;
                  Recording.mkRow 1 98.5 (-1.5) [3; 3; 3; 3]%float] ]}
            {[ "EEG"%string := 2 ]}).
Proof.
  destruct (pre_roll_admission 100 2 "EEG" example_chunk example_stamps example_loop_state
              [Recording.mkRow 0 99 (-1) [1; 2; 3; 4]%float] 1 eq_refl eq_refl)
    as (Hrun & _ & Hadm & _ & _ & _ & Hnone & Hsome).
  split; [rewrite Hrun; vm_compute; reflexivity|].
  split; [vm_compute; reflexivity|].
  split; [|split; [exact Hnone|]].
  - intros p Hin. apply Hadm.
    + cbn in Hin. destruct Hin as [<-|[<-|[<-|[]]]]; reflexivity.
    + reflexivity.
  - rewrite (Hsome (Recording.mkTrack 0 100) eq_refl). vm_compute. reflexivity.
Defined.

Lemma duplicate_publication_witness :
  ∃ first rest s2,
    example_order = first :: rest
    ∧ LSL.eeg_outlet (lsl_streamer (feed_all example_order example_ready))
      = Some ([] ++ published_frame (example_samples 1) (example_samples 2)
                      (example_samples 3) (example_samples 4) (arr_clock first))
    ∧ _process_eeg_packet "AF8" 7 (example_samples 5) 20
        (feed_all example_order example_ready) = (Ok tt, s2)
    ∧ LSL.eeg_outlet (lsl_streamer s2)
      = Some (([] ++ published_frame (example_samples 1) (example_samples 2)
                       (example_samples 3) (example_samples 4) (arr_clock first))
              ++ published_frame
                   (<["AF8"%string := example_samples 5]>
                      (full_frame (example_samples 1) (example_samples 2)
                         (example_samples 3) (example_samples 4)) !!! "TP9"%string)
                   (<["AF8"%string := example_samples 5]>
                      (full_frame (example_samples 1) (example_samples 2)
                         (example_samples 3) (example_samples 4)) !!! "AF7"%string)
                   (<["AF8"%string := example_samples 5]>
                      (full_frame (example_samples 1) (example_samples 2)
                         (example_samples 3) (example_samples 4)) !!! "AF8"%string)
                   (<["AF8"%string := example_samples 5]>
                      (full_frame (example_samples 1) (example_samples 2)
                         (example_samples 3) (example_samples 4)) !!! "TP10"%string)
                   (arr_clock first)).
Proof.
  apply (duplicate_publication example_ready [] 7
           (example_samples 1) (example_samples 2) (example_samples 3) (example_samples 4)
           11 13 10 12 example_order "AF8" (example_samples 5) 20).
  - split; reflexivity.
  - reflexivity.
  - reflexivity.
  - reflexivity.
  - reflexivity.
  - reflexivity.
  - exact example_order_Permutation.
  - unfold Constants.EEG_CHANNEL_NAMES. apply elem_of_cons. right.
    apply elem_of_cons. right. apply elem_of_cons. left. reflexivity.
  - reflexivity.
  - vm_compute. eexists. reflexivity.
Defined.

(** * Further properties *)

(** ** The pending-frame table keeps its shape *)

Lemma frame_ok_insert frame ch x :
  frame_ok frame → ch ∈ Constants.EEG_CHANNEL_NAMES → length x = 12%nat →
  frame_ok (<[ch := x]> frame).
Proof.
  intros Hf Hch Hx ch' x' Hl. destruct (decide (ch' = ch)) as [->|Hne].
  - rewrite lookup_insert_eq in Hl. injection Hl as <-. split; assumption.
  - rewrite lookup_insert_ne in Hl by congruence. apply (Hf ch' x' Hl).
Qed.

Lemma frame_ok_empty : frame_ok ∅.
Proof. intros ch x Hl. rewrite lookup_empty in Hl. discriminate. Qed.

Lemma table_ok_store ch i x clock s :
  table_ok s → ch ∈ Constants.EEG_CHANNEL_NAMES → length x = 12%nat →
  table_ok (store ch i x clock s).
Proof.
  intros [Hdom Hfr] Hch Hx. split.
  - intros k. unfold store. cbn. destruct (decide (k = i)) as [->|Hne].
    + rewrite lookup_insert_eq. split; [intros _; eexists; reflexivity|].
      intros _. destruct (_eeg_buffer s !! i) eqn:E.
      * apply Hdom. rewrite E. eexists; reflexivity.
      * rewrite lookup_insert_eq. eexists; reflexivity.
    + rewrite lookup_insert_ne by congruence.
      destruct (_eeg_buffer s !! i); [|rewrite lookup_insert_ne by congruence]; apply Hdom.
  - intros k frame. unfold store. cbn. destruct (decide (k = i)) as [->|Hne].
    + rewrite lookup_insert_eq. intros [= <-]. apply frame_ok_insert; try assumption.
      destruct (_eeg_buffer s !! i) eqn:E; cbn; [apply (Hfr i _ E)|apply frame_ok_empty].
    + rewrite lookup_insert_ne by congruence. apply Hfr.
Qed.

Lemma table_ok_publish rows s : table_ok s → table_ok (publish rows s).
Proof. intros H. exact H. Qed.

Lemma table_ok_retain s : table_ok s → table_ok (retain s).
Proof.
  intros [Hdom Hfr]. unfold retain.
  destruct (10 <? size (_eeg_buffer s))%nat; [|split; assumption].
  split; cbn.
  - intros k. rewrite !lookup_remove_all. case_decide; [|apply Hdom].
    split; intros [? ?]; discriminate.
  - intros k frame. rewrite lookup_remove_all. case_decide; [discriminate|apply Hfr].
Qed.

(** A well-shaped frame of four entries holds all four channels. *)
Lemma frame_ok_full frame :
  frame_ok frame → size frame = 4%nat →
  ∃ tp9 af7 af8 tp10,
    frame !! "TP9"%string = Some tp9 ∧ frame !! "AF7"%string = Some af7
    ∧ frame !! "AF8"%string = Some af8 ∧ frame !! "TP10"%string = Some tp10
    ∧ length tp9 = 12%nat ∧ length af7 = 12%nat
    ∧ length af8 = 12%nat ∧ length tp10 = 12%nat.
Proof.
  intros Hf Hsz.
  assert (Hsub : dom frame ⊆ (list_to_set Constants.EEG_CHANNEL_NAMES : gset string)).
  { intros ch Hch. apply elem_of_dom in Hch as [x Hx].
    apply elem_of_list_to_set. apply (Hf ch x Hx). }
  assert (Heq : dom frame = (list_to_set Constants.EEG_CHANNEL_NAMES : gset string)).
  { apply set_subseteq_size_eq; [exact Hsub|].
    rewrite size_dom, Hsz. vm_compute. lia. }
  assert (Hall : ∀ ch, ch ∈ Constants.EEG_CHANNEL_NAMES →
                       ∃ x, frame !! ch = Some x ∧ length x = 12%nat).
  { intros ch Hch.
    assert (Hd : ch ∈ dom frame) by (rewrite Heq; apply elem_of_list_to_set, Hch).
    apply elem_of_dom in Hd as [x Hx]. exists x. split; [exact Hx|apply (Hf ch x Hx)]. }
  destruct (Hall "TP9"%string) as (tp9 & H9 & L9); [apply (bool_decide_unpack _); reflexivity|].
  destruct (Hall "AF7"%string) as (af7 & H7 & L7); [apply (bool_decide_unpack _); reflexivity|].
  destruct (Hall "AF8"%string) as (af8 & H8 & L8); [apply (bool_decide_unpack _); reflexivity|].
  destruct (Hall "TP10"%string) as (tp10 & H10 & L10); [apply (bool_decide_unpack _); reflexivity|].
  exists tp9, af7, af8, tp10. repeat split; assumption.
Qed.

(** The frame is complete but the EEG outlet cannot take it: the push
    raises after the sample was stored, and the clean-up is not reached. *)
Lemma process_complete_unready channel i samples clock s tp9 af7 af8 tp10 t :
  let frame := <[channel := samples]> (default ∅ (_eeg_buffer s !! i)) in
  eeg_ready s = false →
  size frame = 4%nat →
  frame !! "TP9"%string = Some tp9 → frame !! "AF7"%string = Some af7 →
  frame !! "AF8"%string = Some af8 → frame !! "TP10"%string = Some tp10 →
  length tp9 = 12%nat → length af7 = 12%nat → length af8 = 12%nat → length tp10 = 12%nat →
  _eeg_timestamps (store channel i samples clock s) !! i = Some t →
  _process_eeg_packet channel i samples clock s
  = (Raise RuntimeError, store channel i samples clock s).
Proof.
  intros frame Hnr Hsz H9 H7 H8 H10 L9 L7 L8 L10 Ht.
  unfold _process_eeg_packet.
  unfold bind at 1. unfold get at 1. cbn beta iota.
  unfold bind at 1.
  assert (Hfirst :
    match _eeg_buffer s !! i with
    | Some _ => ret tt
    | None =>
        (modify (λ s0, set_eeg_buffer (<[i:=∅]> (_eeg_buffer s0)) s0);;
         modify (λ s0, set_eeg_timestamps (<[i:=clock]> (_eeg_timestamps s0)) s0))%M
    end s
    = (Ok tt, set_eeg_buffer (<[i := default ∅ (_eeg_buffer s !! i)]> (_eeg_buffer s))
                (set_eeg_timestamps
                   (match _eeg_buffer s !! i with
                    | None => <[i := clock]> (_eeg_timestamps s)
                    | Some _ => _eeg_timestamps s
                    end) s))).
  { destruct (_eeg_buffer s !! i) eqn:E; cbn.
    - rewrite insert_id by exact E. unfold ret. rewrite set_eta. reflexivity.
    - reflexivity. }
  rewrite Hfirst. clear Hfirst.
  unfold bind, get, modify, getitem, ret, raise. cbn.
  rewrite lookup_insert_eq. cbn. rewrite insert_insert_eq, lookup_insert_eq. cbn.
  fold frame. rewrite Hsz. cbn. rewrite H9, H7, H8, H10. cbn.
  unfold lift_result. rewrite column_stack_4 by assumption.
  unfold store in Ht. cbn in Ht. rewrite Ht.
  unfold zoom, LSL.push_eeg_chunk. cbn.
  unfold eeg_ready, LSLMore.is_not_None in Hnr.
  destruct (LSL._streams_created (lsl_streamer s)) eqn:Ec;
    [destruct (LSL.eeg_outlet (lsl_streamer s)) eqn:Eo; [discriminate Hnr|]|];
    cbn; unfold store; cbn; f_equal; fold frame; clear; destruct s; reflexivity.
Qed.

Lemma process_eeg_packet_cases
    (ch : string) (i : Z) (x : list Q) (clock : Q) (s : CustomMuseStreamer) :
  table_ok s →
  ch ∈ Constants.EEG_CHANNEL_NAMES →
  length x = 12%nat →
  table_ok (snd (_process_eeg_packet ch i x clock s))
  ∧ (fst (_process_eeg_packet ch i x clock s) = Raise RuntimeError
     ↔ size (<[ch := x]> (default ∅ (_eeg_buffer s !! i))) = 4%nat ∧ eeg_ready s = false)
  ∧ (fst (_process_eeg_packet ch i x clock s) = Ok tt
     ∨ fst (_process_eeg_packet ch i x clock s) = Raise RuntimeError).
Proof.
  intros Hok Hch Hx.
  pose proof (table_ok_store ch i x clock s Hok Hch Hx) as Hst.
  set (frame := <[ch := x]> (default ∅ (_eeg_buffer s !! i))).
  destruct (decide (size frame = 4%nat)) as [Hsz|Hsz].
  - assert (Hfr : frame_ok frame).
    { apply (proj2 Hst i). unfold store. cbn. apply lookup_insert_eq. }
    destruct (frame_ok_full frame Hfr Hsz)
      as (tp9 & af7 & af8 & tp10 & H9 & H7 & H8 & H10 & L9 & L7 & L8 & L10).
    assert (Ht : is_Some (_eeg_timestamps (store ch i x clock s) !! i)).
    { apply (proj1 Hst i). unfold store. cbn. rewrite lookup_insert_eq. eexists; reflexivity. }
    destruct Ht as [t Ht].
    destruct (eeg_ready s) eqn:Er.
    + assert (Hr : streams_ready s (default [] (LSL.eeg_outlet (lsl_streamer s)))).
      { unfold eeg_ready, LSLMore.is_not_None in Er.
        destruct (LSL._streams_created (lsl_streamer s)) eqn:Ec; [|discriminate].
        destruct (LSL.eeg_outlet (lsl_streamer s)) eqn:Eo; [|discriminate].
        split; [exact Ec|exact Eo]. }
      rewrite (process_complete ch i x clock s _ tp9 af7 af8 tp10 t Hr Hsz
                 H9 H7 H8 H10 L9 L7 L8 L10 Ht).
      cbn [fst snd]. split; [apply table_ok_retain, table_ok_publish, Hst|].
      split; [|left; reflexivity]. split; [discriminate|]. intros [_ ?]. discriminate.
    + rewrite (process_complete_unready ch i x clock s tp9 af7 af8 tp10 t Er Hsz
                 H9 H7 H8 H10 L9 L7 L8 L10 Ht).
      cbn [fst snd]. split; [exact Hst|]. split; [|right; reflexivity].
      split; [intros _; split; [exact Hsz|reflexivity]|reflexivity].
  - rewrite (process_incomplete ch i x clock s Hsz). cbn [fst snd].
    split; [exact Hst|]. split; [|left; reflexivity].
    split; [discriminate|]. intros [? _]. contradiction.
Qed.

Lemma parse_eeg_packet_length (data : list Byte.byte) (r : Z * list Q) :
  parse_eeg_packet data = Ok r → length (snd r) = 12%nat.
Proof.
  unfold parse_eeg_packet.
  destruct (Nat.eqb_spec (length data) 20) as [Hl|]; [|discriminate]. cbn [negb].
  change (Bits data) with (skipn 0 (Bits data)).
  rewrite unpack_fields by (rewrite length_Bits, Hl; cbn; lia).
  cbn [rbind eeg_pattern repeat fields_at]. intros [= <-]. reflexivity.
Qed.

Lemma table_ok_same (s s' : CustomMuseStreamer) :
  _eeg_buffer s' = _eeg_buffer s → _eeg_timestamps s' = _eeg_timestamps s →
  table_ok s → table_ok s'.
Proof. intros Hb Ht [H1 H2]. unfold table_ok. rewrite Hb, Ht. split; assumption. Qed.

Lemma count_packet_table k s : table_ok s → table_ok (snd (count_packet k s)).
Proof.
  intros H. unfold count_packet, bind, get, getitem, modify, ret, raise. cbn.
  destruct (_packet_counts s !! k); exact H.
Qed.

Lemma eeg_callback_table (ch : string) (data : list Byte.byte) (clock : Q)
    (s : CustomMuseStreamer) :
  ch ∈ Constants.EEG_CHANNEL_NAMES → table_ok s →
  table_ok (snd (try_except
                   (do r <- lift_result (parse_eeg_packet data);
                    _process_eeg_packet ch (fst r) (snd r) clock ;;
                    count_packet ch)%M
                   (fun _ => ret tt) s)).
Proof.
  intros Hch Hok. unfold try_except, bind at 1, lift_result.
  destruct (parse_eeg_packet data) as [r|e] eqn:Ep; [|exact Hok].
  pose proof (parse_eeg_packet_length data r Ep) as Hlen.
  pose proof (proj1 (process_eeg_packet_cases ch (fst r) (snd r) clock s Hok Hch Hlen)) as Hp.
  unfold bind.
  destruct (_process_eeg_packet ch (fst r) (snd r) clock s) as [[[]|e] s1]; cbn in Hp.
  - pose proof (count_packet_table ch s1 Hp) as Hc.
    destruct (count_packet ch s1) as [[[]|e] s2]; exact Hc.
  - exact Hp.
Qed.

Lemma imu_callback_table {A} (parse : result (Z * A)) (k : string)
    (push : A → M LSL.MuseLSLStreamer unit) (s : CustomMuseStreamer) :
  table_ok s →
  table_ok (snd (try_except
                   (do r <- lift_result parse;
                    zoom lsl_streamer set_lsl_streamer (push (snd r)) ;;
                    count_packet k)%M
                   (fun _ => ret tt) s)).
Proof.
  intros Hok. unfold try_except, bind at 1, lift_result.
  destruct parse as [r|e]; [|exact Hok].
  unfold bind, zoom. destruct (push (snd r) (lsl_streamer s)) as [[[]|e] l1].
  - pose proof (count_packet_table k (set_lsl_streamer l1 s) Hok) as Hc.
    destruct (count_packet k (set_lsl_streamer l1 s)) as [[[]|e] s2]; exact Hc.
  - exact Hok.
Qed.

Lemma deliver_table (n : notification) (s : CustomMuseStreamer) :
  table_ok s → table_ok (snd (deliver n s)).
Proof.
  intros Hok. destruct n as [d c|d c|d c|d c|d c|d c]; cbn [deliver].
  - apply (eeg_callback_table "TP9"); [apply (bool_decide_unpack _); reflexivity|exact Hok].
  - apply (eeg_callback_table "AF7"); [apply (bool_decide_unpack _); reflexivity|exact Hok].
  - apply (eeg_callback_table "AF8"); [apply (bool_decide_unpack _); reflexivity|exact Hok].
  - apply (eeg_callback_table "TP10"); [apply (bool_decide_unpack _); reflexivity|exact Hok].
  - apply (imu_callback_table (parse_acc_packet d) "ACC"
             (fun x => LSL.push_acc_chunk x (Some c) c)), Hok.
  - apply (imu_callback_table (parse_gyro_packet d) "GYRO"
             (fun x => LSL.push_gyro_chunk x (Some c) c)), Hok.
Qed.

Lemma table_ok_init : table_ok init.
Proof.
  split.
  - intros i. cbn. split; intros [x Hx]; rewrite lookup_empty in Hx; discriminate.
  - intros i frame. cbn. rewrite lookup_empty. discriminate.
Qed.

(** X1. Called as the callbacks call it (one of the four channel names,
    12 samples) in a state whose table is well shaped,
    [_process_eeg_packet] leaves the table well shaped and raises
    neither [KeyError] nor [ValueError] nor [IndexError]: it returns
    normally or raises [RuntimeError], and it raises exactly when the
    sample completes its frame while the EEG outlet cannot take a push. *)
Theorem process_eeg_packet_safe
    (ch : string) (i : Z) (x : list Q) (clock : Q) (s : CustomMuseStreamer) :
  table_ok s →
  ch ∈ Constants.EEG_CHANNEL_NAMES →
  length x = 12%nat →
  table_ok (snd (_process_eeg_packet ch i x clock s))
  ∧ (fst (_process_eeg_packet ch i x clock s) = Raise RuntimeError
     ↔ size (<[ch := x]> (default ∅ (_eeg_buffer s !! i))) = 4%nat ∧ eeg_ready s = false)
  ∧ (fst (_process_eeg_packet ch i x clock s) = Ok tt
     ∨ fst (_process_eeg_packet ch i x clock s) = Raise RuntimeError).
Proof. apply process_eeg_packet_cases. Qed.

Lemma process_eeg_packet_safe_witness :
  table_ok (snd (_process_eeg_packet "TP9" 7 (example_samples 1) 0 init))
  ∧ (fst (_process_eeg_packet "TP9" 7 (example_samples 1) 0 init) = Raise RuntimeError
     ↔ size (<["TP9"%string := example_samples 1]> (default ∅ (_eeg_buffer init !! 7))) = 4%nat
       ∧ eeg_ready init = false)
  ∧ (fst (_process_eeg_packet "TP9" 7 (example_samples 1) 0 init) = Ok tt
     ∨ fst (_process_eeg_packet "TP9" 7 (example_samples 1) 0 init) = Raise RuntimeError).
Proof.
  apply (process_eeg_packet_safe "TP9" 7 (example_samples 1) 0 init).
  - exact table_ok_init.
  - apply (bool_decide_unpack _). reflexivity.
  - reflexivity.
Defined.

(** X2. The shape of the table is an invariant of the notification
    callbacks: whatever the payloads and their order, after any sequence
    of notifications every pending frame has a first-arrival stamp (and
    every stamp a frame), and every pending frame holds only the four
    channel names with 12 samples each. *)
Theorem table_ok_invariant (l : list notification) (s : CustomMuseStreamer) :
  table_ok s → table_ok (deliver_all l s).
Proof.
  revert s. induction l as [|n l IH]; intros s Hok; [exact Hok|].
  cbn [deliver_all fold_left]. apply IH, deliver_table, Hok.
Qed.

Lemma table_ok_invariant_witness :
  table_ok (deliver_all [notify_tp9 example_eeg_packet 1; notify_acc example_imu_packet 2;
                         notify_af7 [] 3; notify_tp9 example_eeg_packet 4] init).
Proof. apply table_ok_invariant. exact table_ok_init. Defined.

(** ** Parts of the state a method leaves alone *)

Section Keeps.
Context {S X : Type} (f : S → X).

Lemma keeps_ret {A} (a : A) : keeps f (ret a).
Proof. intros s. reflexivity. Qed.

Lemma keeps_raise {A} (e : exn) : keeps f (raise (A := A) e).
Proof. intros s. reflexivity. Qed.

Lemma keeps_get : keeps f get.
Proof. intros s. reflexivity. Qed.

Lemma keeps_lift_result {A} (r : result A) : keeps f (lift_result r).
Proof. intros s. reflexivity. Qed.

Lemma keeps_modify (g : S → S) : (∀ s, f (g s) = f s) → keeps f (modify g).
Proof. intros Hg s. apply Hg. Qed.

Lemma keeps_bind {A B} (m : M S A) (k : A → M S B) :
  keeps f m → (∀ a, keeps f (k a)) → keeps f (bind m k).
Proof.
  intros Hm Hk s. unfold bind. specialize (Hm s).
  destruct (m s) as [[a|e] s1]; cbn in Hm.
  - rewrite Hk. exact Hm.
  - exact Hm.
Qed.

Lemma keeps_try_except {A} (m : M S A) (h : exn → M S A) :
  keeps f m → (∀ e, keeps f (h e)) → keeps f (try_except m h).
Proof.
  intros Hm Hh s. unfold try_except. specialize (Hm s).
  destruct (m s) as [[a|e] s1]; cbn in Hm.
  - exact Hm.
  - rewrite Hh. exact Hm.
Qed.

Lemma keeps_for_each {Y} (l : list Y) (body : Y → M S unit) :
  (∀ y, keeps f (body y)) → keeps f (for_each l body).
Proof.
  intros Hb. induction l as [|y l IH]; [apply keeps_ret|].
  cbn [for_each]. apply keeps_bind; [apply Hb|intros _; exact IH].
Qed.

Lemma keeps_getitem {K V} `{Countable K} (d : gmap K V) (k : K) :
  keeps f (getitem d k).
Proof. intros s. unfold getitem. destruct (d !! k); reflexivity. Qed.

Lemma keeps_zoom {T A} (proj : S → T) (upd : T → S → S) (m : M T A) :
  (∀ t s, f (upd t s) = f s) → keeps f (zoom proj upd m).
Proof. intros Hu s. unfold zoom. destruct (m (proj s)) as [r t]. apply Hu. Qed.

Lemma keeps_if {A} (b : bool) (m1 m2 : M S A) :
  keeps f m1 → keeps f m2 → keeps f (if b then m1 else m2).
Proof. destruct b; auto. Qed.

End Keeps.

Lemma keeps_zoom_inner {S T X A} (g : T → X) (proj : S → T) (upd : T → S → S)
    (m : M T A) :
  (∀ t s, proj (upd t s) = t) → keeps g m → keeps (fun s => g (proj s)) (zoom proj upd m).
Proof.
  intros Hpu Hm s. unfold zoom. specialize (Hm (proj s)).
  destruct (m (proj s)) as [r t]. cbn in *. rewrite Hpu. exact Hm.
Qed.


(** *** The frame synchroniser and the counters *)

Lemma keeps_evict {X} (f : CustomMuseStreamer → X) (k : Z) :
  (∀ b s, f (set_eeg_buffer b s) = f s) →
  (∀ t s, f (set_eeg_timestamps t s) = f s) →
  keeps f (evict k).
Proof.
  intros Hb Ht. unfold evict.
  apply keeps_bind; [apply keeps_modify; intros s; apply Hb|intros _].
  apply keeps_bind; [apply keeps_get|intros s].
  destruct (_eeg_timestamps s !! k); [apply keeps_modify; intros s'; apply Ht|apply keeps_ret].
Qed.

Lemma keeps_process_eeg_packet {X} (f : CustomMuseStreamer → X)
    (ch : string) (i : Z) (x : list Q) (clock : Q) :
  (∀ b s, f (set_eeg_buffer b s) = f s) →
  (∀ t s, f (set_eeg_timestamps t s) = f s) →
  (∀ l s, f (set_lsl_streamer l s) = f s) →
  keeps f (_process_eeg_packet ch i x clock).
Proof.
  intros Hb Ht Hl. unfold _process_eeg_packet.
  apply keeps_bind; [apply keeps_get|intros s0].
  apply keeps_bind.
  { destruct (_eeg_buffer s0 !! i).
    - apply keeps_ret.
    - apply keeps_bind; [apply keeps_modify; intros s; apply Hb|intros _].
      apply keeps_modify; intros s; apply Ht. }
  intros _. apply keeps_bind; [apply keeps_get|intros s1].
  apply keeps_bind; [apply keeps_getitem|intros frame].
  apply keeps_bind; [apply keeps_modify; intros s; apply Hb|intros _].
  apply keeps_bind; [apply keeps_get|intros s2].
  apply keeps_bind; [apply keeps_getitem|intros frame2].
  apply keeps_if; [|apply keeps_ret].
  do 4 (apply keeps_bind; [apply keeps_getitem|intros ?]).
  apply keeps_bind; [apply keeps_lift_result|intros combined].
  apply keeps_bind; [apply keeps_getitem|intros t].
  apply keeps_bind; [apply keeps_zoom; intros l s; apply Hl|intros _].
  apply keeps_bind; [apply keeps_get|intros s3].
  apply keeps_if; [|apply keeps_ret].
  apply keeps_for_each. intros k. apply keeps_evict; assumption.
Qed.

(** ** What a publishing call leaves in the table *)

Lemma size_remove_all {V} (l : list Z) : ∀ (m : gmap Z V),
  NoDup l → (∀ k, k ∈ l → is_Some (m !! k)) →
  size (remove_all l m) = (size m - length l)%nat.
Proof.
  induction l as [|k l IH]; intros m Hnd Hin.
  - cbn. lia.
  - change (remove_all (k :: l) m) with (remove_all l (delete k m)).
    apply NoDup_cons in Hnd as [Hk Hnd].
    rewrite IH.
    + rewrite map_size_delete_Some by (apply Hin, elem_of_cons; left; reflexivity).
      cbn [length]. lia.
    + exact Hnd.
    + intros k' Hk'. rewrite lookup_delete_ne by (intros ->; contradiction).
      apply Hin, elem_of_cons. right. exact Hk'.
Qed.

Lemma retain_size_exact (s : CustomMuseStreamer) :
  size (_eeg_buffer (retain s)) = Nat.min 10 (size (_eeg_buffer s)).
Proof.
  unfold retain. destruct (Nat.ltb_spec 10 (size (_eeg_buffer s))) as [Hbig|Hsmall];
    [|symmetry; apply Nat.min_r; exact Hsmall].
  rewrite (Nat.min_l 10) by (apply Nat.lt_le_incl; exact Hbig).
  cbn [_eeg_buffer set_eeg_buffer]. rewrite size_remove_all.
  - unfold all_but_last_10. rewrite length_take, length_sorted_keys.
    generalize dependent (size (_eeg_buffer s)). intros n Hbig. lia.
  - unfold all_but_last_10. exact (sublist_NoDup _ _ (sorted_keys_NoDup _) (sublist_take _ _)).
  - intros k Hk. apply evicted_is_key, Hk.
Qed.

Lemma process_publishes (ch : string) (i : Z) (x : list Q) (clock : Q) (s : CustomMuseStreamer) :
  table_ok s → ch ∈ Constants.EEG_CHANNEL_NAMES → length x = 12%nat →
  eeg_ready s = true →
  size (<[ch := x]> (default ∅ (_eeg_buffer s !! i))) = 4%nat →
  ∃ tp9 af7 af8 tp10 t,
    <[ch := x]> (default ∅ (_eeg_buffer s !! i))
    = full_frame tp9 af7 af8 tp10
    ∧ reference_stamp s i clock = Some t
    ∧ _process_eeg_packet ch i x clock s
      = (Ok tt, retain (publish (published_frame tp9 af7 af8 tp10 t) (store ch i x clock s))).
Proof.
  intros Hok Hch Hx Er Hsz.
  pose proof (table_ok_store ch i x clock s Hok Hch Hx) as Hst.
  set (frame := <[ch := x]> (default ∅ (_eeg_buffer s !! i))) in *.
  assert (Hfr : frame_ok frame).
  { apply (proj2 Hst i). unfold store. cbn. apply lookup_insert_eq. }
  destruct (frame_ok_full frame Hfr Hsz)
    as (tp9 & af7 & af8 & tp10 & H9 & H7 & H8 & H10 & L9 & L7 & L8 & L10).
  assert (Ht : is_Some (_eeg_timestamps (store ch i x clock s) !! i)).
  { apply (proj1 Hst i). unfold store. cbn. rewrite lookup_insert_eq. eexists; reflexivity. }
  destruct Ht as [t Ht].
  exists tp9, af7, af8, tp10, t. split; [|split].
  - apply map_eq. intros k. unfold full_frame.
    destruct (decide (k = "TP9"%string)) as [->|N9]; [rewrite H9; reflexivity|].
    destruct (decide (k = "AF7"%string)) as [->|N7]; [rewrite H7; reflexivity|].
    destruct (decide (k = "AF8"%string)) as [->|N8]; [rewrite H8; reflexivity|].
    destruct (decide (k = "TP10"%string)) as [->|N10]; [rewrite H10; reflexivity|].
    cbn. rewrite !lookup_insert_ne by congruence. rewrite lookup_empty.
    destruct (frame !! k) as [y|] eqn:E; [|reflexivity].
    exfalso. destruct (Hfr k y E) as [Hk _].
    unfold Constants.EEG_CHANNEL_NAMES in Hk. rewrite !elem_of_cons in Hk.
    destruct Hk as [?|[?|[?|[?|Hk]]]]; try contradiction.
    apply elem_of_nil in Hk. exact Hk.
  - rewrite <- (reference_stamp_store ch i x clock s). exact Ht.
  - assert (Hr : streams_ready s (default [] (LSL.eeg_outlet (lsl_streamer s)))).
    { unfold eeg_ready, LSLMore.is_not_None in Er.
      destruct (LSL._streams_created (lsl_streamer s)) eqn:Ec; [|discriminate].
      destruct (LSL.eeg_outlet (lsl_streamer s)) eqn:Eo; [|discriminate].
      split; [exact Ec|exact Eo]. }
    apply (process_complete ch i x clock s _ tp9 af7 af8 tp10 t Hr Hsz
             H9 H7 H8 H10 L9 L7 L8 L10 Ht).
Qed.

(** X3. A call that completes a frame while the EEG outlet exists trims
    the table to its 10 numerically greatest sequence indices: an entry
    (the completed one included) is in the table afterwards exactly when
    fewer than 10 keys were greater than its index, the table then holds
    min(10, n) entries, and the timestamps of the entries that stay are
    unchanged. *)
Theorem publication_trims_table
    (ch : string) (i : Z) (x : list Q) (clock : Q) (s : CustomMuseStreamer) :
  table_ok s →
  ch ∈ Constants.EEG_CHANNEL_NAMES →
  length x = 12%nat →
  eeg_ready s = true →
  size (<[ch := x]> (default ∅ (_eeg_buffer s !! i))) = 4%nat →
  let before := _eeg_buffer (store ch i x clock s) in
  let s' := snd (_process_eeg_packet ch i x clock s) in
  (∀ k, _eeg_buffer s' !! k
        = if decide (keys_above k before < 10)%nat then before !! k else None)
  ∧ size (_eeg_buffer s') = Nat.min 10 (size before)
  ∧ (∀ k, is_Some (_eeg_buffer s' !! k) →
          _eeg_timestamps s' !! k = _eeg_timestamps (store ch i x clock s) !! k)
  ∧ (∀ k, is_Some (_eeg_timestamps s' !! k) ↔ is_Some (_eeg_buffer s' !! k)).
Proof.
  intros Hok Hch Hx Er Hsz before s'.
  destruct (process_publishes ch i x clock s Hok Hch Hx Er Hsz)
    as (tp9 & af7 & af8 & tp10 & t & _ & _ & Hrun).
  subst s'. rewrite Hrun. cbn [snd].
  set (rows := published_frame tp9 af7 af8 tp10 t).
  assert (Hb : _eeg_buffer (publish rows (store ch i x clock s)) = before) by reflexivity.
  split; [|split; [|split]].
  - intros k. rewrite retain_buffer_lookup, Hb. reflexivity.
  - rewrite retain_size_exact, Hb. reflexivity.
  - intros k Hk. rewrite (retain_timestamps_lookup _ k Hk). reflexivity.
  - apply (table_ok_retain (publish rows (store ch i x clock s))).
    apply table_ok_publish, table_ok_store; assumption.
Qed.

Lemma feed_all_table (l : list eeg_arrival) : ∀ s,
  Forall (fun a => arr_channel a ∈ Constants.EEG_CHANNEL_NAMES
                   ∧ length (arr_samples a) = 12%nat) l →
  table_ok s → table_ok (feed_all l s).
Proof.
  induction l as [|a l IH]; intros s Hl Hok; [exact Hok|].
  apply Forall_cons in Hl as [[Hch Hx] Hl].
  change (feed_all (a :: l) s) with (feed_all l (feed a s)).
  apply IH; [exact Hl|]. unfold feed.
  apply (process_eeg_packet_cases _ _ _ _ _ Hok Hch Hx).
Qed.

Lemma table_ok_example_ready : table_ok example_ready.
Proof. apply (table_ok_same init); [reflexivity|reflexivity|apply table_ok_init]. Qed.

Lemma table_ok_example_pending : table_ok example_pending.
Proof.
  apply feed_all_table; [|apply table_ok_example_ready].
  repeat (apply Forall_cons; split;
          [split; [apply (bool_decide_unpack _); reflexivity|reflexivity]|]).
  apply Forall_nil_2.
Qed.

Lemma table_ok_fifteen_incomplete : table_ok (feed_all fifteen_incomplete example_ready).
Proof.
  apply feed_all_table; [|apply table_ok_example_ready].
  unfold fifteen_incomplete. cbn [seq List.map flat_map three_of_four app].
  repeat (apply Forall_cons; split;
          [split; [apply (bool_decide_unpack _); reflexivity|reflexivity]|]).
  apply Forall_nil_2.
Qed.

Lemma publication_trims_table_witness :
  let s := feed_all fifteen_incomplete example_ready in
  let before := _eeg_buffer (store "TP10" 15 (example_samples 4) 20 s) in
  let s' := snd (_process_eeg_packet "TP10" 15 (example_samples 4) 20 s) in
  sorted_keys before = [1; 2; 3; 4; 5; 6; 7; 8; 9; 10; 11; 12; 13; 14; 15]
  ∧ sorted_keys (_eeg_buffer s') = [6; 7; 8; 9; 10; 11; 12; 13; 14; 15]
  ∧ (∀ k, _eeg_buffer s' !! k
          = if decide (keys_above k before < 10)%nat then before !! k else None)
  ∧ size (_eeg_buffer s') = Nat.min 10 (size before)
  ∧ (∀ k, is_Some (_eeg_buffer s' !! k) →
          _eeg_timestamps s' !! k
          = _eeg_timestamps (store "TP10" 15 (example_samples 4) 20 s) !! k)
  ∧ (∀ k, is_Some (_eeg_timestamps s' !! k) ↔ is_Some (_eeg_buffer s' !! k)).
Proof.
  intros s before s'.
  split; [vm_compute; reflexivity|]. split; [vm_compute; reflexivity|].
  apply (publication_trims_table "TP10" 15 (example_samples 4) 20 s).
  - exact table_ok_fifteen_incomplete.
  - apply (bool_decide_unpack _). reflexivity.
  - reflexivity.
  - reflexivity.
  - vm_compute. reflexivity.
Defined.

(** ** A lost channel *)

Lemma frame_lacking_incomplete (ch0 : string) (frame : gmap string (list Q)) :
  ch0 ∈ Constants.EEG_CHANNEL_NAMES → frame_ok frame → frame !! ch0 = None →
  size frame ≠ 4%nat.
Proof.
  intros Hch Hfr Hno Hsz.
  destruct (frame_ok_full frame Hfr Hsz)
    as (tp9 & af7 & af8 & tp10 & H9 & H7 & H8 & H10 & _).
  unfold Constants.EEG_CHANNEL_NAMES in Hch. rewrite !elem_of_cons in Hch.
  destruct Hch as [->|[->|[->|[->|Hch]]]]; try congruence.
  apply elem_of_nil in Hch. exact Hch.
Qed.

Lemma lacks_store (ch0 ch : string) (i : Z) (x : list Q) (clock : Q) (s : CustomMuseStreamer) :
  ch ≠ ch0 → lacks ch0 s → lacks ch0 (store ch i x clock s).
Proof.
  intros Hne Hl k frame. unfold store. cbn.
  destruct (decide (k = i)) as [->|Hk].
  - rewrite lookup_insert_eq. intros [= <-]. rewrite lookup_insert_ne by exact Hne.
    destruct (_eeg_buffer s !! i) as [f0|] eqn:E; cbn.
    + apply (Hl i f0 E).
    + apply lookup_empty.
  - rewrite lookup_insert_ne by congruence. apply Hl.
Qed.

Lemma feed_lacking (ch0 : string) (a : eeg_arrival) (s : CustomMuseStreamer) :
  table_ok s → lacks ch0 s → ch0 ∈ Constants.EEG_CHANNEL_NAMES →
  arr_channel a ∈ Constants.EEG_CHANNEL_NAMES → arr_channel a ≠ ch0 →
  length (arr_samples a) = 12%nat →
  _process_eeg_packet (arr_channel a) (arr_index a) (arr_samples a) (arr_clock a) s
  = (Ok tt, store (arr_channel a) (arr_index a) (arr_samples a) (arr_clock a) s).
Proof.
  intros Hok Hl Hch0 Hch Hne Hx. apply process_incomplete.
  pose proof (table_ok_store _ (arr_index a) _ (arr_clock a) s Hok Hch Hx) as Hst.
  pose proof (lacks_store ch0 _ (arr_index a) (arr_samples a) (arr_clock a) s Hne Hl) as Hl'.
  apply (frame_lacking_incomplete ch0); [exact Hch0| |].
  - apply (proj2 Hst (arr_index a)). unfold store. cbn. apply lookup_insert_eq.
  - apply (Hl' (arr_index a)). unfold store. cbn. apply lookup_insert_eq.
Qed.

(** X4. While one of the four channels is lost (its notifications never
    arrive), nothing is published and nothing is ever removed from the
    table: after any sequence of samples of the other channels every
    index that was pending or that occurs in the sequence is pending,
    with the first-arrival stamps of the entries that existed
    unchanged.  The table therefore grows with the number of distinct
    sequence indices received. *)
Theorem lost_channel_never_evicts
    (ch0 : string) (l : list eeg_arrival) (s : CustomMuseStreamer) :
  table_ok s →
  lacks ch0 s →
  ch0 ∈ Constants.EEG_CHANNEL_NAMES →
  Forall (fun a => arr_channel a ∈ Constants.EEG_CHANNEL_NAMES
                   ∧ arr_channel a ≠ ch0
                   ∧ length (arr_samples a) = 12%nat) l →
  lsl_streamer (feed_all l s) = lsl_streamer s
  ∧ (∀ k, is_Some (_eeg_buffer (feed_all l s) !! k)
          ↔ is_Some (_eeg_buffer s !! k) ∨ k ∈ List.map arr_index l)
  ∧ (∀ k t, _eeg_timestamps s !! k = Some t → _eeg_timestamps (feed_all l s) !! k = Some t).
Proof.
  revert s.
  induction l as [|a l IH]; intros s Hok Hl Hch0 Hall.
  - split; [reflexivity|]. split; [|intros k t Ht; exact Ht].
    intros k. cbn. rewrite elem_of_nil. tauto.
  - apply Forall_cons in Hall as [(Hch & Hne & Hx) Hall].
    change (feed_all (a :: l) s) with (feed_all l (feed a s)).
    unfold feed. rewrite (feed_lacking ch0 a s Hok Hl Hch0 Hch Hne Hx). cbn [snd].
    set (s1 := store (arr_channel a) (arr_index a) (arr_samples a) (arr_clock a) s).
    destruct (IH s1) as (IH1 & IH2 & IH3).
    + apply table_ok_store; assumption.
    + apply lacks_store; assumption.
    + exact Hch0.
    + exact Hall.
    + split; [rewrite IH1; reflexivity|]. split.
      * intros k. rewrite IH2. cbn [List.map]. rewrite elem_of_cons.
        subst s1. unfold store. cbn.
        destruct (decide (k = arr_index a)) as [->|Hk].
        -- rewrite lookup_insert_eq. split; [intros _; right; left; reflexivity|].
           intros _. left. eexists; reflexivity.
        -- rewrite lookup_insert_ne by congruence. tauto.
      * intros k t Ht. apply IH3. subst s1. unfold store. cbn.
        destruct (_eeg_buffer s !! arr_index a) eqn:E; [exact Ht|].
        rewrite lookup_insert_ne; [exact Ht|].
        intros <-. pose proof (proj1 (proj1 Hok (arr_index a))) as Hts.
        rewrite Ht, E in Hts. destruct Hts as [? ?]; [eexists; reflexivity|discriminate].
Qed.


Lemma lost_channel_never_evicts_witness :
  lsl_streamer (feed_all fifteen_incomplete example_ready) = lsl_streamer example_ready
  ∧ (∀ k, is_Some (_eeg_buffer (feed_all fifteen_incomplete example_ready) !! k)
          ↔ is_Some (_eeg_buffer example_ready !! k)
            ∨ k ∈ List.map arr_index fifteen_incomplete)
  ∧ (∀ k t, _eeg_timestamps example_ready !! k = Some t →
            _eeg_timestamps (feed_all fifteen_incomplete example_ready) !! k = Some t).
Proof.
  apply (lost_channel_never_evicts "TP10" fifteen_incomplete example_ready).
  - exact table_ok_example_ready.
  - intros i frame H. cbn in H. rewrite lookup_empty in H. discriminate.
  - apply (bool_decide_unpack _). reflexivity.
  - repeat (apply Forall_cons; split;
            [split; [apply (bool_decide_unpack _); reflexivity
                    |split; [discriminate|reflexivity]]|]).
    apply Forall_nil_2.
Defined.

(** ** The packet counters *)

Lemma count_packet_spec (k : string) (s : CustomMuseStreamer) :
  count_packet k s
  = match _packet_counts s !! k with
    | Some n => (Ok tt, set_packet_counts (<[k := n + 1]> (_packet_counts s)) s)
    | None => (Raise KeyError, s)
    end.
Proof.
  unfold count_packet, bind, get, getitem, modify, ret, raise. cbn.
  destruct (_packet_counts s !! k); reflexivity.
Qed.

Lemma callback_counts {A} (parse : result A) (body : A → M CustomMuseStreamer unit)
    (k key : string) (c : Z) (s : CustomMuseStreamer) :
  (∀ a, keeps _packet_counts (body a)) →
  _packet_counts s !! key = Some c →
  ∃ c',
    _packet_counts (snd (try_except
                           (do r <- lift_result parse; body r ;; count_packet k)%M
                           (fun _ => ret tt) s)) !! key = Some c'
    ∧ c ≤ c' ≤ c + (if bool_decide (k = key) then 1 else 0).
Proof.
  intros Hb Hc. unfold try_except, bind at 1, lift_result.
  destruct parse as [a|e]; [|exists c; cbn; split; [exact Hc|case_bool_decide; lia]].
  unfold bind. specialize (Hb a s).
  destruct (body a s) as [[[]|e] s1]; cbn in Hb.
  - rewrite count_packet_spec.
    destruct (_packet_counts s1 !! k) as [n|] eqn:E; cbn.
    + destruct (decide (k = key)) as [->|Hne].
      * rewrite lookup_insert_eq. rewrite Hb, Hc in E. injection E as <-.
        exists (c + 1). split; [reflexivity|]. rewrite bool_decide_eq_true_2 by reflexivity. lia.
      * rewrite lookup_insert_ne by exact Hne. rewrite Hb.
        exists c. split; [exact Hc|]. case_bool_decide; lia.
    + rewrite Hb. exists c. split; [exact Hc|]. case_bool_decide; lia.
  - cbn. rewrite Hb. exists c. split; [exact Hc|]. case_bool_decide; lia.
Qed.

Lemma deliver_counts (n : notification) (key : string) (c : Z) (s : CustomMuseStreamer) :
  _packet_counts s !! key = Some c →
  ∃ c', _packet_counts (snd (deliver n s)) !! key = Some c'
        ∧ c ≤ c' ≤ c + (if bool_decide (counter_of n = key) then 1 else 0).
Proof.
  intros Hc.
  destruct n as [d t|d t|d t|d t|d t|d t]; cbn [deliver counter_of].
  - apply (callback_counts (parse_eeg_packet d)
             (fun r => _process_eeg_packet "TP9" (fst r) (snd r) t)); [|exact Hc].
    intros a. apply keeps_process_eeg_packet; reflexivity.
  - apply (callback_counts (parse_eeg_packet d)
             (fun r => _process_eeg_packet "AF7" (fst r) (snd r) t)); [|exact Hc].
    intros a. apply keeps_process_eeg_packet; reflexivity.
  - apply (callback_counts (parse_eeg_packet d)
             (fun r => _process_eeg_packet "AF8" (fst r) (snd r) t)); [|exact Hc].
    intros a. apply keeps_process_eeg_packet; reflexivity.
  - apply (callback_counts (parse_eeg_packet d)
             (fun r => _process_eeg_packet "TP10" (fst r) (snd r) t)); [|exact Hc].
    intros a. apply keeps_process_eeg_packet; reflexivity.
  - apply (callback_counts (parse_acc_packet d)
             (fun r => zoom lsl_streamer set_lsl_streamer
                         (LSL.push_acc_chunk (snd r) (Some t) t))); [|exact Hc].
    intros a. apply keeps_zoom. reflexivity.
  - apply (callback_counts (parse_gyro_packet d)
             (fun r => zoom lsl_streamer set_lsl_streamer
                         (LSL.push_gyro_chunk (snd r) (Some t) t))); [|exact Hc].
    intros a. apply keeps_zoom. reflexivity.
Qed.

Lemma notified_cons (key : string) (n : notification) (l : list notification) :
  notified key (n :: l)
  = (if bool_decide (counter_of n = key) then 1 else 0) + notified key l.
Proof.
  unfold notified. cbn [List.filter]. case_bool_decide; cbn [length]; lia.
Qed.

(** X5. The packet counters are never lost and never decrease: over any
    sequence of notifications a counter that exists still exists, and it
    has grown by at most the number of notifications of its own
    characteristic (the notifications of other characteristics leave it
    alone). *)
Theorem packet_counts_bounded
    (l : list notification) (s : CustomMuseStreamer) (key : string) (c : Z) :
  _packet_counts s !! key = Some c →
  ∃ c', _packet_counts (deliver_all l s) !! key = Some c' ∧ c ≤ c' ≤ c + notified key l.
Proof.
  revert s key c.
  induction l as [|n l IH]; intros s key c Hc.
  - exists c. split; [exact Hc|]. unfold notified. cbn. lia.
  - destruct (deliver_counts n key c s Hc) as (c1 & H1 & B1).
    change (deliver_all (n :: l) s) with (deliver_all l (snd (deliver n s))).
    destruct (IH _ key c1 H1) as (c' & H' & B').
    exists c'. split; [exact H'|]. rewrite notified_cons. lia.
Qed.


Lemma packet_counts_bounded_witness :
  ∃ c', _packet_counts
          (deliver_all [notify_tp9 example_eeg_packet 1; notify_acc example_imu_packet 2;
                        notify_tp9 [] 3] init) !! "TP9"%string = Some c'
        ∧ 0 ≤ c' ≤ 0 + notified "TP9" [notify_tp9 example_eeg_packet 1;
                                       notify_acc example_imu_packet 2; notify_tp9 [] 3].
Proof. apply (packet_counts_bounded _ init "TP9" 0). reflexivity. Defined.

(** ** A motion notification *)

Lemma parse_imu_shape (data : list Byte.byte) :
  length data = 20%nat →
  (∃ idx rows, parse_acc_packet data = Ok (idx, rows)
               ∧ length rows = 3%nat ∧ Forall (fun r => length r = 3%nat) rows)
  ∧ (∃ idx rows, parse_gyro_packet data = Ok (idx, rows)
                 ∧ length rows = 3%nat ∧ Forall (fun r => length r = 3%nat) rows).
Proof.
  intros Hl. unfold parse_acc_packet, parse_gyro_packet. rewrite Hl. cbn [Nat.eqb negb].
  change (Bits data) with (skipn 0 (Bits data)).
  rewrite unpack_fields by (rewrite length_Bits, Hl; cbn; lia).
  cbn [rbind imu_pattern repeat fields_at].
  split; eexists; eexists;
    (split; [reflexivity|split; [reflexivity|repeat constructor]]).
Qed.

Lemma push_three (cc : nat) (rate : Z) (rows : list (list Q)) (t : Q)
    (o : LSL.StreamOutlet) :
  length rows = 3%nat →
  Forall (fun r => length r = cc) rows →
  LSL.push_chunk_to cc rate rows t o = (Ok tt, o ++ interpolated (1 / inject_Z rate) t rows).
Proof.
  intros Hl Hw. unfold LSL.push_chunk_to. rewrite Hl. cbn [Nat.ltb Nat.leb].
  apply push_interpolated_app. exact Hw.
Qed.

(** X6. In a streamer whose outlets exist, a 20-byte accelerometer
    notification appends the three decoded rows to the ACC outlet,
    stamped [clock + k / 52] for [k = 0, 1, 2] with [clock] the reading
    taken in the callback, and adds one to the ACC counter; nothing else
    changes.  The gyroscope callback does the same with its own outlet
    and counter. *)
Theorem imu_notification_published
    (data : list Byte.byte) (clock : Q) (s : CustomMuseStreamer)
    (oa og : LSL.StreamOutlet) (na ng : Z) :
  length data = 20%nat →
  LSL._streams_created (lsl_streamer s) = true →
  LSL.acc_outlet (lsl_streamer s) = Some oa →
  LSL.gyro_outlet (lsl_streamer s) = Some og →
  _packet_counts s !! "ACC"%string = Some na →
  _packet_counts s !! "GYRO"%string = Some ng →
  (∃ idx rows,
     parse_acc_packet data = Ok (idx, rows)
     ∧ length rows = 3%nat
     ∧ _on_acc_data data clock s
       = (Ok tt,
          set_packet_counts (<["ACC"%string := na + 1]> (_packet_counts s))
            (set_lsl_streamer
               (with_outlet ACC
                  (oa ++ interpolated (1 / inject_Z Constants.ACC_SAMPLE_RATE) clock rows)
                  (lsl_streamer s)) s)))
  ∧ (∃ idx rows,
       parse_gyro_packet data = Ok (idx, rows)
       ∧ length rows = 3%nat
       ∧ _on_gyro_data data clock s
         = (Ok tt,
            set_packet_counts (<["GYRO"%string := ng + 1]> (_packet_counts s))
              (set_lsl_streamer
                 (with_outlet GYRO
                    (og ++ interpolated (1 / inject_Z Constants.GYRO_SAMPLE_RATE) clock rows)
                    (lsl_streamer s)) s))).
Proof.
  intros Hl Hc Ha Hg Hna Hng.
  destruct (parse_imu_shape data Hl) as [(ia & ra & Pa & La & Wa) (ig & rg & Pg & Lg & Wg)].
  split.
  - exists ia, ra. split; [exact Pa|]. split; [exact La|].
    unfold _on_acc_data, try_except, bind at 1, lift_result. rewrite Pa.
    unfold bind, zoom, LSL.push_acc_chunk. cbn [snd]. rewrite Hc, Ha, (push_three _ _ _ _ _ La Wa).
    rewrite count_packet_spec. cbn. rewrite Hna. unfold with_outlet.
    rewrite ?Hc, ?Ha, ?Hg. reflexivity.
  - exists ig, rg. split; [exact Pg|]. split; [exact Lg|].
    unfold _on_gyro_data, try_except, bind at 1, lift_result. rewrite Pg.
    unfold bind, zoom, LSL.push_gyro_chunk. cbn [snd]. rewrite Hc, Hg, (push_three _ _ _ _ _ Lg Wg).
    rewrite count_packet_spec. cbn. rewrite Hng. unfold with_outlet.
    rewrite ?Hc, ?Ha, ?Hg. reflexivity.
Qed.

Lemma imu_notification_published_witness :
  (∃ idx rows,
     parse_acc_packet example_imu_packet = Ok (idx, rows)
     ∧ length rows = 3%nat
     ∧ _on_acc_data example_imu_packet 5 example_ready
       = (Ok tt,
          set_packet_counts (<["ACC"%string := 0 + 1]> (_packet_counts example_ready))
            (set_lsl_streamer
               (with_outlet ACC
                  ([] ++ interpolated (1 / inject_Z Constants.ACC_SAMPLE_RATE) 5 rows)
                  (lsl_streamer example_ready)) example_ready)))
  ∧ (∃ idx rows,
       parse_gyro_packet example_imu_packet = Ok (idx, rows)
       ∧ length rows = 3%nat
       ∧ _on_gyro_data example_imu_packet 5 example_ready
         = (Ok tt,
            set_packet_counts (<["GYRO"%string := 0 + 1]> (_packet_counts example_ready))
              (set_lsl_streamer
                 (with_outlet GYRO
                    ([] ++ interpolated (1 / inject_Z Constants.GYRO_SAMPLE_RATE) 5 rows)
                    (lsl_streamer example_ready)) example_ready))).
Proof.
  apply (imu_notification_published example_imu_packet 5 example_ready [] [] 0 0);
    reflexivity.
Defined.

(** ** An EEG notification *)

Lemma eeg_callback_outcome (ch : string) (data : list Byte.byte) (clock : Q)
    (s : CustomMuseStreamer) (i : Z) (x : list Q) (c : Z) :
  table_ok s → ch ∈ Constants.EEG_CHANNEL_NAMES →
  parse_eeg_packet data = Ok (i, x) →
  _packet_counts s !! ch = Some c →
  try_except
    (do r <- lift_result (parse_eeg_packet data);
     _process_eeg_packet ch (fst r) (snd r) clock ;;
     count_packet ch)%M
    (fun _ => ret tt) s
  = (Ok tt,
     if decide (size (<[ch := x]> (default ∅ (_eeg_buffer s !! i))) = 4%nat
                ∧ eeg_ready s = false)
     then store ch i x clock s
     else set_packet_counts (<[ch := c + 1]> (_packet_counts s))
            (snd (_process_eeg_packet ch i x clock s))).
Proof.
  intros Hok Hch Hp Hc.
  pose proof (parse_eeg_packet_length data _ Hp) as Hx. cbn [snd] in Hx.
  destruct (process_eeg_packet_cases ch i x clock s Hok Hch Hx) as (_ & Hiff & Hor).
  pose proof (keeps_process_eeg_packet _packet_counts ch i x clock
                (fun _ _ => eq_refl) (fun _ _ => eq_refl) (fun _ _ => eq_refl) s) as Hk.
  unfold try_except, bind at 1, lift_result. rewrite Hp. cbn [fst snd].
  unfold bind.
  destruct (_process_eeg_packet ch i x clock s) as [r s1] eqn:Erun. cbn [fst snd] in *.
  destruct (decide (size (<[ch := x]> (default ∅ (_eeg_buffer s !! i))) = 4%nat
                    ∧ eeg_ready s = false)) as [Hbad|Hgood].
  - pose proof (proj2 Hiff Hbad) as ->. cbn. f_equal.
    destruct Hbad as [Hsz Er].
    pose proof (table_ok_store ch i x clock s Hok Hch Hx) as Hst.
    assert (Hfr : frame_ok (<[ch := x]> (default ∅ (_eeg_buffer s !! i)))).
    { apply (proj2 Hst i). unfold store. cbn. apply lookup_insert_eq. }
    destruct (frame_ok_full _ Hfr Hsz)
      as (tp9 & af7 & af8 & tp10 & H9 & H7 & H8 & H10 & L9 & L7 & L8 & L10).
    assert (Ht : is_Some (_eeg_timestamps (store ch i x clock s) !! i)).
    { apply (proj1 Hst i). unfold store. cbn. rewrite lookup_insert_eq. eexists; reflexivity. }
    destruct Ht as [t Ht].
    pose proof (process_complete_unready ch i x clock s tp9 af7 af8 tp10 t Er Hsz
                  H9 H7 H8 H10 L9 L7 L8 L10 Ht) as Hrun.
    rewrite Erun in Hrun. injection Hrun as ->. reflexivity.
  - destruct Hor as [->| ->]; [|exfalso; apply Hgood, Hiff; reflexivity].
    rewrite count_packet_spec, Hk, Hc. reflexivity.
Qed.

(** X7. An EEG notification with a decodable payload is counted unless
    the sample completed a frame that could not be published: on a
    well-shaped table the callback returns normally, and either the
    frame was completed while the EEG outlet did not exist, and then
    the state is the table with the sample stored (frame complete but
    unpublished, no clean-up, counter untouched), or the state is that
    of [_process_eeg_packet] with the channel's counter incremented. *)
Theorem eeg_notification_outcome
    (n : notification) (s : CustomMuseStreamer) (i : Z) (x : list Q) (c : Z) :
  table_ok s →
  counter_of n ∈ Constants.EEG_CHANNEL_NAMES →
  parse_eeg_packet (payload n) = Ok (i, x) →
  _packet_counts s !! counter_of n = Some c →
  deliver n s
  = (Ok tt,
     if decide (size (<[counter_of n := x]> (default ∅ (_eeg_buffer s !! i))) = 4%nat
                ∧ eeg_ready s = false)
     then store (counter_of n) i x (clock_of n) s
     else set_packet_counts (<[counter_of n := c + 1]> (_packet_counts s))
            (snd (_process_eeg_packet (counter_of n) i x (clock_of n) s))).
Proof.
  intros Hok Hch Hp Hc.
  destruct n as [d t|d t|d t|d t|d t|d t]; cbn [deliver counter_of payload clock_of] in *.
  - apply eeg_callback_outcome; assumption.
  - apply eeg_callback_outcome; assumption.
  - apply eeg_callback_outcome; assumption.
  - apply eeg_callback_outcome; assumption.
  - exfalso. apply (bool_decide_pack _) in Hch. exact Hch.
  - exfalso. apply (bool_decide_pack _) in Hch. exact Hch.
Qed.

Lemma eeg_notification_outcome_witness :
  deliver (notify_tp9 example_eeg_packet 3) init
  = (Ok tt,
     if decide (size (<[counter_of (notify_tp9 example_eeg_packet 3) :=
                          List.map (fun k => eeg_microvolts (layout_eeg_raw example_eeg_packet k))
                            (seq 0 12)]>
                        (default ∅ (_eeg_buffer init !! layout_sequence_index example_eeg_packet)))
                = 4%nat
                ∧ eeg_ready init = false)
     then store (counter_of (notify_tp9 example_eeg_packet 3))
            (layout_sequence_index example_eeg_packet)
            (List.map (fun k => eeg_microvolts (layout_eeg_raw example_eeg_packet k)) (seq 0 12))
            (clock_of (notify_tp9 example_eeg_packet 3)) init
     else set_packet_counts
            (<[counter_of (notify_tp9 example_eeg_packet 3) := 0 + 1]> (_packet_counts init))
            (snd (_process_eeg_packet (counter_of (notify_tp9 example_eeg_packet 3))
                    (layout_sequence_index example_eeg_packet)
                    (List.map (fun k => eeg_microvolts (layout_eeg_raw example_eeg_packet k))
                       (seq 0 12))
                    (clock_of (notify_tp9 example_eeg_packet 3)) init))).
Proof.
  apply (eeg_notification_outcome (notify_tp9 example_eeg_packet 3) init).
  - exact table_ok_init.
  - apply (bool_decide_unpack _). reflexivity.
  - vm_compute. reflexivity.
  - reflexivity.
Defined.

(** ** The life cycle of the outlets *)

Lemma push_chunk_not_created (m : modality) (samples : list (list Q)) (ts : option Q)
    (clock : Q) (l : LSL.MuseLSLStreamer) :
  LSL._streams_created l = false →
  push_chunk m samples ts clock l = (Raise RuntimeError, l).
Proof.
  intros H. destruct m; cbn [push_chunk];
    unfold LSL.push_eeg_chunk, LSL.push_acc_chunk, LSL.push_gyro_chunk; rewrite H; reflexivity.
Qed.

Lemma close_streams_not_created (l : LSL.MuseLSLStreamer) :
  LSL._streams_created (snd (LSL.close_streams l)) = false.
Proof.
  unfold LSL.close_streams. destruct (LSL._streams_created l) eqn:E; cbn; [reflexivity|exact E].
Qed.

Lemma create_streams_created (l : LSL.MuseLSLStreamer) :
  LSL._streams_created (snd (LSL.create_streams l)) = true.
Proof.
  unfold LSL.create_streams. destruct (LSL._streams_created l) eqn:E; cbn; [exact E|reflexivity].
Qed.

(** X8. Closing the outlets is final for the samples pushed so far:
    after [close_streams] the sink is not ready, every push raises
    [RuntimeError] and changes nothing, a second [close_streams] changes
    nothing, and a later [create_streams] gives three empty outlets
    (nothing pushed before the close is carried over). *)
Theorem close_streams_lifecycle
    (l : LSL.MuseLSLStreamer) (m : modality) (samples : list (list Q))
    (ts : option Q) (clock : Q) :
  LSLMore.is_ready (snd (LSL.close_streams l)) = false
  ∧ push_chunk m samples ts clock (snd (LSL.close_streams l))
    = (Raise RuntimeError, snd (LSL.close_streams l))
  ∧ LSL.close_streams (snd (LSL.close_streams l)) = (Ok tt, snd (LSL.close_streams l))
  ∧ LSL.create_streams (snd (LSL.close_streams l))
    = (Ok tt, LSL.mkLSL (Some []) (Some []) (Some []) true).
Proof.
  pose proof (close_streams_not_created l) as Hc.
  split; [|split; [|split]].
  - unfold LSLMore.is_ready. rewrite Hc. reflexivity.
  - apply push_chunk_not_created, Hc.
  - unfold LSL.close_streams at 1. rewrite Hc. reflexivity.
  - unfold LSL.create_streams. rewrite Hc. reflexivity.
Qed.

(** ** Reachable states of the sink *)

Lemma push_chunk_keeps_shape (m : modality) (samples : list (list Q)) (ts : option Q)
    (clock : Q) (l : LSL.MuseLSLStreamer) :
  LSL._streams_created (snd (push_chunk m samples ts clock l)) = LSL._streams_created l
  ∧ LSLMore.is_ready (snd (push_chunk m samples ts clock l)) = LSLMore.is_ready l.
Proof.
  destruct l as [e a g c].
  destruct m; cbn [push_chunk];
    unfold LSL.push_eeg_chunk, LSL.push_acc_chunk, LSL.push_gyro_chunk; cbn;
    destruct c; cbn; try (split; reflexivity).
  - destruct e as [o|]; cbn; [|split; reflexivity].
    destruct (LSL.push_chunk_to _ _ _ _ o); cbn; split; reflexivity.
  - destruct a as [o|]; cbn; [|split; reflexivity].
    destruct (LSL.push_chunk_to _ _ _ _ o); cbn; split; reflexivity.
  - destruct g as [o|]; cbn; [|split; reflexivity].
    destruct (LSL.push_chunk_to _ _ _ _ o); cbn; split; reflexivity.
Qed.

Lemma run_call_ready (c : lsl_call) (l : LSL.MuseLSLStreamer) :
  LSLMore.is_ready l = LSL._streams_created l →
  LSLMore.is_ready (snd (run_call c l)) = LSL._streams_created (snd (run_call c l)).
Proof.
  intros H. destruct c as [| |m samples ts clock]; cbn [run_call].
  - unfold LSL.create_streams. destruct (LSL._streams_created l) eqn:E; cbn.
    + rewrite H, E. reflexivity.
    + reflexivity.
  - unfold LSL.close_streams. destruct (LSL._streams_created l) eqn:E; cbn.
    + reflexivity.
    + rewrite H, E. reflexivity.
  - destruct (push_chunk_keeps_shape m samples ts clock l) as [-> ->]. exact H.
Qed.

Lemma run_calls_ready (calls : list lsl_call) : ∀ l,
  LSLMore.is_ready l = LSL._streams_created l →
  LSLMore.is_ready (run_calls calls l) = LSL._streams_created (run_calls calls l).
Proof.
  induction calls as [|c calls IH]; intros l H; [exact H|].
  change (run_calls (c :: calls) l) with (run_calls calls (snd (run_call c l))).
  apply IH, run_call_ready, H.
Qed.

Lemma run_calls_app (l1 l2 : list lsl_call) (s : LSL.MuseLSLStreamer) :
  run_calls (l1 ++ l2) s = run_calls l2 (run_calls l1 s).
Proof. unfold run_calls. apply fold_left_app. Qed.

Lemma run_calls_pushes (calls : list lsl_call) : ∀ l,
  Forall (fun c => ∃ m samples ts clock, c = PushChunk m samples ts clock) calls →
  LSL._streams_created (run_calls calls l) = LSL._streams_created l.
Proof.
  induction calls as [|c calls IH]; intros l H; [reflexivity|].
  apply Forall_cons in H as [(m & samples & ts & clock & ->) H].
  change (run_calls (PushChunk m samples ts clock :: calls) l)
    with (run_calls calls (snd (push_chunk m samples ts clock l))).
  rewrite (IH _ H). apply push_chunk_keeps_shape.
Qed.

(** X9. In every state the sink reaches from [__init__] through
    [create_streams], [close_streams] and pushes, in any order and
    whether or not a push raised, [is_ready()] equals the flag
    [_streams_created]: the three outlets exist together exactly when
    the flag is set.  The flag is set exactly when the last call other
    than a push was [create_streams]. *)
Theorem is_ready_reachable (before pushes : list lsl_call) :
  Forall (fun c => ∃ m samples ts clock, c = PushChunk m samples ts clock) pushes →
  LSLMore.is_ready (run_calls before LSL.init)
  = LSL._streams_created (run_calls before LSL.init)
  ∧ LSLMore.is_ready (run_calls (before ++ CreateStreams :: pushes) LSL.init) = true
  ∧ LSLMore.is_ready (run_calls (before ++ CloseStreams :: pushes) LSL.init) = false
  ∧ LSLMore.is_ready (run_calls pushes LSL.init) = false.
Proof.
  intros Hp.
  assert (Hinv : ∀ calls, LSLMore.is_ready (run_calls calls LSL.init)
                          = LSL._streams_created (run_calls calls LSL.init)).
  { intros calls. apply run_calls_ready. reflexivity. }
  split; [apply Hinv|]. split; [|split].
  - rewrite Hinv, run_calls_app.
    change (run_calls (CreateStreams :: pushes) ?l)
      with (run_calls pushes (snd (LSL.create_streams l))).
    rewrite (run_calls_pushes _ _ Hp). apply create_streams_created.
  - rewrite Hinv, run_calls_app.
    change (run_calls (CloseStreams :: pushes) ?l)
      with (run_calls pushes (snd (LSL.close_streams l))).
    rewrite (run_calls_pushes _ _ Hp). apply close_streams_not_created.
  - rewrite Hinv, (run_calls_pushes _ _ Hp). reflexivity.
Qed.

Lemma is_ready_reachable_witness :
  LSLMore.is_ready (run_calls [CreateStreams; CloseStreams] LSL.init)
  = LSL._streams_created (run_calls [CreateStreams; CloseStreams] LSL.init)
  ∧ LSLMore.is_ready
      (run_calls ([CreateStreams; CloseStreams]
                  ++ CreateStreams :: [PushChunk ACC [] None 1; PushChunk EEG [[1; 2; 3; 4]%Q] None 2])
         LSL.init) = true
  ∧ LSLMore.is_ready
      (run_calls ([CreateStreams; CloseStreams]
                  ++ CloseStreams :: [PushChunk ACC [] None 1; PushChunk EEG [[1; 2; 3; 4]%Q] None 2])
         LSL.init) = false
  ∧ LSLMore.is_ready
      (run_calls [PushChunk ACC [] None 1; PushChunk EEG [[1; 2; 3; 4]%Q] None 2] LSL.init)
    = false.
Proof.
  apply (is_ready_reachable [CreateStreams; CloseStreams]
           [PushChunk ACC [] None 1; PushChunk EEG [[1; 2; 3; 4]%Q] None 2]).
  apply Forall_cons. split; [do 4 eexists; reflexivity|].
  apply Forall_cons. split; [do 4 eexists; reflexivity|]. apply Forall_nil_2.
Defined.

(** ** Edge cases of a push *)

(** X10. A push of an empty block to an existing outlet raises
    [IndexError] (from [samples[0]]) and pushes nothing; a push without
    a timestamp behaves as the same push stamped with the clock reading
    taken during the call. *)
Theorem push_chunk_edge_cases
    (m : modality) (l : LSL.MuseLSLStreamer) (samples : list (list Q)) (clock : Q) :
  LSLMore.is_ready l = true →
  push_chunk m [] None clock l = (Raise IndexError, l)
  ∧ (∀ T, push_chunk m [] (Some T) clock l = (Raise IndexError, l))
  ∧ push_chunk m samples None clock l = push_chunk m samples (Some clock) clock l.
Proof.
  intros Hr. destruct l as [e a g c]. unfold LSLMore.is_ready in Hr. cbn in Hr.
  destruct c; [|discriminate].
  destruct e as [oe|]; [|discriminate]. destruct a as [oa|]; [|discriminate].
  destruct g as [og|]; [|discriminate].
  destruct m; (split; [reflexivity|split; [intros T; reflexivity|reflexivity]]).
Qed.

Lemma push_chunk_edge_cases_witness :
  push_chunk GYRO [] None 7 (snd (LSL.create_streams LSL.init))
  = (Raise IndexError, snd (LSL.create_streams LSL.init))
  ∧ (∀ T, push_chunk GYRO [] (Some T) 7 (snd (LSL.create_streams LSL.init))
          = (Raise IndexError, snd (LSL.create_streams LSL.init)))
  ∧ push_chunk GYRO [[1; 2; 3]%Q] None 7 (snd (LSL.create_streams LSL.init))
    = push_chunk GYRO [[1; 2; 3]%Q] (Some 7%Q) 7 (snd (LSL.create_streams LSL.init)).
Proof.
  apply (push_chunk_edge_cases GYRO (snd (LSL.create_streams LSL.init)) [[1; 2; 3]%Q] 7).
  reflexivity.
Defined.

(** ** Calls on the radio stack *)

Lemma client_call_spec (c : BLE.ble_call) (f : list BLE.ble_call → BLE.ble_call → bool)
    (h : list BLE.ble_call) (conn str : bool) :
  BLE.client_call c (BLE.mkBLE (Some (BLE.mkBleak f h)) conn str)
  = (if f h c then Raise BleakError else Ok tt,
     BLE.mkBLE (Some (BLE.mkBleak f (h ++ [c]))) conn str).
Proof. unfold BLE.client_call. cbn. destruct (f h c); reflexivity. Qed.

Lemma for_each_attempt (calls : list BLE.ble_call)
    (f : list BLE.ble_call → BLE.ble_call → bool) (conn str : bool) : ∀ h,
  for_each calls BLE.client_call (BLE.mkBLE (Some (BLE.mkBleak f h)) conn str)
  = (if snd (attempt f h calls) then Ok tt else Raise BleakError,
     BLE.mkBLE (Some (BLE.mkBleak f (fst (attempt f h calls)))) conn str).
Proof.
  induction calls as [|c calls IH]; intros h; [reflexivity|].
  cbn [for_each attempt]. unfold bind. rewrite client_call_spec.
  destruct (f h c); [reflexivity|apply IH].
Qed.

Lemma attempt_app (f : list BLE.ble_call → BLE.ble_call → bool) (l1 l2 : list BLE.ble_call) :
  ∀ h,
  attempt f h (l1 ++ l2)
  = if snd (attempt f h l1) then attempt f (fst (attempt f h l1)) l2
    else (fst (attempt f h l1), false).
Proof.
  induction l1 as [|c l1 IH]; intros h; [reflexivity|].
  cbn [app attempt]. destruct (f h c); [reflexivity|apply IH].
Qed.

Lemma subscribe_eeg_loop (eeg_callbacks : list string) (l : list (string * string))
    (f : list BLE.ble_call → BLE.ble_call → bool) (conn str : bool) : ∀ h,
  for_each l
    (fun p : string * string =>
       let (channel_name, uuid) := p in
       if bool_decide (channel_name ∈ eeg_callbacks)
       then BLE.client_call (BLE.StartNotify uuid)
       else ret tt)
    (BLE.mkBLE (Some (BLE.mkBleak f h)) conn str)
  = for_each
      (List.map (fun p : string * string => BLE.StartNotify (snd p))
         (List.filter (fun p : string * string => bool_decide (fst p ∈ eeg_callbacks)) l))
      BLE.client_call
      (BLE.mkBLE (Some (BLE.mkBleak f h)) conn str).
Proof.
  induction l as [|[name uuid] l IH]; intros h; [reflexivity|].
  cbn [for_each List.filter fst snd].
  destruct (bool_decide (name ∈ eeg_callbacks)).
  - cbn [List.map for_each snd]. unfold bind. rewrite client_call_spec.
    destruct (f h (BLE.StartNotify uuid)); [reflexivity|apply IH].
  - unfold bind at 1. cbn. apply IH.
Qed.

Lemma subscribe_steps
    (eeg_callbacks : list string) (f : list BLE.ble_call → BLE.ble_call → bool)
    (h : list BLE.ble_call) (str : bool) :
  BLEMore.subscribe_to_sensors eeg_callbacks (BLE.mkBLE (Some (BLE.mkBleak f h)) true str)
  = (Ok (snd (attempt f h (subscriptions eeg_callbacks))),
     BLE.mkBLE (Some (BLE.mkBleak f (fst (attempt f h (subscriptions eeg_callbacks)))))
       true str).
Proof.
  unfold BLEMore.subscribe_to_sensors, subscriptions. cbn [BLE._connected BLE.client].
  unfold try_except, bind at 1. rewrite subscribe_eeg_loop, for_each_attempt, attempt_app.
  destruct (attempt f h _) as [h1 ok1]. cbn [fst snd].
  destruct ok1; [|reflexivity].
  unfold bind. rewrite client_call_spec. cbn [attempt].
  destruct (f h1 _); [reflexivity|]. rewrite client_call_spec.
  destruct (f (h1 ++ _) _); reflexivity.
Qed.

Lemma stream_control_steps
    (f : list BLE.ble_call → BLE.ble_call → bool) (h : list BLE.ble_call) :
  let start := [BLE.WriteGattChar Constants.CONTROL_UUID BLEMore.CMD_PRESET_P21;
                BLE.WriteGattChar Constants.CONTROL_UUID BLEMore.CMD_START_STREAM] in
  let stop := [BLE.WriteGattChar Constants.CONTROL_UUID BLE.CMD_STOP_STREAM] in
  BLEMore.start_streaming (BLE.mkBLE (Some (BLE.mkBleak f h)) true false)
  = (Ok (snd (attempt f h start)),
     BLE.mkBLE (Some (BLE.mkBleak f (fst (attempt f h start)))) true (snd (attempt f h start)))
  ∧ BLEMore.start_streaming (BLE.mkBLE (Some (BLE.mkBleak f h)) true true)
    = (Ok true, BLE.mkBLE (Some (BLE.mkBleak f h)) true true)
  ∧ BLE.stop_streaming (BLE.mkBLE (Some (BLE.mkBleak f h)) true true)
    = (Ok (snd (attempt f h stop)),
       BLE.mkBLE (Some (BLE.mkBleak f (fst (attempt f h stop)))) true
         (negb (snd (attempt f h stop))))
  ∧ BLE.stop_streaming (BLE.mkBLE (Some (BLE.mkBleak f h)) true false)
    = (Ok true, BLE.mkBLE (Some (BLE.mkBleak f h)) true false).
Proof.
  cbn zeta. split; [|split; [reflexivity|split; [|reflexivity]]].
  - unfold BLEMore.start_streaming. cbn [BLE._connected BLE.client BLE._streaming].
    unfold try_except, bind. rewrite client_call_spec. cbn [attempt].
    destruct (f h _); [reflexivity|]. rewrite client_call_spec.
    destruct (f (h ++ _) _); reflexivity.
  - unfold BLE.stop_streaming. cbn [BLE._connected BLE.client BLE._streaming negb].
    unfold try_except, bind. rewrite client_call_spec. cbn [attempt].
    destruct (f h _); reflexivity.
Qed.

(** X11. On a connected client [subscribe_to_sensors] asks for the
    notifications of the EEG channels that have a callback, in the order
    TP9, AF7, AF8, TP10, then of the accelerometer, then of the
    gyroscope; it stops at the first request that raises (the later
    ones are not made, the earlier ones are not undone), returns [True]
    exactly when none raised, and never raises itself. *)
Theorem subscribe_to_sensors_trace
    (eeg_callbacks : list string) (f : list BLE.ble_call → BLE.ble_call → bool)
    (h : list BLE.ble_call) (str : bool) :
  BLEMore.subscribe_to_sensors eeg_callbacks (BLE.mkBLE (Some (BLE.mkBleak f h)) true str)
  = (Ok (snd (attempt f h (subscriptions eeg_callbacks))),
     BLE.mkBLE (Some (BLE.mkBleak f (fst (attempt f h (subscriptions eeg_callbacks)))))
       true str).
Proof. apply subscribe_steps. Qed.

(** X12. On a connected client that is not streaming, [start_streaming]
    writes the preset command and then the start command to the control
    characteristic; if the first write raises the second is not made;
    it returns [True] and sets the streaming flag exactly when both
    writes returned.  On a client that is already streaming it returns
    [True] without any write.  [stop_streaming] writes the stop command
    once and clears the flag exactly when the write returned. *)
Theorem stream_control_trace
    (f : list BLE.ble_call → BLE.ble_call → bool) (h : list BLE.ble_call) :
  let start := [BLE.WriteGattChar Constants.CONTROL_UUID BLEMore.CMD_PRESET_P21;
                BLE.WriteGattChar Constants.CONTROL_UUID BLEMore.CMD_START_STREAM] in
  let stop := [BLE.WriteGattChar Constants.CONTROL_UUID BLE.CMD_STOP_STREAM] in
  BLEMore.start_streaming (BLE.mkBLE (Some (BLE.mkBleak f h)) true false)
  = (Ok (snd (attempt f h start)),
     BLE.mkBLE (Some (BLE.mkBleak f (fst (attempt f h start)))) true (snd (attempt f h start)))
  ∧ BLEMore.start_streaming (BLE.mkBLE (Some (BLE.mkBleak f h)) true true)
    = (Ok true, BLE.mkBLE (Some (BLE.mkBleak f h)) true true)
  ∧ BLE.stop_streaming (BLE.mkBLE (Some (BLE.mkBleak f h)) true true)
    = (Ok (snd (attempt f h stop)),
       BLE.mkBLE (Some (BLE.mkBleak f (fst (attempt f h stop)))) true
         (negb (snd (attempt f h stop))))
  ∧ BLE.stop_streaming (BLE.mkBLE (Some (BLE.mkBleak f h)) true false)
    = (Ok true, BLE.mkBLE (Some (BLE.mkBleak f h)) true false).
Proof. apply stream_control_steps. Qed.

(** X13. [keep_alive] never raises and never changes the flags; on a
    connected client it makes exactly one call, the write of the
    keep-alive command (an exception of that write is swallowed), and
    otherwise none. *)
Theorem keep_alive_silent (c : BLE.MuseBLEClient) :
  fst (BLEMore.keep_alive c) = Ok tt
  ∧ BLE._connected (snd (BLEMore.keep_alive c)) = BLE._connected c
  ∧ BLE._streaming (snd (BLEMore.keep_alive c)) = BLE._streaming c
  ∧ calls_made (snd (BLEMore.keep_alive c))
    = calls_made c
      ++ (if BLE._connected c && LSLMore.is_not_None (BLE.client c)
          then [BLE.WriteGattChar Constants.CONTROL_UUID BLEMore.CMD_KEEP_ALIVE]
          else []).
Proof.
  destruct c as [[[f h]|] conn str]; destruct conn; unfold BLEMore.keep_alive, calls_made;
    cbn [BLE._connected BLE.client BLE._streaming andb LSLMore.is_not_None fst snd];
    rewrite ?app_nil_r; try (repeat split; reflexivity).
  unfold try_except. rewrite client_call_spec. destruct (f h _); repeat split; reflexivity.
Qed.

(** X14. Before a connection exists (or after it was given up) the
    three commands that need one raise [RuntimeError] and the two that
    tolerate its absence return, and none of them touches the client:
    no call reaches the radio stack and no flag changes. *)
Theorem not_connected_guards (c : BLE.MuseBLEClient) (eeg_callbacks : list string) :
  disconnected c →
  BLEMore.subscribe_to_sensors eeg_callbacks c = (Raise RuntimeError, c)
  ∧ BLEMore.start_streaming c = (Raise RuntimeError, c)
  ∧ BLE.stop_streaming c = (Raise RuntimeError, c)
  ∧ BLEMore.keep_alive c = (Ok tt, c)
  ∧ BLE.disconnect c = (Ok tt, c).
Proof.
  intros [H|H]; destruct c as [cl conn str]; cbn in H; subst;
    unfold BLEMore.subscribe_to_sensors, BLEMore.start_streaming, BLE.stop_streaming,
      BLEMore.keep_alive, BLE.disconnect; cbn [BLE._connected BLE.client].
  - repeat split; reflexivity.
  - destruct conn; repeat split; reflexivity.
Qed.

Lemma not_connected_guards_witness :
  BLEMore.subscribe_to_sensors ["TP9"%string] (BLE.mkBLE None false false)
  = (Raise RuntimeError, BLE.mkBLE None false false)
  ∧ BLEMore.start_streaming (BLE.mkBLE None false false)
    = (Raise RuntimeError, BLE.mkBLE None false false)
  ∧ BLE.stop_streaming (BLE.mkBLE None false false)
    = (Raise RuntimeError, BLE.mkBLE None false false)
  ∧ BLEMore.keep_alive (BLE.mkBLE None false false) = (Ok tt, BLE.mkBLE None false false)
  ∧ BLE.disconnect (BLE.mkBLE None false false) = (Ok tt, BLE.mkBLE None false false).
Proof.
  apply (not_connected_guards (BLE.mkBLE None false false) ["TP9"%string]).
  left. reflexivity.
Defined.

(** ** The teardown, call by call *)

Lemma disconnect_steps (f : list BLE.ble_call → BLE.ble_call → bool)
    (h : list BLE.ble_call) (str : bool) :
  BLE.disconnect (BLE.mkBLE (Some (BLE.mkBleak f h)) true str)
  = (Ok tt,
     BLE.mkBLE
       (Some (BLE.mkBleak f (before_close f h str ++ [BLE.ClientDisconnect])))
       (f (before_close f h str) BLE.ClientDisconnect)
       (f (before_close f h str) BLE.ClientDisconnect && snd (after_stop f h str))).
Proof.
  unfold BLE.disconnect, before_close, after_stop.
  cbn [BLE._connected BLE.client BLE._streaming].
  unfold try_except at 1. unfold bind at 1.
  assert (Hstop :
    (if str then (do _r <- BLE.stop_streaming; ret tt)%M else ret tt)
      (BLE.mkBLE (Some (BLE.mkBleak f h)) true str)
    = (Ok tt,
       BLE.mkBLE (Some (BLE.mkBleak f (fst (after_stop f h str)))) true
         (snd (after_stop f h str)))).
  { unfold after_stop. destruct str; [|reflexivity].
    unfold bind, BLE.stop_streaming. cbn [BLE._connected BLE.client BLE._streaming negb].
    unfold try_except, bind. rewrite client_call_spec.
    destruct (f h _); reflexivity. }
  unfold after_stop in Hstop. rewrite Hstop. clear Hstop.
  set (h1 := fst (if str then _ else _)). set (str1 := snd (if str then _ else _)).
  unfold bind at 1.
  assert (Heeg : ∀ uuids h0,
    for_each uuids
      (fun uuid => try_except (BLE.client_call (BLE.StopNotify uuid)) (fun _ => ret tt))
      (BLE.mkBLE (Some (BLE.mkBleak f h0)) true str1)
    = (Ok tt, BLE.mkBLE (Some (BLE.mkBleak f (h0 ++ List.map BLE.StopNotify uuids))) true str1)).
  { induction uuids as [|u uuids IH]; intros h0.
    - cbn. rewrite app_nil_r. reflexivity.
    - cbn [for_each List.map]. unfold bind, try_except. rewrite client_call_spec.
      destruct (f h0 _); cbn [ret]; rewrite IH, <- app_assoc; reflexivity. }
  rewrite Heeg. clear Heeg.
  set (h2 := h1 ++ _).
  unfold bind at 1. unfold try_except at 1. unfold bind at 1.
  rewrite client_call_spec. cbn [attempt].
  destruct (f h2 (BLE.StopNotify Constants.ACCELEROMETER_UUID)).
  - cbn [ret fst]. unfold bind. rewrite client_call_spec.
    destruct (f _ BLE.ClientDisconnect); reflexivity.
  - rewrite client_call_spec.
    destruct (f (h2 ++ _) (BLE.StopNotify Constants.GYROSCOPE_UUID)); cbn [ret fst];
      unfold bind; rewrite client_call_spec;
      destruct (f _ BLE.ClientDisconnect); reflexivity.
Qed.

(** X15. [disconnect] on a connected client, call by call: the stop
    command is written if the client is streaming; the four EEG
    unsubscriptions are all made whether or not one raises; the
    accelerometer unsubscription is made, and the gyroscope one only if
    the accelerometer one returned; then the link close is always
    attempted, as the last call.  The client ends marked disconnected
    and not streaming exactly when the link close returned; otherwise
    it stays marked connected, and streaming if the stop write had
    raised. *)
Theorem disconnect_trace
    (f : list BLE.ble_call → BLE.ble_call → bool) (h : list BLE.ble_call) (str : bool) :
  BLE.disconnect (BLE.mkBLE (Some (BLE.mkBleak f h)) true str)
  = (Ok tt,
     BLE.mkBLE
       (Some (BLE.mkBleak f (before_close f h str ++ [BLE.ClientDisconnect])))
       (f (before_close f h str) BLE.ClientDisconnect)
       (f (before_close f h str) BLE.ClientDisconnect && snd (after_stop f h str))).
Proof. apply disconnect_steps. Qed.

(** ** Starting and stopping the streamer *)

Lemma set_ble_client_eta (s : CustomMuseStreamer) : set_ble_client (ble_client s) s = s.
Proof. destruct s; reflexivity. Qed.

Lemma attempt_ok (f : list BLE.ble_call → BLE.ble_call → bool) (calls : list BLE.ble_call) :
  ∀ h, snd (attempt f h calls) = true → fst (attempt f h calls) = h ++ calls.
Proof.
  induction calls as [|c calls IH]; intros h H.
  - cbn. symmetry. apply app_nil_r.
  - cbn [attempt] in *. destruct (f h c); [discriminate|].
    rewrite (IH _ H), <- app_assoc. reflexivity.
Qed.

Lemma start_steps (f : list BLE.ble_call → BLE.ble_call → bool) (h : list BLE.ble_call)
    (s : CustomMuseStreamer) (c0 : option BLE.BleakClient) :
  _running s = false →
  ble_client s = BLE.mkBLE c0 false false →
  StreamerMore.start (Ok (Some (BLE.mkBleak f h))) (Ok true) s
  = if snd (attempt f h start_calls) then
      (Ok true,
       set_keep_alive_task (Some TaskPending)
         (set_running true
            (set_ble_client
               (BLE.mkBLE (Some (BLE.mkBleak f (fst (attempt f h start_calls)))) true true)
               (with_streams s))))
    else
      (Ok false,
       set_ble_client
         (snd (BLE.disconnect
                 (BLE.mkBLE (Some (BLE.mkBleak f (fst (attempt f h start_calls)))) true false)))
         (with_streams s)).
Proof.
  intros Hr Hb. unfold StreamerMore.start. rewrite Hr.
  unfold bind at 1. unfold zoom at 1. rewrite Hb.
  unfold BLEMore.connect, BLE.set_flags.
  cbn [BLE._connected BLE._streaming BLE.client negb].
  unfold bind at 1. unfold zoom at 1.
  destruct (LSL.create_streams (lsl_streamer (set_ble_client _ s))) as [r l1] eqn:Ec.
  assert (Hl1 : r = Ok tt ∧ l1 = snd (LSL.create_streams (lsl_streamer s))).
  { cbn in Ec. unfold LSL.create_streams in *.
    destruct (LSL._streams_created (lsl_streamer s)); injection Ec as <- <-; split; reflexivity. }
  destruct Hl1 as [-> ->].
  unfold bind at 1. unfold zoom at 1. cbn [ble_client set_lsl_streamer set_ble_client].
  rewrite subscribe_steps.
  unfold start_calls, Constants.EEG_CHANNEL_NAMES. rewrite attempt_app.
  destruct (attempt f h (subscriptions _)) as [h1 ok1].
  cbn [fst snd]. destruct ok1; cbn [negb].
  - unfold bind at 1. unfold zoom at 1. cbn [ble_client set_lsl_streamer set_ble_client].
    destruct (stream_control_steps f h1) as (Hstart & _). cbn zeta in Hstart.
    rewrite Hstart. clear Hstart.
    destruct (attempt f h1 _) as [h2 ok2]. cbn [fst snd]. destruct ok2; cbn [negb].
    + unfold bind, modify, ret. cbn. unfold with_streams. destruct s; reflexivity.
    + unfold bind, zoom, ret. cbn [ble_client set_lsl_streamer set_ble_client].
      pose proof (disconnect_never_raises
                    (BLE.mkBLE (Some (BLE.mkBleak f h2)) true false)) as Hd.
      destruct (BLE.disconnect _) as [rd cd]. cbn in Hd. subst rd.
      cbn. unfold with_streams. destruct s; reflexivity.
  - unfold bind, zoom, ret. cbn [ble_client set_lsl_streamer set_ble_client].
    pose proof (disconnect_never_raises
                  (BLE.mkBLE (Some (BLE.mkBleak f h1)) true false)) as Hd.
    destruct (BLE.disconnect _) as [rd cd]. cbn in Hd. subst rd.
    cbn. unfold with_streams. destruct s; reflexivity.
Qed.

(** X16. [start] without a reachable headband: when the scan finds no
    device, [start] returns [False] and changes nothing (no outlet is
    created); when the scan itself raises, [start] raises the same
    exception, since the scan is outside every [try]; when a device is
    found but the connection attempt raises or leaves the link down,
    [start] returns [False] with only the client object stored: still
    not connected, not running, no outlet created. *)
Theorem start_without_device
    (s : CustomMuseStreamer) (handshake : result bool) (e : exn)
    (cl : BLE.BleakClient) :
  _running s = false →
  BLE._connected (ble_client s) = false →
  StreamerMore.start (Ok None) handshake s = (Ok false, s)
  ∧ StreamerMore.start (Raise e) handshake s = (Raise e, s)
  ∧ (handshake ≠ Ok true →
     StreamerMore.start (Ok (Some cl)) handshake s
     = (Ok false,
        set_ble_client
          (BLE.mkBLE (Some cl) false (BLE._streaming (ble_client s))) s)).
Proof.
  intros Hr Hc. destruct s as [[c conn str] l r k pc b t]. cbn in Hr, Hc. subst r conn.
  split; [reflexivity|]. split; [reflexivity|].
  intros Hh. destruct handshake as [[]|e']; [contradiction|reflexivity|reflexivity].
Qed.

Lemma start_without_device_witness :
  StreamerMore.start (Ok None) (Ok false) init = (Ok false, init)
  ∧ StreamerMore.start (Raise BleakError) (Ok false) init = (Raise BleakError, init)
  ∧ (Ok false ≠ Ok true →
     StreamerMore.start (Ok (Some (BLE.mkBleak (fun _ _ => false) []))) (Ok false) init
     = (Ok false,
        set_ble_client
          (BLE.mkBLE (Some (BLE.mkBleak (fun _ _ => false) [])) false
             (BLE._streaming (ble_client init))) init)).
Proof.
  apply (start_without_device init (Ok false) BleakError (BLE.mkBleak (fun _ _ => false) []));
    reflexivity.
Defined.

(** X17. [start] with a headband that connects and a radio stack on
    which none of the eight calls raises: the calls made are the
    subscriptions to TP9, AF7, AF8, TP10, accelerometer and gyroscope,
    then the preset write, then the start write, in this order; [start]
    returns [True] with the outlets created, the client connected and
    streaming, the streamer running and a keep-alive task pending; the
    pending-frame table and the counters are as before.  A second
    [start] then returns [True] and changes nothing. *)
Theorem start_success
    (f : list BLE.ble_call → BLE.ble_call → bool) (h : list BLE.ble_call)
    (s : CustomMuseStreamer) (c0 : option BLE.BleakClient)
    (scan : result (option BLE.BleakClient)) (handshake : result bool) :
  _running s = false →
  ble_client s = BLE.mkBLE c0 false false →
  snd (attempt f h start_calls) = true →
  let s' := set_keep_alive_task (Some TaskPending)
              (set_running true
                 (set_ble_client
                    (BLE.mkBLE (Some (BLE.mkBleak f (h ++ start_calls))) true true)
                    (with_streams s))) in
  StreamerMore.start (Ok (Some (BLE.mkBleak f h))) (Ok true) s = (Ok true, s')
  ∧ StreamerMore.start scan handshake s' = (Ok true, s')
  ∧ start_calls
    = [BLE.StartNotify Constants.EEG_TP9_UUID; BLE.StartNotify Constants.EEG_AF7_UUID;
       BLE.StartNotify Constants.EEG_AF8_UUID; BLE.StartNotify Constants.EEG_TP10_UUID;
       BLE.StartNotify Constants.ACCELEROMETER_UUID;
       BLE.StartNotify Constants.GYROSCOPE_UUID;
       BLE.WriteGattChar Constants.CONTROL_UUID BLEMore.CMD_PRESET_P21;
       BLE.WriteGattChar Constants.CONTROL_UUID BLEMore.CMD_START_STREAM].
Proof.
  intros Hr Hb Hok s'. split; [|split; [reflexivity|reflexivity]].
  rewrite (start_steps f h s c0 Hr Hb), Hok. subst s'.
  rewrite (attempt_ok f start_calls h Hok). reflexivity.
Qed.

Lemma start_success_witness :
  let s' := set_keep_alive_task (Some TaskPending)
              (set_running true
                 (set_ble_client
                    (BLE.mkBLE (Some (BLE.mkBleak (fun _ _ => false) ([] ++ start_calls)))
                       true true)
                    (with_streams init))) in
  StreamerMore.start (Ok (Some (BLE.mkBleak (fun _ _ => false) []))) (Ok true) init
  = (Ok true, s')
  ∧ StreamerMore.start (Ok None) (Ok false) s' = (Ok true, s')
  ∧ start_calls
    = [BLE.StartNotify Constants.EEG_TP9_UUID; BLE.StartNotify Constants.EEG_AF7_UUID;
       BLE.StartNotify Constants.EEG_AF8_UUID; BLE.StartNotify Constants.EEG_TP10_UUID;
       BLE.StartNotify Constants.ACCELEROMETER_UUID;
       BLE.StartNotify Constants.GYROSCOPE_UUID;
       BLE.WriteGattChar Constants.CONTROL_UUID BLEMore.CMD_PRESET_P21;
       BLE.WriteGattChar Constants.CONTROL_UUID BLEMore.CMD_START_STREAM].
Proof.
  apply (start_success (fun _ _ => false) [] init None (Ok None) (Ok false)); reflexivity.
Defined.

(** X18. [start] with a headband that connects but a radio stack on
    which one of the eight calls raises: [start] returns [False], the
    streamer is not running and no keep-alive task is created; the
    teardown of the link was run, so the last call made is the link
    close and the client is not streaming; but the LSL outlets that
    were created before the subscriptions stay created: [start] does
    not close them on this path. *)
Theorem start_failure
    (f : list BLE.ble_call → BLE.ble_call → bool) (h : list BLE.ble_call)
    (s : CustomMuseStreamer) (c0 : option BLE.BleakClient) :
  _running s = false →
  ble_client s = BLE.mkBLE c0 false false →
  snd (attempt f h start_calls) = false →
  ∃ s' h',
    StreamerMore.start (Ok (Some (BLE.mkBleak f h))) (Ok true) s = (Ok false, s')
    ∧ _running s' = false
    ∧ _keep_alive_task s' = _keep_alive_task s
    ∧ lsl_streamer s' = snd (LSL.create_streams (lsl_streamer s))
    ∧ LSL._streams_created (lsl_streamer s') = true
    ∧ calls_made (ble_client s') = h' ++ [BLE.ClientDisconnect]
    ∧ BLE._streaming (ble_client s') = false
    ∧ BLE._connected (ble_client s') = f h' BLE.ClientDisconnect.
Proof.
  intros Hr Hb Hbad. rewrite (start_steps f h s c0 Hr Hb), Hbad.
  rewrite disconnect_steps. cbn [snd].
  eexists. exists (before_close f (fst (attempt f h start_calls)) false).
  split; [reflexivity|]. cbn [_running _keep_alive_task lsl_streamer ble_client
    set_ble_client with_streams set_lsl_streamer].
  split; [exact Hr|]. split; [reflexivity|]. split; [reflexivity|].
  split; [apply create_streams_created|]. split; [reflexivity|].
  split; [|reflexivity]. cbn. apply andb_false_r.
Qed.

Lemma start_failure_witness :
  ∃ s' h',
    StreamerMore.start
      (Ok (Some (BLE.mkBleak gyro_subscription_faults []))) (Ok true) init = (Ok false, s')
    ∧ _running s' = false
    ∧ _keep_alive_task s' = _keep_alive_task init
    ∧ lsl_streamer s' = snd (LSL.create_streams (lsl_streamer init))
    ∧ LSL._streams_created (lsl_streamer s') = true
    ∧ calls_made (ble_client s') = h' ++ [BLE.ClientDisconnect]
    ∧ BLE._streaming (ble_client s') = false
    ∧ BLE._connected (ble_client s') = gyro_subscription_faults h' BLE.ClientDisconnect.
Proof.
  apply (start_failure gyro_subscription_faults [] init None); reflexivity.
Defined.

Lemma stop_running (s : CustomMuseStreamer) :
  _running s = true →
  stop s
  = (Ok tt,
     mkStreamer (snd (BLE.disconnect (ble_client s)))
       (snd (LSL.close_streams (lsl_streamer s)))
       false
       (option_map (fun _ => TaskCancelled) (_keep_alive_task s))
       (_packet_counts s) (_eeg_buffer s) (_eeg_timestamps s)).
Proof.
  intros Hr. unfold stop. rewrite Hr. cbn [negb].
  destruct s as [b l r k pc buf t]. cbn in Hr. subst r.
  pose proof (disconnect_never_raises b) as Hd.
  unfold bind, modify, get, zoom, ret.
  destruct k as [k|]; cbn; destruct (BLE.disconnect b) as [rd b']; cbn in Hd; subst rd; cbn;
    unfold LSL.close_streams; destruct (LSL._streams_created l); reflexivity.
Qed.

(** X19. [stop] on a running streamer returns normally with the
    streamer not running, the keep-alive task (if any) cancelled, the
    BLE client as [disconnect] leaves it and the outlets closed.  It
    does not touch the pending-frame table, the first-arrival stamps or
    the packet counters: frames that were incomplete at the stop are
    still pending afterwards. *)
Theorem stop_outcome (s : CustomMuseStreamer) :
  _running s = true →
  stop s
  = (Ok tt,
     mkStreamer (snd (BLE.disconnect (ble_client s)))
       (snd (LSL.close_streams (lsl_streamer s)))
       false
       (option_map (fun _ => TaskCancelled) (_keep_alive_task s))
       (_packet_counts s) (_eeg_buffer s) (_eeg_timestamps s)).
Proof. apply stop_running. Qed.

Lemma stop_outcome_witness :
  stop (set_running true example_pending)
  = (Ok tt,
     mkStreamer (snd (BLE.disconnect (ble_client (set_running true example_pending))))
       (snd (LSL.close_streams (lsl_streamer (set_running true example_pending))))
       false
       (option_map (fun _ => TaskCancelled)
          (_keep_alive_task (set_running true example_pending)))
       (_packet_counts (set_running true example_pending))
       (_eeg_buffer (set_running true example_pending))
       (_eeg_timestamps (set_running true example_pending))).
Proof. apply (stop_outcome (set_running true example_pending)). reflexivity. Defined.

Lemma attempt_sound (calls : list BLE.ble_call) : ∀ h,
  attempt (fun _ _ => false) h calls = (h ++ calls, true).
Proof.
  induction calls as [|c calls IH]; intros h.
  - cbn. rewrite app_nil_r. reflexivity.
  - cbn [attempt]. rewrite IH, <- app_assoc. reflexivity.
Qed.

(** X28. A full cycle on a radio stack that never raises: [start]
    followed by [stop] makes, in this order, the six subscriptions, the
    preset and start writes, the stop write, the six unsubscriptions
    and the link close; afterwards the client is neither connected nor
    streaming, the outlets are gone, the streamer is not running and
    its keep-alive task is cancelled, while the pending-frame table and
    the counters are those from before the [start].  The streamer can
    then be started again. *)
Theorem start_stop_cycle
    (h : list BLE.ble_call) (s : CustomMuseStreamer) (c0 : option BLE.BleakClient) :
  _running s = false →
  ble_client s = BLE.mkBLE c0 false false →
  let link := BLE.mkBleak (fun _ _ => false) h in
  let s1 := snd (StreamerMore.start (Ok (Some link)) (Ok true) s) in
  let s2 := snd (stop s1) in
  fst (StreamerMore.start (Ok (Some link)) (Ok true) s) = Ok true
  ∧ fst (stop s1) = Ok tt
  ∧ ble_client s2
    = BLE.mkBLE
        (Some (BLE.mkBleak (fun _ _ => false)
                 (h ++ start_calls
                    ++ BLE.WriteGattChar Constants.CONTROL_UUID BLE.CMD_STOP_STREAM
                       :: teardown_calls)))
        false false
  ∧ lsl_streamer s2 = LSL.mkLSL None None None false
  ∧ _running s2 = false
  ∧ _keep_alive_task s2 = Some TaskCancelled
  ∧ _packet_counts s2 = _packet_counts s
  ∧ _eeg_buffer s2 = _eeg_buffer s
  ∧ _eeg_timestamps s2 = _eeg_timestamps s
  ∧ fst (StreamerMore.start (Ok (Some (BLE.mkBleak (fun _ _ => false) []))) (Ok true) s2)
    = Ok true.
Proof.
  intros Hr Hb link s1 s2.
  assert (Hs1 : StreamerMore.start (Ok (Some link)) (Ok true) s
                = (Ok true,
                   set_keep_alive_task (Some TaskPending)
                     (set_running true
                        (set_ble_client
                           (BLE.mkBLE (Some (BLE.mkBleak (fun _ _ => false) (h ++ start_calls)))
                              true true)
                           (with_streams s))))).
  { subst link. rewrite (start_steps _ h s c0 Hr Hb), attempt_sound. reflexivity. }
  subst s2 s1. rewrite Hs1. cbn [fst snd].
  rewrite stop_running by reflexivity. cbn [fst snd].
  cbn [ble_client lsl_streamer _running _keep_alive_task _packet_counts _eeg_buffer
       _eeg_timestamps set_keep_alive_task set_running set_ble_client with_streams
       set_lsl_streamer option_map].
  rewrite disconnect_steps.
  assert (Hbc : before_close (fun _ _ => false) (h ++ start_calls) true
                = h ++ start_calls
                    ++ BLE.WriteGattChar Constants.CONTROL_UUID BLE.CMD_STOP_STREAM
                       :: removelast teardown_calls).
  { unfold before_close, after_stop. cbn [fst]. rewrite attempt_sound. cbn [fst].
    rewrite <- !app_assoc. reflexivity. }
  rewrite Hbc. cbn [snd andb].
  assert (Hlsl : snd (LSL.close_streams (snd (LSL.create_streams (lsl_streamer s))))
                 = LSL.mkLSL None None None false).
  { unfold LSL.close_streams. rewrite create_streams_created. reflexivity. }
  rewrite Hlsl.
  split; [reflexivity|]. split; [reflexivity|]. split.
  { rewrite <- !app_assoc. reflexivity. }
  do 6 (split; [reflexivity|]).
  rewrite (start_steps _ [] _ (Some (BLE.mkBleak (fun _ _ => false)
             ((h ++ start_calls
                 ++ BLE.WriteGattChar Constants.CONTROL_UUID BLE.CMD_STOP_STREAM
                    :: removelast teardown_calls) ++ [BLE.ClientDisconnect]))));
    [|reflexivity|reflexivity].
  rewrite attempt_sound. reflexivity.
Qed.

Lemma start_stop_cycle_witness :
  let link := BLE.mkBleak (fun _ _ => false) [] in
  let s1 := snd (StreamerMore.start (Ok (Some link)) (Ok true) init) in
  let s2 := snd (stop s1) in
  fst (StreamerMore.start (Ok (Some link)) (Ok true) init) = Ok true
  ∧ fst (stop s1) = Ok tt
  ∧ ble_client s2
    = BLE.mkBLE
        (Some (BLE.mkBleak (fun _ _ => false)
                 ([] ++ start_calls
                    ++ BLE.WriteGattChar Constants.CONTROL_UUID BLE.CMD_STOP_STREAM
                       :: teardown_calls)))
        false false
  ∧ lsl_streamer s2 = LSL.mkLSL None None None false
  ∧ _running s2 = false
  ∧ _keep_alive_task s2 = Some TaskCancelled
  ∧ _packet_counts s2 = _packet_counts init
  ∧ _eeg_buffer s2 = _eeg_buffer init
  ∧ _eeg_timestamps s2 = _eeg_timestamps init
  ∧ fst (StreamerMore.start (Ok (Some (BLE.mkBleak (fun _ _ => false) []))) (Ok true) s2)
    = Ok true.
Proof. apply (start_stop_cycle [] init None); reflexivity. Defined.

(** ** The recording loop over any sequence of pulls *)

Lemma rows_from_app (play : float) (l1 l2 : list (list float * float)) : ∀ idx,
  rows_from play idx (l1 ++ l2)
  = rows_from play idx l1 ++ rows_from play (idx + Z.of_nat (length l1)) l2.
Proof.
  induction l1 as [|[sample t] l1 IH]; intros idx.
  - cbn. rewrite Z.add_0_r. reflexivity.
  - cbn [app rows_from length]. rewrite IH. cbn. do 3 f_equal. lia.
Qed.

Lemma rows_from_index (play : float) (l : list (list float * float)) : ∀ idx j row,
  rows_from play idx l !! j = Some row → Recording.sample_index row = idx + Z.of_nat j.
Proof.
  induction l as [|[sample t] l IH]; intros idx j row H; [discriminate|].
  destruct j as [|j]; cbn in H.
  - injection H as <-. cbn. lia.
  - rewrite (IH _ _ _ H). lia.
Qed.

Lemma samples_of_cons (k : string) (p : string * (list (list float) * list float))
    (pulls : list (string * (list (list float) * list float))) :
  samples_of k (p :: pulls)
  = (if bool_decide (fst p = k) then combine (fst (snd p)) (snd (snd p)) else [])
    ++ samples_of k pulls.
Proof. reflexivity. Qed.

Lemma lookup_initial {V} (v : V) (l : list string) (k : string) :
  (list_to_map (List.map (fun k => (k, v)) l) : gmap string V) !! k
  = if bool_decide (k ∈ l) then Some v else None.
Proof.
  induction l as [|x l IH].
  - cbn. rewrite lookup_empty. rewrite bool_decide_eq_false_2 by apply not_elem_of_nil.
    reflexivity.
  - cbn [List.map]. rewrite list_to_map_cons.
    destruct (decide (k = x)) as [->|Hne].
    + rewrite lookup_insert_eq, bool_decide_eq_true_2; [reflexivity|].
      apply elem_of_cons. left. reflexivity.
    + rewrite lookup_insert_ne by congruence. rewrite IH.
      destruct (decide (k ∈ l)) as [Hin|Hnin].
      * rewrite !bool_decide_eq_true_2; [reflexivity| |exact Hin].
        apply elem_of_cons. right. exact Hin.
      * rewrite !bool_decide_eq_false_2; [reflexivity| |exact Hnin].
        rewrite elem_of_cons. tauto.
Qed.

Lemma recording_pulls (play pre : float) (pulls : list (string * (list (list float) * list float))) :
  ∀ st : Recording.loop_state,
  Forall (fun p => is_Some (Recording.writers st !! fst p)
                   ∧ is_Some (Recording.sample_indices st !! fst p)) pulls →
  ∃ st',
    for_each pulls
      (fun p : string * (list (list float) * list float) =>
         let (stype, ct) := p in
         let (chunk, ts) := ct in
         match chunk with
         | [] => ret tt
         | _ => Recording.record_chunk play pre stype chunk ts
         end) st = (Ok tt, st')
    ∧ (∀ k, Recording.writers st' !! k
            = (λ rows, rows ++ rows_from play
                                 (default 0 (Recording.sample_indices st !! k))
                                 (List.filter (written play pre) (samples_of k pulls)))
              <$> Recording.writers st !! k)
    ∧ (∀ k, Recording.sample_indices st' !! k
            = (λ idx, idx + Z.of_nat (length (List.filter (written play pre)
                                                (samples_of k pulls))))
              <$> Recording.sample_indices st !! k).
Proof.
  induction pulls as [|[stype [chunk ts]] pulls IH]; intros st Hall.
  - exists st. split; [reflexivity|]. split; intros k; cbn.
    + destruct (Recording.writers st !! k); cbn; [rewrite app_nil_r|]; reflexivity.
    + destruct (Recording.sample_indices st !! k); cbn; [rewrite Z.add_0_r|]; reflexivity.
  - apply Forall_cons in Hall as [[[rows Hw] [idx Hi]] Hall]. cbn [fst] in Hw, Hi.
    cbn [for_each]. unfold bind at 1.
    assert (Hstep :
      match chunk with
      | [] => ret tt
      | _ => Recording.record_chunk play pre stype chunk ts
      end st
      = (Ok tt,
         Recording.mkLoop
           (<[stype := rows ++ rows_from play idx
                                 (List.filter (written play pre) (combine chunk ts))]>
              (Recording.writers st))
           (<[stype := idx + Z.of_nat (length (List.filter (written play pre)
                                                 (combine chunk ts)))]>
              (Recording.sample_indices st)))).
    { destruct chunk as [|c0 chunk'].
      - cbn. unfold ret. f_equal. destruct st as [w si]. cbn in *.
        rewrite app_nil_r, Z.add_0_r, !insert_id by assumption. reflexivity.
      - apply (record_chunk_spec play pre stype (combine (c0 :: chunk') ts) st rows idx Hw Hi). }
    rewrite Hstep. clear Hstep.
    set (kept1 := List.filter (written play pre) (combine chunk ts)).
    set (st1 := Recording.mkLoop _ _).
    destruct (IH st1) as (st' & Hrun & Hwr & Hsi).
    { eapply Forall_impl; [exact Hall|]. intros p [Hpw Hpi]. subst st1. cbn.
      destruct (decide (fst p = stype)) as [->|Hne].
      - rewrite !lookup_insert_eq. split; eexists; reflexivity.
      - rewrite !lookup_insert_ne by congruence. split; assumption. }
    exists st'. split; [exact Hrun|]. split; intros k.
    + rewrite Hwr. subst st1. cbn [Recording.writers Recording.sample_indices].
      rewrite samples_of_cons. cbn [fst snd].
      destruct (decide (stype = k)) as [->|Hne].
      * rewrite !lookup_insert_eq, Hw, Hi. cbn.
        rewrite bool_decide_eq_true_2 by reflexivity.
        rewrite List.filter_app, rows_from_app, <- app_assoc. reflexivity.
      * rewrite !lookup_insert_ne by exact Hne.
        rewrite bool_decide_eq_false_2 by exact Hne. reflexivity.
    + rewrite Hsi. subst st1. cbn [Recording.writers Recording.sample_indices].
      rewrite samples_of_cons. cbn [fst snd].
      destruct (decide (stype = k)) as [->|Hne].
      * rewrite !lookup_insert_eq, Hi. cbn.
        rewrite bool_decide_eq_true_2 by reflexivity.
        rewrite List.filter_app, length_app. f_equal. subst kept1.
        rewrite Nat2Z.inj_add. lia.
      * rewrite !lookup_insert_ne by exact Hne.
        rewrite bool_decide_eq_false_2 by exact Hne. reflexivity.
Qed.

(** X20. The recording loop over any sequence of pulls from the
    configured streams: the loop ends normally, and the file of each
    stream holds exactly the samples of that stream for which the
    loop's test [rel_t < -pre_roll] is false, in the order pulled,
    whatever the interleaving with the other streams;
    their sample indices are 0, 1, 2, ... without gap, and the stream's
    next index is the number of rows written.  Nothing is recorded for a
    stream that is not configured. *)
Theorem recording_loop_files
    (info : Recording.SpotifyTrackInfo) (pre : float) (stream_types : list string)
    (pulls : list (string * (list (list float) * list float))) :
  Forall (fun p => fst p ∈ stream_types) pulls →
  let play := Recording.started_at_lsl info in
  ∃ st,
    Recording.recording_loop (Some info) pre stream_types pulls = Ok st
    ∧ (∀ k, k ∈ stream_types →
         Recording.writers st !! k
         = Some (rows_from play 0 (List.filter (written play pre) (samples_of k pulls)))
         ∧ Recording.sample_indices st !! k
           = Some (Z.of_nat (length (List.filter (written play pre) (samples_of k pulls)))))
    ∧ (∀ k, k ∉ stream_types → Recording.writers st !! k = None)
    ∧ (∀ k rows j row, Recording.writers st !! k = Some rows → rows !! j = Some row →
         Recording.sample_index row = Z.of_nat j).
Proof.
  intros Hall play. unfold Recording.recording_loop. fold play.
  set (st0 := Recording.mkLoop _ _).
  destruct (recording_pulls play pre pulls st0) as (st & Hrun & Hw & Hi).
  { eapply Forall_impl; [exact Hall|]. intros p Hp. subst st0. cbn.
    rewrite !lookup_initial, !bool_decide_eq_true_2 by exact Hp.
    split; eexists; reflexivity. }
  rewrite Hrun. exists st. split; [reflexivity|].
  assert (Hin : ∀ k, k ∈ stream_types →
            Recording.writers st !! k
            = Some (rows_from play 0 (List.filter (written play pre) (samples_of k pulls)))).
  { intros k Hk. rewrite Hw. subst st0. cbn.
    rewrite !lookup_initial, !bool_decide_eq_true_2 by exact Hk. reflexivity. }
  assert (Hout : ∀ k, k ∉ stream_types → Recording.writers st !! k = None).
  { intros k Hk. rewrite Hw. subst st0. cbn.
    rewrite !lookup_initial, !bool_decide_eq_false_2 by exact Hk. reflexivity. }
  split; [|split; [exact Hout|]].
  - intros k Hk. split; [apply Hin, Hk|].
    rewrite Hi. subst st0. cbn.
    rewrite !lookup_initial, !bool_decide_eq_true_2 by exact Hk. reflexivity.
  - intros k rows j row Hrows Hj.
    destruct (decide (k ∈ stream_types)) as [Hk|Hk].
    + rewrite (Hin k Hk) in Hrows. injection Hrows as <-.
      rewrite (rows_from_index _ _ _ _ _ Hj). lia.
    + rewrite (Hout k Hk) in Hrows. discriminate.
Qed.

Lemma recording_loop_files_witness :
  Recording.recording_loop (Some (Recording.mkTrack 0 3)) 2 ["EEG"; "ACC"]%string example_pulls
  = Ok (Recording.mkLoop
          {[ "EEG"%string :=
               [Recording.mkRow 0 0x1.fffffffffffffp-1 (-2) [1; 1; 1; 1]%float;
                Recording.mkRow 1 1.5 (-1.5) [2; 2; 2; 2]%float;
                Recording.mkRow 2 4 1 [3; 3; 3; 3]%float];
             "ACC"%string := [] ]}
          {[ "EEG"%string := 3; "ACC"%string := 0 ]})
  ∧ ∃ st,
      Recording.recording_loop (Some (Recording.mkTrack 0 3)) 2 ["EEG"; "ACC"]%string
        example_pulls = Ok st
      ∧ (∀ k, k ∈ ["EEG"; "ACC"]%string →
           Recording.writers st !! k
           = Some (rows_from 3 0 (List.filter (written 3 2) (samples_of k example_pulls)))
           ∧ Recording.sample_indices st !! k
             = Some (Z.of_nat (length (List.filter (written 3 2)
                                         (samples_of k example_pulls)))))
      ∧ (∀ k, k ∉ ["EEG"; "ACC"]%string → Recording.writers st !! k = None)
      ∧ (∀ k rows j row, Recording.writers st !! k = Some rows → rows !! j = Some row →
           Recording.sample_index row = Z.of_nat j).
Proof.
  split; [vm_compute; reflexivity|].
  apply (recording_loop_files (Recording.mkTrack 0 3) 2 ["EEG"; "ACC"]%string example_pulls).
  repeat (apply Forall_cons; split; [apply (bool_decide_unpack _); reflexivity|]).
  apply Forall_nil_2.
Defined.

(** ** Stream discovery *)

Section DiscoveryFacts.
Import Discovery.

Lemma scan_streams_inv (P : gmap string StreamInfo → Prop) (lsl_types : list string)
    (all_streams : list StreamInfo) : ∀ found,
  P found →
  (∀ found info, P found → info ∈ all_streams → info_type info ∈ lsl_types →
     found !! info_type info = None → P (<[info_type info := info]> found)) →
  P (scan_streams lsl_types all_streams found).
Proof.
  unfold scan_streams. induction all_streams as [|info rest IH]; intros found HP Hstep.
  - exact HP.
  - cbn [fold_left]. apply IH.
    + destruct (bool_decide (info_type info ∈ lsl_types)) eqn:E1; cbn [andb]; [|exact HP].
      destruct (bool_decide (is_Some (found !! info_type info))) eqn:E2; cbn [negb];
        [exact HP|].
      apply Hstep.
      * exact HP.
      * apply elem_of_cons. left. reflexivity.
      * apply bool_decide_eq_true in E1. exact E1.
      * apply bool_decide_eq_false in E2. apply eq_None_not_Some. exact E2.
    + intros f i Hf Hi. apply Hstep; [exact Hf|]. apply elem_of_cons. right. exact Hi.
Qed.

Lemma wait_loop_inv (P : gmap string StreamInfo → Prop) (lsl_types : list string)
    (rounds : list (list StreamInfo)) : ∀ found,
  P found →
  (∀ found info r, P found → r ∈ rounds → info ∈ r → info_type info ∈ lsl_types →
     found !! info_type info = None → P (<[info_type info := info]> found)) →
  P (wait_loop lsl_types rounds found).
Proof.
  induction rounds as [|r rounds IH]; intros found HP Hstep; [exact HP|].
  cbn [wait_loop]. destruct (size found <? length lsl_types)%nat; [|exact HP].
  apply IH.
  - apply scan_streams_inv; [exact HP|].
    intros f i Hf Hi. apply (Hstep f i r Hf). apply elem_of_cons. left. reflexivity. exact Hi.
  - intros f i r' Hf Hr'. apply (Hstep f i r' Hf). apply elem_of_cons. right. exact Hr'.
Qed.

Lemma wait_loop_found (lsl_types : list string) (rounds : list (list StreamInfo)) :
  ∀ k info, wait_loop lsl_types rounds ∅ !! k = Some info →
    k ∈ lsl_types ∧ info_type info = k ∧ ∃ r, r ∈ rounds ∧ info ∈ r.
Proof.
  apply (wait_loop_inv
           (fun found => ∀ k info, found !! k = Some info →
              k ∈ lsl_types ∧ info_type info = k ∧ ∃ r, r ∈ rounds ∧ info ∈ r)).
  - intros k info H. rewrite lookup_empty in H. discriminate.
  - intros found info r HP Hr Hi Ht Hnone k info' Hk.
    destruct (decide (k = info_type info)) as [->|Hne].
    + rewrite lookup_insert_eq in Hk. injection Hk as <-.
      split; [exact Ht|]. split; [reflexivity|]. exists r. split; assumption.
    + rewrite lookup_insert_ne in Hk by congruence. apply HP, Hk.
Qed.

Lemma wait_loop_keeps (lsl_types : list string) (rounds : list (list StreamInfo))
    (found : gmap string StreamInfo) (k : string) (info : StreamInfo) :
  found !! k = Some info → wait_loop lsl_types rounds found !! k = Some info.
Proof.
  intros Hk.
  apply (wait_loop_inv (fun f => f !! k = Some info)); [exact Hk|].
  intros f i r Hf _ _ _ Hnone.
  rewrite lookup_insert_ne; [exact Hf|]. intros <-. rewrite Hnone in Hf. discriminate.
Qed.

(** X21. What [wait_for_lsl_streams] returns: the EEG stream is always
    among the inlets, so a call that does not ask for EEG can only
    raise; every inlet returned is of a requested type, is filed under
    its own type and belongs to a stream that one of the resolve rounds
    listed. *)
Theorem wait_for_lsl_streams_result
    (lsl_types : list string) (rounds : list (list StreamInfo))
    (found : gmap string StreamInfo) :
  wait_for_lsl_streams lsl_types rounds = Ok found →
  is_Some (found !! "EEG"%string)
  ∧ "EEG"%string ∈ lsl_types
  ∧ (∀ k info, found !! k = Some info →
       k ∈ lsl_types ∧ info_type info = k ∧ ∃ r, r ∈ rounds ∧ info ∈ r).
Proof.
  unfold wait_for_lsl_streams.
  destruct (wait_loop lsl_types rounds ∅ !! "EEG"%string) as [eeg|] eqn:E; [|discriminate].
  intros [= <-]. split; [rewrite E; eexists; reflexivity|].
  split; [apply (wait_loop_found lsl_types rounds _ _ E)|].
  apply wait_loop_found.
Qed.

Lemma wait_for_lsl_streams_result_witness :
  is_Some (({[ "EEG"%string := mkInfo "EEG" "Muse-EEG" ]} : gmap string StreamInfo)
             !! "EEG"%string)
  ∧ "EEG"%string ∈ ["EEG"; "ACC"]%string
  ∧ (∀ k info,
       ({[ "EEG"%string := mkInfo "EEG" "Muse-EEG" ]} : gmap string StreamInfo) !! k
       = Some info →
       k ∈ ["EEG"; "ACC"]%string ∧ info_type info = k
       ∧ ∃ r, r ∈ [[mkInfo "PPG" "other"; mkInfo "EEG" "Muse-EEG"; mkInfo "EEG" "second"]]
              ∧ info ∈ r).
Proof.
  apply (wait_for_lsl_streams_result ["EEG"; "ACC"]%string
           [[mkInfo "PPG" "other"; mkInfo "EEG" "Muse-EEG"; mkInfo "EEG" "second"]]).
  vm_compute. reflexivity.
Defined.

(** X22. Discovery never replaces an inlet: a stream type that has an
    inlet keeps that inlet through every later stream of the same type
    and every later resolve round, so of several streams of one type
    the first one listed is the one recorded.  Once as many types are
    found as were asked for, no further round is made. *)
Theorem discovery_first_wins
    (lsl_types : list string) (rounds : list (list StreamInfo))
    (found : gmap string StreamInfo) (k : string) (info : StreamInfo) :
  found !! k = Some info →
  wait_loop lsl_types rounds found !! k = Some info
  ∧ (∀ all_streams, scan_streams lsl_types all_streams found !! k = Some info)
  ∧ ((length lsl_types ≤ size found)%nat → wait_loop lsl_types rounds found = found).
Proof.
  intros Hk. split; [apply wait_loop_keeps, Hk|]. split.
  - intros all_streams.
    apply (scan_streams_inv (fun f => f !! k = Some info)); [exact Hk|].
    intros f i Hf _ _ Hnone.
    rewrite lookup_insert_ne; [exact Hf|]. intros <-. rewrite Hnone in Hf. discriminate.
  - intros Hfull. destruct rounds as [|r rounds]; [reflexivity|].
    cbn [wait_loop]. destruct (Nat.ltb_spec (size found) (length lsl_types)); [lia|reflexivity].
Qed.

Lemma discovery_first_wins_witness :
  wait_loop ["EEG"%string] [[mkInfo "EEG" "second"]]
    {[ "EEG"%string := mkInfo "EEG" "first" ]} !! "EEG"%string
  = Some (mkInfo "EEG" "first")
  ∧ (∀ all_streams,
       scan_streams ["EEG"%string] all_streams {[ "EEG"%string := mkInfo "EEG" "first" ]}
         !! "EEG"%string = Some (mkInfo "EEG" "first"))
  ∧ ((length ["EEG"%string] ≤ size ({[ "EEG"%string := mkInfo "EEG" "first" ]}
                                     : gmap string StreamInfo))%nat →
     wait_loop ["EEG"%string] [[mkInfo "EEG" "second"]]
       {[ "EEG"%string := mkInfo "EEG" "first" ]}
     = {[ "EEG"%string := mkInfo "EEG" "first" ]}).
Proof.
  apply (discovery_first_wins ["EEG"%string] [[mkInfo "EEG" "second"]]
           {[ "EEG"%string := mkInfo "EEG" "first" ]} "EEG" (mkInfo "EEG" "first")).
  reflexivity.
Defined.

End DiscoveryFacts.

(** ** Play detection *)

Section PlayDetection.
Import Spotify.

Lemma wait_loop_first (polls : list poll) : ∀ last_track_id,
  wait_loop polls last_track_id false
  = p ← List.find playing polls; track_info_of p.
Proof.
  induction polls as [|p polls IH]; intros last; [reflexivity|].
  destruct p as [[[[it|] [] progress]|] now_l now_u]; cbn [wait_loop List.find];
    unfold playing at 1;
    cbn [poll_playback pb_item pb_is_playing pb_progress_ms LSLMore.is_not_None andb negb];
    try apply IH.
  reflexivity.
Qed.

(** X23. [wait_for_spotify_play] returns at the first poll that shows a
    track that is playing, with that poll's two clock readings as the
    reference event, and keeps waiting while no poll does.  It does so
    also when that poll is the very first one: music already playing
    when the recorder is armed is taken as the start.  The track-change
    test is never what ends the wait. *)
Theorem wait_for_spotify_play_first (polls : list poll) :
  wait_for_spotify_play polls = p ← List.find playing polls; track_info_of p.
Proof. apply wait_loop_first. Qed.

End PlayDetection.

(** ** Decoding loses nothing *)

Lemma uint_inj (bs1 : list bool) : ∀ bs2,
  length bs1 = length bs2 → uint bs1 = uint bs2 → bs1 = bs2.
Proof.
  induction bs1 as [|b1 bs1 IH]; intros [|b2 bs2] Hl Hu; try discriminate; [reflexivity|].
  cbn [length] in Hl. injection Hl as Hl.
  rewrite !uint_cons, <- Hl in Hu.
  pose proof (uint_bound bs1) as B1. pose proof (uint_bound bs2) as B2. rewrite <- Hl in B2.
  destruct b1, b2; cbn [Z.b2z] in Hu; try lia; f_equal; apply IH; try assumption; lia.
Qed.

Lemma int_inj (bs1 bs2 : list bool) :
  length bs1 = length bs2 → int bs1 = int bs2 → bs1 = bs2.
Proof.
  intros Hl Hi. apply uint_inj; [exact Hl|].
  pose proof (uint_bound bs1) as B1. pose proof (uint_bound bs2) as B2.
  unfold int in Hi. rewrite <- Hl in *.
  destruct bs1 as [|[] bs1], bs2 as [|[] bs2]; try discriminate; lia.
Qed.

Lemma interp_inj (t : token) (bs1 bs2 : list bool) :
  length bs1 = length bs2 → interp t bs1 = interp t bs2 → bs1 = bs2.
Proof. destruct t; cbn [interp]; [apply uint_inj|apply int_inj]. Qed.

Lemma fields_at_inj (pattern : list token) (bits1 bits2 : list bool) : ∀ off,
  length bits1 = length bits2 →
  (off + total_width pattern ≤ length bits1)%nat →
  fields_at bits1 off pattern = fields_at bits2 off pattern →
  firstn (total_width pattern) (skipn off bits1)
  = firstn (total_width pattern) (skipn off bits2).
Proof.
  induction pattern as [|t rest IH]; intros off Hl Hle Hf; [reflexivity|].
  cbn [fields_at total_width fold_right] in *. fold (total_width rest) in *.
  injection Hf as Hhd Htl.
  rewrite <- !take_take_drop, !drop_drop. f_equal.
  - apply (interp_inj t); [|exact Hhd].
    rewrite !length_take, !length_drop. lia.
  - apply IH; [exact Hl|lia|exact Htl].
Qed.

Lemma byte_Z_inj (b1 b2 : Byte.byte) : byte_Z b1 = byte_Z b2 → b1 = b2.
Proof.
  unfold byte_Z. intros H. apply N2Z.inj in H.
  pose proof (Byte.of_to_N b1) as H1. rewrite H, Byte.of_to_N in H1. congruence.
Qed.

Lemma Bits_inj (d1 : list Byte.byte) : ∀ d2, Bits d1 = Bits d2 → d1 = d2.
Proof.
  induction d1 as [|b1 d1 IH]; intros [|b2 d2] H; try reflexivity.
  - pose proof (length_Bits (b2 :: d2)) as L. rewrite <- H in L. cbn in L. lia.
  - pose proof (length_Bits (b1 :: d1)) as L. rewrite H in L. cbn in L. lia.
  - unfold Bits in H. cbn [flat_map] in H.
    apply app_inj_1 in H as [Hb Hd]; [|rewrite !length_bits_of_byte; reflexivity].
    f_equal; [|apply IH, Hd].
    apply byte_Z_inj. rewrite <- !uint_bits_of_byte, Hb. reflexivity.
Qed.

Lemma packet_of_fields (pattern : list token) (d1 d2 : list Byte.byte) :
  length d1 = 20%nat → length d2 = 20%nat → total_width pattern = 160%nat →
  fields_at (Bits d1) 0 pattern = fields_at (Bits d2) 0 pattern → d1 = d2.
Proof.
  intros H1 H2 Hw Hf. apply Bits_inj.
  assert (L1 : length (Bits d1) = 160%nat) by (rewrite length_Bits, H1; reflexivity).
  assert (L2 : length (Bits d2) = 160%nat) by (rewrite length_Bits, H2; reflexivity).
  pose proof (fields_at_inj pattern (Bits d1) (Bits d2) 0) as H.
  rewrite L1, L2, Hw in H. specialize (H eq_refl (Nat.le_refl _) Hf).
  change (firstn 160 (Bits d1) = firstn 160 (Bits d2)) in H.
  rewrite <- L1 in H at 1. rewrite <- L2 in H. rewrite !firstn_all in H. exact H.
Qed.

Lemma map_inj {X Y} (f : X → Y) (l1 : list X) : ∀ l2,
  (∀ x y, f x = f y → x = y) → List.map f l1 = List.map f l2 → l1 = l2.
Proof.
  induction l1 as [|x l1 IH]; intros [|y l2] Hf H; try discriminate; [reflexivity|].
  cbn in H. injection H as Hx Hl. f_equal; [apply Hf, Hx|apply IH; assumption].
Qed.

Lemma inject_Z_inj (a b : Z) : inject_Z a = inject_Z b → a = b.
Proof. intros [= H]. exact H. Qed.

Lemma eeg_scale_inj (v w : Q) :
  (EEG_SCALE_FACTOR * (v - 2048))%Q = (EEG_SCALE_FACTOR * (w - 2048))%Q → v = w.
Proof.
  destruct v as [vn vd], w as [wn wd].
  unfold EEG_SCALE_FACTOR, Qmult, Qminus, Qplus, Qopp. cbn [Qnum Qden].
  intros [= Hn Hd]. assert (vd = wd) by lia. subst wd. f_equal. lia.
Qed.

Lemma imu_scale_inj (n : Z) (d : positive) (v w : Q) :
  n ≠ 0 → (v * (n # d))%Q = (w * (n # d))%Q → v = w.
Proof.
  intros Hn0. destruct v as [vn vd], w as [wn wd].
  unfold Qmult. cbn [Qnum Qden]. intros [= Hn Hd].
  apply Pos.mul_reg_r in Hd. apply Z.mul_reg_r in Hn; [|exact Hn0]. congruence.
Qed.

Lemma length_fields_at (bits : list bool) (pattern : list token) : ∀ off,
  length (fields_at bits off pattern) = length pattern.
Proof. induction pattern as [|t rest IH]; intros off; cbn; [reflexivity|rewrite IH; reflexivity]. Qed.

Lemma reshape_F_33_inj (l1 l2 : list Q) (m : list (list Q)) :
  length l1 = 9%nat → length l2 = 9%nat →
  reshape_F 3 3 l1 = Ok m → reshape_F 3 3 l2 = Ok m → l1 = l2.
Proof.
  intros H1 H2.
  do 10 (destruct l1 as [|? l1]; try discriminate H1).
  do 10 (destruct l2 as [|? l2]; try discriminate H2).
  cbn. intros [= <-] [= -> -> -> -> -> -> -> -> ->]. reflexivity.
Qed.

Lemma parse_eeg_packet_fields (data : list Byte.byte) :
  length data = 20%nat →
  parse_eeg_packet data
  = match fields_at (Bits data) 0 eeg_pattern with
    | [] => Raise IndexError
    | packet_index :: rest =>
        Ok (packet_index,
            List.map (fun r => EEG_SCALE_FACTOR * (r - 2048))%Q (float_array rest))
    end.
Proof.
  intros Hl. unfold parse_eeg_packet. rewrite Hl. cbn [Nat.eqb negb].
  change (Bits data) with (skipn 0 (Bits data)) at 1.
  rewrite unpack_fields by (rewrite length_Bits, Hl; cbn; lia). reflexivity.
Qed.

Lemma parse_imu_packet_fields (data : list Byte.byte) :
  length data = 20%nat →
  parse_acc_packet data
  = match fields_at (Bits data) 0 imu_pattern with
    | [] => Raise IndexError
    | packet_index :: rest =>
        (let* samples := reshape_F 3 3 (float_array rest) in
         Ok (packet_index, List.map (List.map (fun v => v * ACC_SCALE_FACTOR)%Q) samples))%res
    end
  ∧ parse_gyro_packet data
    = match fields_at (Bits data) 0 imu_pattern with
      | [] => Raise IndexError
      | packet_index :: rest =>
          (let* samples := reshape_F 3 3 (float_array rest) in
           Ok (packet_index,
               List.map (List.map (fun v => v * GYRO_SCALE_FACTOR)%Q) samples))%res
      end.
Proof.
  intros Hl. unfold parse_acc_packet, parse_gyro_packet. rewrite Hl. cbn [Nat.eqb negb].
  change (Bits data) with (skipn 0 (Bits data)) at 1 3.
  rewrite unpack_fields by (rewrite length_Bits, Hl; cbn; lia). split; reflexivity.
Qed.

Lemma imu_fields_inj (n : Z) (d : positive) (f1 f2 : list Z) :
  n ≠ 0 → length f1 = 10%nat → length f2 = 10%nat →
  match f1 with
  | [] => Raise IndexError
  | packet_index :: rest =>
      (let* samples := reshape_F 3 3 (float_array rest) in
       Ok (packet_index, List.map (List.map (fun v => v * (n # d))%Q) samples))%res
  end
  = match f2 with
    | [] => Raise IndexError
    | packet_index :: rest =>
        (let* samples := reshape_F 3 3 (float_array rest) in
         Ok (packet_index, List.map (List.map (fun v => v * (n # d))%Q) samples))%res
    end →
  f1 = f2.
Proof.
  intros Hn H1 H2 H.
  destruct f1 as [|i1 r1]; [discriminate H1|]. destruct f2 as [|i2 r2]; [discriminate H2|].
  cbn [length] in H1, H2. injection H1 as H1. injection H2 as H2.
  assert (L1 : length (float_array r1) = 9%nat) by (unfold float_array; rewrite length_map; exact H1).
  assert (L2 : length (float_array r2) = 9%nat) by (unfold float_array; rewrite length_map; exact H2).
  destruct (reshape_F 3 3 (float_array r1)) as [m1|e1] eqn:E1;
    [|unfold reshape_F in E1; rewrite L1 in E1; discriminate E1].
  destruct (reshape_F 3 3 (float_array r2)) as [m2|e2] eqn:E2;
    [|unfold reshape_F in E2; rewrite L2 in E2; discriminate E2].
  cbn [rbind] in H. injection H as Hi Hm. subst i2.
  apply map_inj in Hm;
    [|intros x y Hxy; apply (map_inj _ _ _ (fun v w => imu_scale_inj n d v w Hn) Hxy)].
  subst m2. f_equal.
  apply (map_inj inject_Z); [apply inject_Z_inj|].
  apply (reshape_F_33_inj _ _ m1 L1 L2 E1 E2).
Qed.

Lemma decoders_injective (d1 d2 : list Byte.byte) :
  length d1 = 20%nat →
  length d2 = 20%nat →
  (parse_eeg_packet d1 = parse_eeg_packet d2 → d1 = d2)
  ∧ (parse_acc_packet d1 = parse_acc_packet d2 → d1 = d2)
  ∧ (parse_gyro_packet d1 = parse_gyro_packet d2 → d1 = d2).
Proof.
  intros H1 H2. split; [|split]; intros H.
  - rewrite !parse_eeg_packet_fields in H by assumption.
    apply (packet_of_fields eeg_pattern); [assumption|assumption|reflexivity|].
    pose proof (length_fields_at (Bits d1) eeg_pattern 0) as L1.
    pose proof (length_fields_at (Bits d2) eeg_pattern 0) as L2.
    destruct (fields_at (Bits d1) 0 eeg_pattern) as [|i1 r1]; [discriminate L1|].
    destruct (fields_at (Bits d2) 0 eeg_pattern) as [|i2 r2]; [discriminate L2|].
    injection H as Hi Hs. f_equal; [exact Hi|].
    apply map_inj in Hs; [|apply eeg_scale_inj].
    apply (map_inj inject_Z); [apply inject_Z_inj|exact Hs].
  - rewrite (proj1 (parse_imu_packet_fields d1 H1)),
      (proj1 (parse_imu_packet_fields d2 H2)) in H.
    apply (packet_of_fields imu_pattern); [assumption|assumption|reflexivity|].
    apply (imu_fields_inj 610352 10000000000);
      [discriminate|apply length_fields_at|apply length_fields_at|exact H].
  - rewrite (proj2 (parse_imu_packet_fields d1 H1)),
      (proj2 (parse_imu_packet_fields d2 H2)) in H.
    apply (packet_of_fields imu_pattern); [assumption|assumption|reflexivity|].
    apply (imu_fields_inj 74768 10000000);
      [discriminate|apply length_fields_at|apply length_fields_at|exact H].
Qed.

(** X24. The three decoders lose nothing: two different 20-byte packets
    never decode to the same result, whichever decoder reads them (every
    one of the 160 bits takes part in the sequence index or in a sample,
    and the scaling is one-to-one). *)
Theorem decoding_injective (d1 d2 : list Byte.byte) :
  length d1 = 20%nat →
  length d2 = 20%nat →
  d1 ≠ d2 →
  parse_eeg_packet d1 ≠ parse_eeg_packet d2
  ∧ parse_acc_packet d1 ≠ parse_acc_packet d2
  ∧ parse_gyro_packet d1 ≠ parse_gyro_packet d2.
Proof.
  intros H1 H2 Hne. destruct (decoders_injective d1 d2 H1 H2) as (He & Ha & Hg).
  split; [|split]; intros H; apply Hne; auto.
Qed.

Lemma decoding_injective_witness :
  parse_eeg_packet example_eeg_packet ≠ parse_eeg_packet example_eeg_packet_last_bit
  ∧ parse_acc_packet example_eeg_packet ≠ parse_acc_packet example_eeg_packet_last_bit
  ∧ parse_gyro_packet example_eeg_packet ≠ parse_gyro_packet example_eeg_packet_last_bit.
Proof.
  apply (decoding_injective example_eeg_packet example_eeg_packet_last_bit).
  - reflexivity.
  - reflexivity.
  - discriminate.
Defined.

(** ** The outlets only grow *)

Lemma outlets_grow_refl (l : LSL.MuseLSLStreamer) : outlets_grow l l.
Proof. intros m o H. exists []. rewrite app_nil_r. split; [exact H|apply Forall_nil_2]. Qed.

Lemma outlets_grow_trans (l1 l2 l3 : LSL.MuseLSLStreamer) :
  outlets_grow l1 l2 → outlets_grow l2 l3 → outlets_grow l1 l3.
Proof.
  intros H12 H23 m o H. destruct (H12 m o H) as (n1 & E1 & F1).
  destruct (H23 m _ E1) as (n2 & E2 & F2).
  exists (n1 ++ n2). rewrite app_assoc. split; [exact E2|apply Forall_app; split; assumption].
Qed.

Lemma outlets_grow_push (m : modality) (l : LSL.MuseLSLStreamer) (o : LSL.StreamOutlet)
    (new : list (list Q * Q)) :
  outlet_of m l = Some o →
  Forall (fun r : list Q * Q => length (fst r) = channel_count m) new →
  outlets_grow l (with_outlet m (o ++ new) l).
Proof.
  intros Ho Hn m' o' Ho'.
  destruct m, m'; cbn in *;
    try (exists []; rewrite app_nil_r; split; [exact Ho'|apply Forall_nil_2]);
    rewrite Ho in Ho'; injection Ho' as <-; exists new; (split; [reflexivity|exact Hn]).
Qed.

Lemma published_frame_rows (tp9 af7 af8 tp10 : list Q) (t : Q) :
  Forall (fun r : list Q * Q => length (fst r) = 4%nat) (published_frame tp9 af7 af8 tp10 t).
Proof.
  unfold published_frame. apply Forall_forall. intros r Hr.
  apply list_elem_of_fmap in Hr as (k & -> & _). reflexivity.
Qed.

Lemma interpolated_rows (tps t : Q) (samples : list (list Q)) (n : nat) :
  Forall (fun r => length r = n) samples →
  Forall (fun r : list Q * Q => length (fst r) = n) (interpolated tps t samples).
Proof.
  intros Hs. unfold interpolated. apply Forall_forall. intros r Hr.
  apply list_elem_of_fmap in Hr as ([k sample] & -> & Hin). cbn.
  apply list_elem_of_In, in_combine_r, list_elem_of_In in Hin.
  apply (proj1 (Forall_forall _ _) Hs _ Hin).
Qed.

Lemma process_outlets (ch : string) (i : Z) (x : list Q) (clock : Q) (s : CustomMuseStreamer) :
  table_ok s → ch ∈ Constants.EEG_CHANNEL_NAMES → length x = 12%nat →
  outlets_grow (lsl_streamer s) (lsl_streamer (snd (_process_eeg_packet ch i x clock s))).
Proof.
  intros Hok Hch Hx.
  destruct (decide (size (<[ch := x]> (default ∅ (_eeg_buffer s !! i))) = 4%nat)) as [Hsz|Hsz].
  - destruct (eeg_ready s) eqn:Er.
    + destruct (process_publishes ch i x clock s Hok Hch Hx Er Hsz)
        as (tp9 & af7 & af8 & tp10 & t & _ & _ & Hrun).
      rewrite Hrun. cbn [snd].
      unfold eeg_ready, LSLMore.is_not_None in Er.
      destruct (LSL.eeg_outlet (lsl_streamer s)) as [o|] eqn:Eo;
        [|rewrite andb_false_r in Er; discriminate].
      assert (Hl : lsl_streamer (retain (publish (published_frame tp9 af7 af8 tp10 t)
                                            (store ch i x clock s)))
                   = with_outlet EEG (o ++ published_frame tp9 af7 af8 tp10 t)
                       (lsl_streamer s)).
      { unfold retain. destruct (10 <? _)%nat; cbn; rewrite Eo; reflexivity. }
      rewrite Hl. apply outlets_grow_push; [exact Eo|apply published_frame_rows].
    + pose proof (proj2 (proj1 (proj2 (process_eeg_packet_cases ch i x clock s Hok Hch Hx)))
                    (conj Hsz Er)) as Hraise.
      pose proof (keeps_process_eeg_packet _packet_counts ch i x clock
                    (fun _ _ => eq_refl) (fun _ _ => eq_refl) (fun _ _ => eq_refl) s) as _.
      assert (Hfr : frame_ok (<[ch := x]> (default ∅ (_eeg_buffer s !! i)))).
      { apply (proj2 (table_ok_store ch i x clock s Hok Hch Hx) i).
        unfold store. cbn. apply lookup_insert_eq. }
      destruct (frame_ok_full _ Hfr Hsz)
        as (tp9 & af7 & af8 & tp10 & H9 & H7 & H8 & H10 & L9 & L7 & L8 & L10).
      assert (Ht : is_Some (_eeg_timestamps (store ch i x clock s) !! i)).
      { apply (proj1 (table_ok_store ch i x clock s Hok Hch Hx) i).
        unfold store. cbn. rewrite lookup_insert_eq. eexists; reflexivity. }
      destruct Ht as [t Ht].
      rewrite (process_complete_unready ch i x clock s tp9 af7 af8 tp10 t Er Hsz
                 H9 H7 H8 H10 L9 L7 L8 L10 Ht).
      apply outlets_grow_refl.
  - rewrite (process_incomplete ch i x clock s Hsz). apply outlets_grow_refl.
Qed.

Lemma count_packet_lsl (k : string) (s : CustomMuseStreamer) :
  lsl_streamer (snd (count_packet k s)) = lsl_streamer s.
Proof. rewrite count_packet_spec. destruct (_packet_counts s !! k); reflexivity. Qed.

Lemma eeg_callback_outlets (ch : string) (data : list Byte.byte) (clock : Q)
    (s : CustomMuseStreamer) :
  table_ok s → ch ∈ Constants.EEG_CHANNEL_NAMES →
  outlets_grow (lsl_streamer s)
    (lsl_streamer
       (snd (try_except
               (do r <- lift_result (parse_eeg_packet data);
                _process_eeg_packet ch (fst r) (snd r) clock ;;
                count_packet ch)%M
               (fun _ => ret tt) s))).
Proof.
  intros Hok Hch. unfold try_except, bind at 1, lift_result.
  destruct (parse_eeg_packet data) as [r|e] eqn:Ep; [|apply outlets_grow_refl].
  pose proof (parse_eeg_packet_length data r Ep) as Hlen.
  pose proof (process_outlets ch (fst r) (snd r) clock s Hok Hch Hlen) as Hg.
  unfold bind.
  destruct (_process_eeg_packet ch (fst r) (snd r) clock s) as [[[]|e] s1]; cbn [snd] in Hg.
  - pose proof (count_packet_lsl ch s1) as Hc.
    destruct (count_packet ch s1) as [[[]|e] s2]; cbn -[outlets_grow] in *;
      rewrite Hc; exact Hg.
  - exact Hg.
Qed.

Lemma parse_imu_rows (data : list Byte.byte) (r : Z * list (list Q)) :
  parse_acc_packet data = Ok r ∨ parse_gyro_packet data = Ok r →
  (1 < length (snd r))%nat ∧ Forall (fun row => length row = 3%nat) (snd r).
Proof.
  unfold parse_acc_packet, parse_gyro_packet.
  destruct (Nat.eqb_spec (length data) 20) as [Hl|]; [|intros [?|?]; discriminate].
  cbn [negb]. change (Bits data) with (skipn 0 (Bits data)).
  rewrite unpack_fields by (rewrite length_Bits, Hl; cbn; lia).
  cbn [rbind imu_pattern repeat fields_at].
  intros [[= <-]|[= <-]]; (split; [cbn; lia|repeat constructor]).
Qed.

Lemma imu_callback_outlets (m : modality) (parse : result (Z * list (list Q)))
    (k : string) (clock : Q) (s : CustomMuseStreamer) :
  m ≠ EEG →
  (∀ r, parse = Ok r →
     (1 < length (snd r))%nat ∧ Forall (fun row => length row = 3%nat) (snd r)) →
  outlets_grow (lsl_streamer s)
    (lsl_streamer
       (snd (try_except
               (do r <- lift_result parse;
                zoom lsl_streamer set_lsl_streamer (push_chunk m (snd r) (Some clock) clock) ;;
                count_packet k)%M
               (fun _ => ret tt) s))).
Proof.
  intros Hm Hrows. unfold try_except, bind at 1, lift_result.
  destruct parse as [r|e]; [|apply outlets_grow_refl].
  destruct (Hrows r eq_refl) as [Hlen Hw].
  unfold bind, zoom.
  assert (Hpush : outlets_grow (lsl_streamer s)
                    (snd (push_chunk m (snd r) (Some clock) clock (lsl_streamer s)))).
  { destruct (LSL._streams_created (lsl_streamer s)) eqn:Ec;
      [|rewrite push_chunk_not_created by exact Ec; apply outlets_grow_refl].
    destruct (outlet_of m (lsl_streamer s)) as [o|] eqn:Eo.
    - assert (Hcc : Forall (fun row => length row = channel_count m) (snd r))
        by (destruct m; [contradiction|exact Hw|exact Hw]).
      assert (Hto : LSL.push_chunk_to (channel_count m) (nominal_rate m) (snd r) clock o
                    = (Ok tt, o ++ interpolated (1 / inject_Z (nominal_rate m)) clock (snd r))).
      { unfold LSL.push_chunk_to. apply Nat.ltb_lt in Hlen. rewrite Hlen.
        apply push_interpolated_app. exact Hcc. }
      assert (Hrun : push_chunk m (snd r) (Some clock) clock (lsl_streamer s)
                     = (Ok tt, with_outlet m
                                 (o ++ interpolated (1 / inject_Z (nominal_rate m)) clock (snd r))
                                 (lsl_streamer s))).
      { rewrite (push_chunk_run m _ o _ clock clock Ec Eo), Hto. reflexivity. }
      rewrite Hrun. cbn [snd]. apply outlets_grow_push; [exact Eo|].
      apply interpolated_rows. destruct m; [contradiction|exact Hw|exact Hw].
    - assert (Hrun : push_chunk m (snd r) (Some clock) clock (lsl_streamer s)
                     = (Raise RuntimeError, lsl_streamer s)).
      { destruct m; cbn [push_chunk outlet_of] in *;
          unfold LSL.push_eeg_chunk, LSL.push_acc_chunk, LSL.push_gyro_chunk;
          rewrite Ec, Eo; reflexivity. }
      rewrite Hrun. apply outlets_grow_refl. }
  destruct (push_chunk m (snd r) (Some clock) clock (lsl_streamer s)) as [[[]|e] l1];
    cbn [snd] in *.
  - pose proof (count_packet_lsl k (set_lsl_streamer l1 s)) as Hc.
    destruct (count_packet k (set_lsl_streamer l1 s)) as [[[]|e] s2];
      cbn -[outlets_grow] in *; rewrite Hc; exact Hpush.
  - exact Hpush.
Qed.

Lemma deliver_outlets (n : notification) (s : CustomMuseStreamer) :
  table_ok s → outlets_grow (lsl_streamer s) (lsl_streamer (snd (deliver n s))).
Proof.
  intros Hok. destruct n as [d c|d c|d c|d c|d c|d c]; cbn [deliver].
  - apply (eeg_callback_outlets "TP9"); [exact Hok|apply (bool_decide_unpack _); reflexivity].
  - apply (eeg_callback_outlets "AF7"); [exact Hok|apply (bool_decide_unpack _); reflexivity].
  - apply (eeg_callback_outlets "AF8"); [exact Hok|apply (bool_decide_unpack _); reflexivity].
  - apply (eeg_callback_outlets "TP10"); [exact Hok|apply (bool_decide_unpack _); reflexivity].
  - apply (imu_callback_outlets ACC (parse_acc_packet d) "ACC" c s); [discriminate|].
    intros r Hr. apply (parse_imu_rows d). left. exact Hr.
  - apply (imu_callback_outlets GYRO (parse_gyro_packet d) "GYRO" c s); [discriminate|].
    intros r Hr. apply (parse_imu_rows d). right. exact Hr.
Qed.

Lemma deliver_all_outlets (l : list notification) : ∀ s,
  table_ok s → outlets_grow (lsl_streamer s) (lsl_streamer (deliver_all l s)).
Proof.
  induction l as [|n l IH]; intros s Hok; [apply outlets_grow_refl|].
  change (deliver_all (n :: l) s) with (deliver_all l (snd (deliver n s))).
  eapply outlets_grow_trans; [apply deliver_outlets, Hok|].
  apply IH, deliver_table, Hok.
Qed.

(** X25. What has been published stays published: over any sequence of
    notifications, whatever their payloads, each of the three outlets
    keeps the samples it held, in their order, and is only appended to
    (the callbacks never close or replace an outlet); and every sample
    appended has the channel count its stream was declared with, 4 for
    EEG and 3 for the accelerometer and the gyroscope. *)
Theorem outlets_append_only
    (l : list notification) (s : CustomMuseStreamer) (m : modality) (o : LSL.StreamOutlet) :
  table_ok s →
  outlet_of m (lsl_streamer s) = Some o →
  ∃ new,
    outlet_of m (lsl_streamer (deliver_all l s)) = Some (o ++ new)
    ∧ Forall (fun r : list Q * Q => length (fst r) = channel_count m) new.
Proof. intros Hok Ho. apply (deliver_all_outlets l s Hok m o Ho). Qed.

Lemma outlets_append_only_witness :
  ∃ new,
    outlet_of ACC
      (lsl_streamer
         (deliver_all [notify_acc example_imu_packet 1; notify_tp9 example_eeg_packet 2;
                       notify_acc [] 3; notify_acc example_imu_packet 4] example_ready))
    = Some ([] ++ new)
    ∧ Forall (fun r : list Q * Q => length (fst r) = channel_count ACC) new.
Proof.
  apply (outlets_append_only _ example_ready ACC []).
  - exact table_ok_example_ready.
  - reflexivity.
Defined.

(** ** From notifications to frames *)

Lemma table_ok_counts (pc : gmap string Z) (s : CustomMuseStreamer) :
  table_ok s → table_ok (set_packet_counts pc s).
Proof. apply table_ok_same; reflexivity. Qed.

Lemma process_counts_indep (ch : string) (i : Z) (x : list Q) (clock : Q)
    (pc : gmap string Z) (s : CustomMuseStreamer) :
  table_ok s → ch ∈ Constants.EEG_CHANNEL_NAMES → length x = 12%nat →
  _process_eeg_packet ch i x clock (set_packet_counts pc s)
  = (fst (_process_eeg_packet ch i x clock s),
     set_packet_counts pc (snd (_process_eeg_packet ch i x clock s))).
Proof.
  intros Hok Hch Hx.
  pose proof (table_ok_counts pc s Hok) as Hok'.
  destruct (decide (size (<[ch := x]> (default ∅ (_eeg_buffer s !! i))) = 4%nat)) as [Hsz|Hsz].
  - pose proof (table_ok_store ch i x clock s Hok Hch Hx) as Hst.
    assert (Hfr : frame_ok (<[ch := x]> (default ∅ (_eeg_buffer s !! i)))).
    { apply (proj2 Hst i). unfold store. cbn. apply lookup_insert_eq. }
    destruct (frame_ok_full _ Hfr Hsz)
      as (tp9 & af7 & af8 & tp10 & H9 & H7 & H8 & H10 & L9 & L7 & L8 & L10).
    assert (Ht : is_Some (_eeg_timestamps (store ch i x clock s) !! i)).
    { apply (proj1 Hst i). unfold store. cbn. rewrite lookup_insert_eq. eexists; reflexivity. }
    destruct Ht as [t Ht].
    destruct (eeg_ready s) eqn:Er.
    + assert (Hr : streams_ready s (default [] (LSL.eeg_outlet (lsl_streamer s)))).
      { unfold eeg_ready, LSLMore.is_not_None in Er.
        destruct (LSL._streams_created (lsl_streamer s)) eqn:Ec; [|discriminate].
        destruct (LSL.eeg_outlet (lsl_streamer s)) eqn:Eo; [|discriminate].
        split; [exact Ec|exact Eo]. }
      rewrite (process_complete ch i x clock s _ tp9 af7 af8 tp10 t Hr Hsz
                 H9 H7 H8 H10 L9 L7 L8 L10 Ht).
      rewrite (process_complete ch i x clock (set_packet_counts pc s) _ tp9 af7 af8 tp10 t
                 Hr Hsz H9 H7 H8 H10 L9 L7 L8 L10 Ht).
      cbn [fst snd]. f_equal. unfold retain. cbn [_eeg_buffer publish store
        set_lsl_streamer set_eeg_buffer set_eeg_timestamps set_packet_counts].
      destruct (10 <? _)%nat; reflexivity.
    + rewrite (process_complete_unready ch i x clock s tp9 af7 af8 tp10 t Er Hsz
                 H9 H7 H8 H10 L9 L7 L8 L10 Ht).
      rewrite (process_complete_unready ch i x clock (set_packet_counts pc s)
                 tp9 af7 af8 tp10 t Er Hsz H9 H7 H8 H10 L9 L7 L8 L10 Ht).
      reflexivity.
  - rewrite (process_incomplete ch i x clock s Hsz).
    rewrite (process_incomplete ch i x clock (set_packet_counts pc s) Hsz). reflexivity.
Qed.

Lemma process_ready (ch : string) (i : Z) (x : list Q) (clock : Q) (s : CustomMuseStreamer) :
  table_ok s → ch ∈ Constants.EEG_CHANNEL_NAMES → length x = 12%nat →
  eeg_ready s = true → eeg_ready (snd (_process_eeg_packet ch i x clock s)) = true.
Proof.
  intros Hok Hch Hx Er.
  destruct (decide (size (<[ch := x]> (default ∅ (_eeg_buffer s !! i))) = 4%nat)) as [Hsz|Hsz].
  - destruct (process_publishes ch i x clock s Hok Hch Hx Er Hsz)
      as (tp9 & af7 & af8 & tp10 & t & _ & _ & Hrun).
    rewrite Hrun. cbn [snd]. unfold eeg_ready, LSLMore.is_not_None in *.
    destruct (LSL._streams_created (lsl_streamer s)) eqn:Ec; [|discriminate].
    destruct (LSL.eeg_outlet (lsl_streamer s)) as [o|] eqn:Eo; [|discriminate].
    unfold retain. destruct (10 <? _)%nat; cbn; rewrite Ec, Eo; reflexivity.
  - rewrite (process_incomplete ch i x clock s Hsz). exact Er.
Qed.

Lemma core_counts (pc : gmap string Z) (s : CustomMuseStreamer) :
  core (set_packet_counts pc s) = core s.
Proof. reflexivity. Qed.

Lemma arrival_of_Some (n : notification) (a : eeg_arrival) :
  arrival_of n = Some a →
  counter_of n ∈ Constants.EEG_CHANNEL_NAMES
  ∧ parse_eeg_packet (payload n) = Ok (arr_index a, arr_samples a)
  ∧ arr_channel a = counter_of n ∧ arr_clock a = clock_of n
  ∧ length (arr_samples a) = 12%nat.
Proof.
  unfold arrival_of. case_bool_decide as Hch; [|discriminate].
  destruct (parse_eeg_packet (payload n)) as [[i x]|e] eqn:Ep; [|discriminate].
  intros [= <-]. cbn. split; [exact Hch|]. split; [reflexivity|].
  split; [reflexivity|]. split; [reflexivity|].
  apply (parse_eeg_packet_length _ _ Ep).
Qed.

Lemma deliver_as_callback (n : notification) (s : CustomMuseStreamer) :
  counter_of n ∈ Constants.EEG_CHANNEL_NAMES →
  deliver n s
  = try_except
      (do r <- lift_result (parse_eeg_packet (payload n));
       _process_eeg_packet (counter_of n) (fst r) (snd r) (clock_of n) ;;
       count_packet (counter_of n))%M
      (fun _ => ret tt) s.
Proof.
  intros Hch. destruct n as [d t|d t|d t|d t|d t|d t]; try reflexivity;
    exfalso; apply (bool_decide_pack _) in Hch; exact Hch.
Qed.

(** One decodable EEG notification in a streamer whose EEG outlet
    exists: apart from the counters it acts as [feed] on its sample,
    and its counter is incremented. *)
Lemma deliver_ready (n : notification) (a : eeg_arrival) (pc : gmap string Z)
    (s : CustomMuseStreamer) (c : Z) :
  table_ok s → eeg_ready s = true →
  arrival_of n = Some a →
  pc !! counter_of n = Some c →
  snd (deliver n (set_packet_counts pc s))
  = set_packet_counts (<[counter_of n := c + 1]> pc) (feed a s).
Proof.
  intros Hok Er Ha Hc.
  destruct (arrival_of_Some n a Ha) as (Hch & Hp & Hach & Hacl & Hx).
  rewrite (deliver_as_callback n _ Hch).
  rewrite (eeg_callback_outcome (counter_of n) (payload n) (clock_of n)
             (set_packet_counts pc s) (arr_index a) (arr_samples a) c
             (table_ok_counts pc s Hok) Hch Hp Hc).
  cbn [snd]. rewrite decide_False
    by (intros [_ Hbad]; change (eeg_ready s = false) in Hbad; congruence).
  rewrite (process_counts_indep _ _ _ _ pc s Hok Hch Hx). cbn [snd].
  unfold feed. rewrite Hach, Hacl. reflexivity.
Qed.

Lemma feed_table (a : eeg_arrival) (s : CustomMuseStreamer) :
  arr_channel a ∈ Constants.EEG_CHANNEL_NAMES → length (arr_samples a) = 12%nat →
  table_ok s → table_ok (feed a s).
Proof. intros Hch Hx Hok. apply (process_eeg_packet_cases _ _ _ _ _ Hok Hch Hx). Qed.

Lemma deliver_all_ready (l : list notification) : ∀ (order : list eeg_arrival)
    (pc : gmap string Z) (s : CustomMuseStreamer),
  table_ok s → eeg_ready s = true →
  Forall2 (fun n a => arrival_of n = Some a) l order →
  (∀ n, n ∈ l → is_Some (pc !! counter_of n)) →
  ∃ pc',
    deliver_all l (set_packet_counts pc s) = set_packet_counts pc' (feed_all order s)
    ∧ (∀ key, pc' !! key = (fun c => c + notified key l) <$> pc !! key).
Proof.
  induction l as [|n l IH]; intros order pc s Hok Er Hall Hpc.
  - apply Forall2_nil_inv_l in Hall as ->. exists pc. split; [reflexivity|].
    intros key. unfold notified. cbn. destruct (pc !! key); cbn; [rewrite Z.add_0_r|]; reflexivity.
  - apply Forall2_cons_inv_l in Hall as (a & order' & Ha & Hall & ->).
    destruct (Hpc n) as [c Hc]; [apply elem_of_cons; left; reflexivity|].
    destruct (arrival_of_Some n a Ha) as (Hch & Hp & Hach & Hacl & Hx).
    change (deliver_all (n :: l) (set_packet_counts pc s))
      with (deliver_all l (snd (deliver n (set_packet_counts pc s)))).
    rewrite (deliver_ready n a pc s c Hok Er Ha Hc).
    change (feed_all (a :: order') s) with (feed_all order' (feed a s)).
    destruct (IH order' (<[counter_of n := c + 1]> pc) (feed a s)) as (pc' & Hrun & Hpc').
    + apply feed_table; [rewrite Hach; exact Hch|exact Hx|exact Hok].
    + unfold feed. apply process_ready; [exact Hok|rewrite Hach; exact Hch|exact Hx|exact Er].
    + exact Hall.
    + intros n' Hn'. destruct (decide (counter_of n' = counter_of n)) as [->|Hne].
      * rewrite lookup_insert_eq. eexists; reflexivity.
      * rewrite lookup_insert_ne by congruence. apply Hpc, elem_of_cons. right. exact Hn'.
    + exists pc'. split; [exact Hrun|]. intros key. rewrite Hpc', notified_cons.
      destruct (decide (counter_of n = key)) as [<-|Hne].
      * rewrite lookup_insert_eq, Hc, bool_decide_eq_true_2 by reflexivity. cbn.
        f_equal. lia.
      * rewrite lookup_insert_ne by exact Hne. rewrite bool_decide_eq_false_2 by exact Hne.
        destruct (pc !! key); cbn; [f_equal; lia|reflexivity].
Qed.

Lemma set_packet_counts_eta (s : CustomMuseStreamer) :
  set_packet_counts (_packet_counts s) s = s.
Proof. destruct s; reflexivity. Qed.

(** X26. In a streamer whose EEG outlet exists, decodable EEG
    notifications are handled one for one: apart from the packet
    counters, the state after any sequence of them is the state that
    handing their decoded samples to [_process_eeg_packet] in the same
    order gives (no notification is dropped, duplicated or reordered by
    a callback), and every counter has grown by exactly the number of
    notifications of its characteristic. *)
Theorem ready_notifications_processed
    (l : list notification) (order : list eeg_arrival) (s : CustomMuseStreamer) :
  table_ok s →
  eeg_ready s = true →
  Forall2 (fun n a => arrival_of n = Some a) l order →
  (∀ n, n ∈ l → is_Some (_packet_counts s !! counter_of n)) →
  core (deliver_all l s) = core (feed_all order s)
  ∧ (∀ key, _packet_counts (deliver_all l s) !! key
            = (fun c => c + notified key l) <$> _packet_counts s !! key).
Proof.
  intros Hok Er Hall Hpc.
  destruct (deliver_all_ready l order (_packet_counts s) s Hok Er Hall Hpc)
    as (pc' & Hrun & Hpc').
  rewrite set_packet_counts_eta in Hrun. rewrite Hrun. split; [reflexivity|exact Hpc'].
Qed.

Lemma ready_notifications_processed_witness :
  core (deliver_all [notify_af8 example_eeg_packet 3; notify_tp9 example_eeg_packet 4]
          example_ready)
  = core (feed_all
            [mkArrival "AF8" (layout_sequence_index example_eeg_packet)
               (List.map (fun k => eeg_microvolts (layout_eeg_raw example_eeg_packet k))
                  (seq 0 12)) 3;
             mkArrival "TP9" (layout_sequence_index example_eeg_packet)
               (List.map (fun k => eeg_microvolts (layout_eeg_raw example_eeg_packet k))
                  (seq 0 12)) 4]
            example_ready)
  ∧ (∀ key,
       _packet_counts
         (deliver_all [notify_af8 example_eeg_packet 3; notify_tp9 example_eeg_packet 4]
            example_ready) !! key
       = (fun c => c + notified key [notify_af8 example_eeg_packet 3;
                                     notify_tp9 example_eeg_packet 4])
         <$> _packet_counts example_ready !! key).
Proof.
  apply (ready_notifications_processed
           [notify_af8 example_eeg_packet 3; notify_tp9 example_eeg_packet 4]).
  - exact table_ok_example_ready.
  - reflexivity.
  - constructor; [vm_compute; reflexivity|].
    constructor; [vm_compute; reflexivity|]. constructor.
  - intros n Hn. apply elem_of_cons in Hn as [->|Hn]; [eexists; reflexivity|].
    apply elem_of_cons in Hn as [->|Hn]; [eexists; reflexivity|].
    apply elem_of_nil in Hn. contradiction.
Defined.

Lemma arrivals_shape (l : list notification) (order : list eeg_arrival) :
  Forall2 (fun n a => arrival_of n = Some a) l order →
  Forall (fun a => length (arr_samples a) = 12%nat) order
  ∧ (∀ key, notified key l
            = Z.of_nat (length (List.filter (fun a => bool_decide (arr_channel a = key)) order))).
Proof.
  induction 1 as [|n a l order Ha _ [IH1 IH2]].
  - split; [apply Forall_nil_2|intros key; reflexivity].
  - destruct (arrival_of_Some n a Ha) as (_ & _ & Hach & _ & Hx).
    split; [apply Forall_cons; split; assumption|].
    intros key. rewrite notified_cons, IH2. cbn [List.filter]. rewrite Hach.
    case_bool_decide; cbn [length]; lia.
Qed.

(** X27. From the bytes to the outlet: in a streamer whose EEG outlet
    exists and where sequence index [i] is not pending, four EEG
    notifications, one per channel, whose payloads decode to index [i],
    delivered in any order, publish exactly one frame: the EEG outlet
    grows by 12 rows whose columns are the decoded samples of TP9, AF7,
    AF8 and TP10, stamped from the clock reading taken in the callback
    of the first of the four, and each of the four counters grows by
    one. *)
Theorem four_notifications_one_frame
    (s : CustomMuseStreamer) (o : LSL.StreamOutlet) (i : Z)
    (tp9 af7 af8 tp10 : list Q) (c9 c7 c8 c10 : Q)
    (l : list notification) (order : list eeg_arrival) :
  table_ok s →
  streams_ready s o →
  _eeg_buffer s !! i = None →
  (∀ ch, ch ∈ Constants.EEG_CHANNEL_NAMES → is_Some (_packet_counts s !! ch)) →
  Forall2 (fun n a => arrival_of n = Some a) l order →
  order ≡ₚ four_arrivals i tp9 af7 af8 tp10 c9 c7 c8 c10 →
  ∃ first rest,
    l = first :: rest
    ∧ LSL.eeg_outlet (lsl_streamer (deliver_all l s))
      = Some (o ++ published_frame tp9 af7 af8 tp10 (clock_of first))
    ∧ (∀ ch, ch ∈ Constants.EEG_CHANNEL_NAMES →
         _packet_counts (deliver_all l s) !! ch
         = (fun c => c + 1) <$> _packet_counts s !! ch).
Proof.
  intros Hok Hr Hnone Hpc Hall Hp.
  destruct (arrivals_shape l order Hall) as [Hlen Hnot].
  assert (Hlen4 : Forall (fun a => length (arr_samples a) = 12%nat)
                    (four_arrivals i tp9 af7 af8 tp10 c9 c7 c8 c10))
    by (rewrite <- Hp; exact Hlen).
  unfold four_arrivals in Hlen4.
  apply Forall_cons in Hlen4 as [L9 Hlen4]. apply Forall_cons in Hlen4 as [L7 Hlen4].
  apply Forall_cons in Hlen4 as [L8 Hlen4]. apply Forall_cons in Hlen4 as [L10 _].
  cbn in L9, L7, L8, L10.
  assert (Er : eeg_ready s = true).
  { destruct Hr as [Hc Ho]. unfold eeg_ready. rewrite Hc, Ho. reflexivity. }
  destruct (feed_four_arrivals s o i tp9 af7 af8 tp10 c9 c7 c8 c10 order
              Hr Hnone L9 L7 L8 L10 Hp) as (fa & resta & Horder & _ & Hfin).
  subst order.
  apply Forall2_cons_inv_r in Hall as (n & l' & Hn & Hall' & ->).
  destruct (arrival_of_Some n fa Hn) as (_ & _ & _ & Hcl & _).
  assert (Hall : Forall2 (fun n a => arrival_of n = Some a) (n :: l') (fa :: resta))
    by (constructor; assumption).
  assert (Hcnt : ∀ n', n' ∈ n :: l' → is_Some (_packet_counts s !! counter_of n')).
  { intros n' Hn'. apply Hpc.
    apply list_elem_of_lookup in Hn' as [j Hj].
    destruct (Forall2_lookup_l _ _ _ _ _ Hall Hj) as (a' & _ & Ha').
    apply (arrival_of_Some n' a' Ha'). }
  destruct (deliver_all_ready (n :: l') (fa :: resta) (_packet_counts s) s Hok Er Hall Hcnt)
    as (pc' & Hrun & Hpc').
  rewrite set_packet_counts_eta in Hrun.
  exists n, l'. split; [reflexivity|]. rewrite Hrun. split.
  - cbn [lsl_streamer set_packet_counts]. rewrite Hfin, Hcl.
    apply outlet_retain_publish. cbn. apply Hr.
  - intros ch Hch. cbn [_packet_counts set_packet_counts]. rewrite Hpc', Hnot.
    rewrite (filter_length_Permutation _ _ _ Hp).
    assert (H1 : length (List.filter (fun a => bool_decide (arr_channel a = ch))
                           (four_arrivals i tp9 af7 af8 tp10 c9 c7 c8 c10)) = 1%nat).
    { unfold Constants.EEG_CHANNEL_NAMES in Hch. rewrite !elem_of_cons in Hch.
      destruct Hch as [->|[->|[->|[->|Hch]]]]; [reflexivity..|].
      apply elem_of_nil in Hch. contradiction. }
    rewrite H1. reflexivity.
Qed.

Lemma four_notifications_one_frame_witness :
  let x := List.map (fun k => eeg_microvolts (layout_eeg_raw example_eeg_packet k)) (seq 0 12) in
  let l := [notify_af8 example_eeg_packet 3; notify_tp9 example_eeg_packet 4;
            notify_tp10 example_eeg_packet 5; notify_af7 example_eeg_packet 6] in
  ∃ first rest,
    l = first :: rest
    ∧ LSL.eeg_outlet (lsl_streamer (deliver_all l example_ready))
      = Some ([] ++ published_frame x x x x (clock_of first))
    ∧ (∀ ch, ch ∈ Constants.EEG_CHANNEL_NAMES →
         _packet_counts (deliver_all l example_ready) !! ch
         = (fun c => c + 1) <$> _packet_counts example_ready !! ch).
Proof.
  apply (four_notifications_one_frame example_ready []
           (layout_sequence_index example_eeg_packet)
           (List.map (fun k => eeg_microvolts (layout_eeg_raw example_eeg_packet k)) (seq 0 12))
           (List.map (fun k => eeg_microvolts (layout_eeg_raw example_eeg_packet k)) (seq 0 12))
           (List.map (fun k => eeg_microvolts (layout_eeg_raw example_eeg_packet k)) (seq 0 12))
           (List.map (fun k => eeg_microvolts (layout_eeg_raw example_eeg_packet k)) (seq 0 12))
           4 6 3 5
           [notify_af8 example_eeg_packet 3; notify_tp9 example_eeg_packet 4;
            notify_tp10 example_eeg_packet 5; notify_af7 example_eeg_packet 6]
           [mkArrival "AF8" (layout_sequence_index example_eeg_packet)
              (List.map (fun k => eeg_microvolts (layout_eeg_raw example_eeg_packet k))
                 (seq 0 12)) 3;
            mkArrival "TP9" (layout_sequence_index example_eeg_packet)
              (List.map (fun k => eeg_microvolts (layout_eeg_raw example_eeg_packet k))
                 (seq 0 12)) 4;
            mkArrival "TP10" (layout_sequence_index example_eeg_packet)
              (List.map (fun k => eeg_microvolts (layout_eeg_raw example_eeg_packet k))
                 (seq 0 12)) 5;
            mkArrival "AF7" (layout_sequence_index example_eeg_packet)
              (List.map (fun k => eeg_microvolts (layout_eeg_raw example_eeg_packet k))
                 (seq 0 12)) 6]).
  - exact table_ok_example_ready.
  - split; reflexivity.
  - reflexivity.
  - intros ch Hch. unfold Constants.EEG_CHANNEL_NAMES in Hch. rewrite !elem_of_cons in Hch.
    destruct Hch as [->|[->|[->|[->|Hch]]]]; [eexists; reflexivity..|].
    apply elem_of_nil in Hch. contradiction.
  - repeat (constructor; [vm_compute; reflexivity|]). constructor.
  - unfold four_arrivals.
    etrans; [apply perm_swap|]. apply perm_skip.
    etrans; [apply perm_skip, perm_swap|]. apply perm_swap.
Defined.

(** ** The range of the decoded values *)

Lemma int_bound (bs : list bool) (w : nat) :
  length bs = S w → - 2 ^ Z.of_nat w ≤ int bs < 2 ^ Z.of_nat w.
Proof.
  intros Hl. rewrite (int_to_signed bs w Hl). unfold to_signed.
  pose proof (uint_bound bs) as B. rewrite Hl in B.
  rewrite Nat2Z.inj_succ, Z.pow_succ_r in * by lia.
  replace (Z.succ (Z.of_nat w) - 1) with (Z.of_nat w) by lia.
  destruct (Z.ltb_spec (uint bs) (2 ^ Z.of_nat w)); lia.
Qed.

Lemma fields_at_uint12 (bits : list bool) (n : nat) : ∀ off,
  (off + 12 * n ≤ length bits)%nat →
  Forall (fun z => 0 ≤ z < 4096) (fields_at bits off (repeat (t_uint 12) n)).
Proof.
  induction n as [|n IH]; intros off Hle; [apply Forall_nil_2|].
  cbn [repeat fields_at width interp]. apply Forall_cons. split.
  - pose proof (uint_bound (firstn 12 (skipn off bits))) as B.
    rewrite length_take, length_drop in B.
    replace (12 `min` (length bits - off))%nat with 12%nat in B by lia. exact B.
  - apply IH. lia.
Qed.

Lemma fields_at_int16 (bits : list bool) (n : nat) : ∀ off,
  (off + 16 * n ≤ length bits)%nat →
  Forall (fun z => -32768 ≤ z < 32768) (fields_at bits off (repeat (t_int 16) n)).
Proof.
  induction n as [|n IH]; intros off Hle; [apply Forall_nil_2|].
  cbn [repeat fields_at width interp]. apply Forall_cons. split.
  - apply (int_bound _ 15). rewrite length_take, length_drop. lia.
  - apply IH. lia.
Qed.

Lemma index_range (bits : list bool) : 0 ≤ uint (firstn 16 (skipn 0 bits)) < 65536.
Proof.
  pose proof (uint_bound (firstn 16 (skipn 0 bits))) as B.
  rewrite length_take in B.
  assert (2 ^ Z.of_nat (16 `min` length (skipn 0 bits)) ≤ 2 ^ 16)
    by (apply Z.pow_le_mono_r; lia).
  change (2 ^ 16) with 65536 in *. lia.
Qed.

Lemma eeg_sample_range (z : Z) :
  0 ≤ z < 4096 →
  (-1000 <= EEG_SCALE_FACTOR * (inject_Z z - 2048))%Q
  ∧ (EEG_SCALE_FACTOR * (inject_Z z - 2048) < 1000)%Q.
Proof.
  intros Hz. unfold EEG_SCALE_FACTOR, Qle, Qlt, Qmult, Qminus, Qplus, Qopp, inject_Z.
  cbn [Qnum Qden]. split; lia.
Qed.

Lemma acc_sample_range (z : Z) :
  -32768 ≤ z < 32768 →
  (- (20001 # 10000) <= inject_Z z * ACC_SCALE_FACTOR)%Q
  ∧ (inject_Z z * ACC_SCALE_FACTOR <= 20001 # 10000)%Q.
Proof.
  intros Hz. unfold ACC_SCALE_FACTOR, Qle, Qmult, Qopp, inject_Z. cbn [Qnum Qden].
  split; lia.
Qed.

Lemma gyro_sample_range (z : Z) :
  -32768 ≤ z < 32768 →
  (- 245 <= inject_Z z * GYRO_SCALE_FACTOR)%Q ∧ (inject_Z z * GYRO_SCALE_FACTOR <= 245)%Q.
Proof.
  intros Hz. unfold GYRO_SCALE_FACTOR, Qle, Qmult, Qopp, inject_Z. cbn [Qnum Qden].
  split; lia.
Qed.

Lemma imu_rows_range (P : Q → Prop) (f : Q → Q) (rest : list Z) (m : list (list Q)) :
  length rest = 9%nat →
  Forall (fun z => P (f (inject_Z z))) rest →
  reshape_F 3 3 (float_array rest) = Ok m →
  length m = 3%nat
  ∧ Forall (fun row => length row = 3%nat ∧ Forall P row) (List.map (List.map f) m).
Proof.
  intros Hl Hall.
  do 10 (destruct rest as [|? rest]; try discriminate Hl).
  repeat (apply Forall_cons in Hall as [? Hall]).
  cbn. intros [= <-]. split; [reflexivity|].
  repeat (apply Forall_cons; split; [split; [reflexivity|]|]); try apply Forall_nil_2;
    repeat (apply Forall_cons; split; [assumption|]); apply Forall_nil_2.
Qed.

(** X29. What a 20-byte packet can decode to: the sequence index is
    between 0 and 65535; the EEG decoder returns 12 samples, each at
    least -1000 and below 1000 microvolts; the accelerometer decoder
    returns 3 rows of 3 values of magnitude at most 2.0001 g and the
    gyroscope decoder 3 rows of 3 values of magnitude at most 245
    degrees per second.  In particular none of the three raises on a
    payload of the right length. *)
Theorem decoded_ranges (data : list Byte.byte) :
  length data = 20%nat →
  (∃ i x,
     parse_eeg_packet data = Ok (i, x)
     ∧ 0 ≤ i < 65536
     ∧ length x = 12%nat
     ∧ Forall (fun v => (-1000 <= v)%Q ∧ (v < 1000)%Q) x)
  ∧ (∃ i rows,
       parse_acc_packet data = Ok (i, rows)
       ∧ 0 ≤ i < 65536
       ∧ length rows = 3%nat
       ∧ Forall (fun row => length row = 3%nat
                            ∧ Forall (fun v => (- (20001 # 10000) <= v)%Q
                                               ∧ (v <= 20001 # 10000)%Q) row) rows)
  ∧ (∃ i rows,
       parse_gyro_packet data = Ok (i, rows)
       ∧ 0 ≤ i < 65536
       ∧ length rows = 3%nat
       ∧ Forall (fun row => length row = 3%nat
                            ∧ Forall (fun v => (- 245 <= v)%Q ∧ (v <= 245)%Q) row) rows).
Proof.
  intros Hl.
  assert (Hbits : length (Bits data) = 160%nat) by (rewrite length_Bits, Hl; reflexivity).
  split; [|split].
  - rewrite (parse_eeg_packet_fields data Hl).
    change (fields_at (Bits data) 0 eeg_pattern)
      with (uint (firstn 16 (skipn 0 (Bits data)))
            :: fields_at (Bits data) 16 (repeat (t_uint 12) 12)).
    eexists. eexists. split; [reflexivity|]. split; [apply index_range|].
    split; [unfold float_array; rewrite !length_map, length_fields_at; reflexivity|].
    unfold float_array. rewrite List.map_map. apply Forall_map.
    eapply Forall_impl; [apply fields_at_uint12; rewrite Hbits; lia|].
    intros z Hz. apply eeg_sample_range, Hz.
  - rewrite (proj1 (parse_imu_packet_fields data Hl)).
    change (fields_at (Bits data) 0 imu_pattern)
      with (uint (firstn 16 (skipn 0 (Bits data)))
            :: fields_at (Bits data) 16 (repeat (t_int 16) 9)).
    pose proof (fields_at_int16 (Bits data) 9 16) as Hf.
    pose proof (length_fields_at (Bits data) (repeat (t_int 16) 9) 16) as Hn.
    set (rest := fields_at (Bits data) 16 (repeat (t_int 16) 9)) in *.
    destruct (reshape_F 3 3 (float_array rest)) as [m|e] eqn:Em;
      [|unfold reshape_F, float_array in Em; rewrite length_map, Hn in Em; discriminate Em].
    cbn [rbind]. eexists. eexists. split; [reflexivity|]. split; [apply index_range|].
    destruct (imu_rows_range
                (fun v => (- (20001 # 10000) <= v)%Q ∧ (v <= 20001 # 10000)%Q)
                (fun v => v * ACC_SCALE_FACTOR)%Q rest m Hn) as [Hm Hrows]; [|exact Em|].
    + eapply Forall_impl; [apply Hf; rewrite Hbits; lia|].
      intros z Hz. apply acc_sample_range, Hz.
    + assert (Hm' : Ok m = reshape_F 3 3 (float_array rest)) by (symmetry; exact Em).
      unfold reshape_F, float_array in Hm'. rewrite length_map, Hn in Hm'.
      injection Hm' as ->.
      split; [rewrite length_map; exact Hm|exact Hrows].
  - rewrite (proj2 (parse_imu_packet_fields data Hl)).
    change (fields_at (Bits data) 0 imu_pattern)
      with (uint (firstn 16 (skipn 0 (Bits data)))
            :: fields_at (Bits data) 16 (repeat (t_int 16) 9)).
    pose proof (fields_at_int16 (Bits data) 9 16) as Hf.
    pose proof (length_fields_at (Bits data) (repeat (t_int 16) 9) 16) as Hn.
    set (rest := fields_at (Bits data) 16 (repeat (t_int 16) 9)) in *.
    destruct (reshape_F 3 3 (float_array rest)) as [m|e] eqn:Em;
      [|unfold reshape_F, float_array in Em; rewrite length_map, Hn in Em; discriminate Em].
    cbn [rbind]. eexists. eexists. split; [reflexivity|]. split; [apply index_range|].
    destruct (imu_rows_range
                (fun v => (- 245 <= v)%Q ∧ (v <= 245)%Q)
                (fun v => v * GYRO_SCALE_FACTOR)%Q rest m Hn) as [Hm Hrows]; [|exact Em|].
    + eapply Forall_impl; [apply Hf; rewrite Hbits; lia|].
      intros z Hz. apply gyro_sample_range, Hz.
    + assert (Hm' : Ok m = reshape_F 3 3 (float_array rest)) by (symmetry; exact Em).
      unfold reshape_F, float_array in Hm'. rewrite length_map, Hn in Hm'.
      injection Hm' as ->.
      split; [rewrite length_map; exact Hm|exact Hrows].
Qed.

Lemma decoded_ranges_witness :
  (∃ i x,
     parse_eeg_packet example_eeg_packet = Ok (i, x)
     ∧ 0 ≤ i < 65536
     ∧ length x = 12%nat
     ∧ Forall (fun v => (-1000 <= v)%Q ∧ (v < 1000)%Q) x)
  ∧ (∃ i rows,
       parse_acc_packet example_eeg_packet = Ok (i, rows)
       ∧ 0 ≤ i < 65536
       ∧ length rows = 3%nat
       ∧ Forall (fun row => length row = 3%nat
                            ∧ Forall (fun v => (- (20001 # 10000) <= v)%Q
                                               ∧ (v <= 20001 # 10000)%Q) row) rows)
  ∧ (∃ i rows,
       parse_gyro_packet example_eeg_packet = Ok (i, rows)
       ∧ 0 ≤ i < 65536
       ∧ length rows = 3%nat
       ∧ Forall (fun row => length row = 3%nat
                            ∧ Forall (fun v => (- 245 <= v)%Q ∧ (v <= 245)%Q) row) rows).
Proof. apply (decoded_ranges example_eeg_packet). reflexivity. Defined.

(** ** When discovery succeeds *)

Lemma scan_streams_keeps (lsl_types : list string) (all_streams : list Discovery.StreamInfo)
    (found : gmap string Discovery.StreamInfo) (k : string) :
  is_Some (found !! k) → is_Some (Discovery.scan_streams lsl_types all_streams found !! k).
Proof.
  intros [info Hk]. exists info.
  apply (scan_streams_inv (fun f => f !! k = Some info)); [exact Hk|].
  intros f i Hf _ _ Hnone.
  rewrite lookup_insert_ne; [exact Hf|]. intros <-. rewrite Hnone in Hf. discriminate.
Qed.

Lemma scan_streams_finds (lsl_types : list string) (all_streams : list Discovery.StreamInfo) :
  ∀ (found : gmap string Discovery.StreamInfo) (info : Discovery.StreamInfo),
  info ∈ all_streams → Discovery.info_type info ∈ lsl_types →
  is_Some (Discovery.scan_streams lsl_types all_streams found !! Discovery.info_type info).
Proof.
  induction all_streams as [|x rest IH]; intros found info Hin Ht.
  - apply elem_of_nil in Hin. contradiction.
  - apply elem_of_cons in Hin as [<-|Hin].
    + unfold Discovery.scan_streams. cbn [fold_left].
      apply (scan_streams_keeps lsl_types rest).
      rewrite bool_decide_eq_true_2 by exact Ht. cbn [andb].
      destruct (decide (is_Some (found !! Discovery.info_type info))) as [Hs|Hs].
      * rewrite bool_decide_eq_true_2 by exact Hs. exact Hs.
      * rewrite bool_decide_eq_false_2 by exact Hs. cbn [negb].
        rewrite lookup_insert_eq. eexists; reflexivity.
    + unfold Discovery.scan_streams. cbn [fold_left]. apply IH; assumption.
Qed.

(** X30. Discovery succeeds as soon as the first resolve round lists an
    EEG stream and EEG is among the requested types: the call returns
    (it does not raise), whatever the later rounds list, and the inlets
    returned include every requested type that the first round
    listed. *)
Theorem discovery_succeeds
    (lsl_types : list string) (first : list Discovery.StreamInfo)
    (rounds : list (list Discovery.StreamInfo)) (eeg : Discovery.StreamInfo) :
  "EEG"%string ∈ lsl_types →
  eeg ∈ first →
  Discovery.info_type eeg = "EEG"%string →
  ∃ found,
    Discovery.wait_for_lsl_streams lsl_types (first :: rounds) = Ok found
    ∧ (∀ info, info ∈ first → Discovery.info_type info ∈ lsl_types →
         is_Some (found !! Discovery.info_type info)).
Proof.
  intros Ht Hin He.
  assert (Hpos : (size (∅ : gmap string Discovery.StreamInfo) <? length lsl_types)%nat = true).
  { apply Nat.ltb_lt. rewrite map_size_empty.
    destruct lsl_types; [apply elem_of_nil in Ht; contradiction|cbn; lia]. }
  assert (Hall : ∀ info, info ∈ first → Discovery.info_type info ∈ lsl_types →
            is_Some (Discovery.wait_loop lsl_types (first :: rounds) ∅
                       !! Discovery.info_type info)).
  { intros info Hi Hti. cbn [Discovery.wait_loop]. rewrite Hpos.
    destruct (scan_streams_finds lsl_types first ∅ info Hi Hti) as [v Hv].
    exists v. apply wait_loop_keeps, Hv. }
  unfold Discovery.wait_for_lsl_streams.
  destruct (Hall eeg Hin) as [v Hv]; [rewrite He; exact Ht|].
  rewrite He in Hv. rewrite Hv. eexists. split; [reflexivity|exact Hall].
Qed.

Lemma discovery_succeeds_witness :
  ∃ found,
    Discovery.wait_for_lsl_streams ["EEG"; "ACC"; "GYRO"]%string
      ([Discovery.mkInfo "ACC" "Muse-ACC"; Discovery.mkInfo "EEG" "Muse-EEG"] :: [[]; []])
    = Ok found
    ∧ (∀ info, info ∈ [Discovery.mkInfo "ACC" "Muse-ACC"; Discovery.mkInfo "EEG" "Muse-EEG"] →
         Discovery.info_type info ∈ ["EEG"; "ACC"; "GYRO"]%string →
         is_Some (found !! Discovery.info_type info)).
Proof.
  apply (discovery_succeeds ["EEG"; "ACC"; "GYRO"]%string
           [Discovery.mkInfo "ACC" "Muse-ACC"; Discovery.mkInfo "EEG" "Muse-EEG"]
           [[]; []] (Discovery.mkInfo "EEG" "Muse-EEG")).
  - apply (bool_decide_unpack _). reflexivity.
  - apply elem_of_cons. right. apply elem_of_cons. left. reflexivity.
  - reflexivity.
Defined.
